(** * kaikatsu-api: vacancy acquisition, cache and scheduler

    A shallow embedding of the TypeScript services
    ([scraper.service.ts], [cache.service.ts], [scheduler.service.ts],
    [vacancy.controller.ts]) and the properties of their specification. *)

From Stdlib Require Import ZArith Lia List String Ascii.
From stdpp Require Import base option list gmap.
Import ListNotations.
Local Open Scope Z_scope.

(* ===================================================================== *)
(** ** JavaScript values used by the services *)
(* ===================================================================== *)

Module JS.

(** A JavaScript string is a sequence of UTF-16 code units. *)
Definition jsstring := list N.

(** An ASCII literal as a JavaScript string. *)
Fixpoint js (s : string) : jsstring :=
  match s with
  | EmptyString => []
  | String c s' => N_of_ascii c :: js s'
  end.

Arguments js : simpl never.

(** The non-ASCII characters that occur in the sources. *)
Definition c_man    : N := 0x6E80%N.  (* 満 *)
Definition c_seki   : N := 0x5E2D%N.  (* 席 *)
Definition c_zan    : N := 0x6B8B%N.  (* 残 *)
Definition c_batsu  : N := 0x00D7%N.  (* × *)
Definition c_dai    : N := 0x53F0%N.  (* 台 *)
Definition c_zen    : N := 0x5168%N.  (* 全 *)
Definition c_i      : N := 0x4EE5%N.  (* 以 *)
Definition c_jou    : N := 0x4E0A%N.  (* 上 *)
Definition c_da     : N := 0x30C0%N.  (* ダ *)
Definition c_chouon : N := 0x30FC%N.  (* ー *)
Definition c_tsu    : N := 0x30C4%N.  (* ツ *)

Definition jsstring_eqb (a b : jsstring) : bool := bool_decide (a = b).

(** [String.prototype.startsWith]. *)
Fixpoint startsWith (s p : jsstring) : bool :=
  match p, s with
  | [], _ => true
  | c :: p', d :: s' => (c =? d)%N && startsWith s' p'
  | _ :: _, [] => false
  end.

(** [String.prototype.includes]. *)
Fixpoint includes (s p : jsstring) : bool :=
  startsWith s p ||
  match s with
  | [] => false
  | _ :: s' => includes s' p
  end.

(** [String.prototype.replace] with a string pattern: the first occurrence
    only. *)
Fixpoint replace (s p r : jsstring) : jsstring :=
  if startsWith s p then r ++ drop (length p) s
  else match s with
       | [] => []
       | c :: s' => c :: replace s' p r
       end.

(** *** Character classes *)

(** [\d] (no unicode flag): the ten ASCII digits. *)
Definition is_digit (c : N) : bool := ((48 <=? c) && (c <=? 57))%N.

(** [\s] and the white space skipped by [parseInt]: WhiteSpace and
    LineTerminator of ECMAScript. *)
Definition is_space (c : N) : bool :=
  ((c =? 9) || (c =? 10) || (c =? 11) || (c =? 12) || (c =? 13) || (c =? 32)
   || (c =? 0xA0) || (c =? 0x1680) || ((0x2000 <=? c) && (c <=? 0x200A))
   || (c =? 0x2028) || (c =? 0x2029) || (c =? 0x202F) || (c =? 0x205F)
   || (c =? 0x3000) || (c =? 0xFEFF))%N.

Definition is_char (x : N) (c : N) : bool := (c =? x)%N.

(** The longest prefix of [s] in the class [p], and what follows it. *)
Fixpoint run (p : N -> bool) (s : jsstring) : jsstring :=
  match s with
  | c :: s' => if p c then c :: run p s' else []
  | [] => []
  end.

Fixpoint after (p : N -> bool) (s : jsstring) : jsstring :=
  match s with
  | c :: s' => if p c then after p s' else s
  | [] => []
  end.

(** *** Numbers

    The numbers of the services are counts read from digit strings.  They
    are modelled by [Z]; a JavaScript number is an IEEE double, which holds
    every integer up to [MAX_SAFE_INTEGER] exactly. *)
Definition MAX_SAFE_INTEGER : Z := 2 ^ 53 - 1.
Definition safe_integer (n : Z) : Prop := 0 <= n <= MAX_SAFE_INTEGER.

Definition digit_value (c : N) : Z := Z.of_N c - 48.

(** The mathematical value of a decimal digit string. *)
Definition digits_value (ds : jsstring) : Z :=
  fold_left (fun acc c => 10 * acc + digit_value c) ds 0.

(** [parseInt(s, 10)]: skips leading white space, reads an optional sign and
    the longest prefix of digits; [None] stands for [NaN]. *)
Definition parseInt (s : jsstring) : option Z :=
  let s1 := after is_space s in
  let sign :=
    match s1 with
    | c :: _ => if (c =? 45)%N then -1 else 1
    | [] => 1
    end in
  let s2 :=
    match s1 with
    | c :: r => if ((c =? 43) || (c =? 45))%N then r else s1
    | [] => s1
    end in
  let ds := run is_digit s2 in
  match ds with
  | [] => None
  | _ :: _ => Some (sign * digits_value ds)
  end.

(** *** Regular expressions

    The patterns of the sources are sequences of quantified character
    classes with one capture group and optional anchors.  [exec] follows
    the backtracking semantics of ECMAScript: the leftmost start position
    wins, quantifiers are greedy and give characters back one at a time. *)

Inductive quant := One | Opt | Star | Plus.

Record atom := Atom {
  cls : N -> bool;      (* the character class *)
  qt  : quant;          (* its quantifier *)
  grp : bool            (* inside the capture group *)
}.

Record regex := Regex {
  bol   : bool;         (* starts with ^ *)
  atoms : list atom;
  eol   : bool          (* ends with $ *)
}.

(** Greedy repetition of a class: the longest run first, then shorter
    ones; [k] is the rest of the pattern. *)
Fixpoint greedy {R} (p : N -> bool) (s : jsstring)
    (k : jsstring -> jsstring -> option R) : option R :=
  match s with
  | c :: s' =>
      if p c then
        match greedy p s' (fun taken rest => k (c :: taken) rest) with
        | Some r => Some r
        | None => k [] s
        end
      else k [] s
  | [] => k [] s
  end.

Definition add_cap (g : bool) (cap taken : jsstring) : jsstring :=
  if g then cap ++ taken else cap.

(** Match the atoms at the start of [s]; the result is the text of the
    capture group. *)
Fixpoint match_here (r : list atom) (at_end : bool) (s cap : jsstring)
    {struct r} : option jsstring :=
  match r with
  | [] => if at_end then (match s with [] => Some cap | _ => None end)
          else Some cap
  | a :: r' =>
      let k := fun taken rest => match_here r' at_end rest (add_cap (grp a) cap taken) in
      match qt a with
      | One =>
          match s with
          | c :: s' => if cls a c then k [c] s' else None
          | [] => None
          end
      | Opt =>
          match s with
          | c :: s' =>
              if cls a c then
                match k [c] s' with
                | Some m => Some m
                | None => k [] s
                end
              else k [] s
          | [] => k [] s
          end
      | Star => greedy (cls a) s k
      | Plus =>
          match s with
          | c :: s' =>
              if cls a c then greedy (cls a) s' (fun taken rest => k (c :: taken) rest)
              else None
          | [] => None
          end
      end
  end.

(** Try every start position from the left, the end of the input
    included. *)
Fixpoint search (r : list atom) (at_end : bool) (s : jsstring) : option jsstring :=
  match match_here r at_end s [] with
  | Some m => Some m
  | None =>
      match s with
      | [] => None
      | _ :: s' => search r at_end s'
      end
  end.

(** [s.match(re)] for a pattern without the [g] flag, reduced to
    [match[1]]; [None] when there is no match. *)
Definition exec (re : regex) (s : jsstring) : option jsstring :=
  if bol re then match_here (atoms re) (eol re) s []
  else search (atoms re) (eol re) s.

(** [re.test(s)]. *)
Definition test (re : regex) (s : jsstring) : bool :=
  match exec re s with Some _ => true | None => false end.

End JS.

(* ===================================================================== *)
(** ** The data model ([types/vacancy.ts]) *)
(* ===================================================================== *)

Module Types.
Import JS.

Inductive Status := vacant | crowded | full | unknown.

(** [VacancyData['dartVacancy']]. *)
Record DartVacancy := mkDart {
  available : Z;
  total     : Z;
  status    : Status
}.

(** [VacancyData].  The display name and the two timestamps of the record
    are not modelled; no property below depends on them. *)
Record VacancyData := mkVacancy {
  storeCode   : jsstring;
  dartVacancy : DartVacancy
}.

(** The values thrown by the services: all are [Error] objects. *)
Inductive Error :=
  | ApiStatusError (st : Z)     (* `API returned error status: ${data.status}` *)
  | TypeError                   (* a property read on a missing value *)
  | UpstreamError (msg : string)(* raised by axios or by playwright *)
  | AllRetriesFailed.           (* the fixed error of scrapeWithRetry *)

Definition message (e : Error) : option string :=
  match e with
  | AllRetriesFailed => Some "Failed to fetch vacancy data after all retries"%string
  | UpstreamError m => Some m
  | _ => None
  end.

End Types.

(* ===================================================================== *)
(** ** The TTL cache ([cache.service.ts] over the node-cache package) *)
(* ===================================================================== *)

Module Cache.
Import JS Types.

(** *** node-cache

    The package is a dependency of the repository and its source is not
    part of it; the model follows the behaviour of its [set], [get],
    [has], [getTtl], [del], [flushAll] and of its periodic check, with
    the options the service passes ([stdTTL], [checkperiod: 120],
    [useClones: false]; [deleteOnExpire] is left at its default, true).
    Times are milliseconds of [Date.now()]. *)

(** A stored value with [t], the instant it expires at ([0]: never). *)
Record Entry := mkEntry { t : Z; v : VacancyData }.

Record NodeCache := mkNodeCache {
  data   : gmap jsstring Entry;
  stdTTL : Z;
  hits   : Z;
  misses : Z
}.

Definition nc_new (ttl : Z) : NodeCache :=
  {| data := ∅; stdTTL := ttl; hits := 0; misses := 0 |}.

Definition nc_del (key : jsstring) (c : NodeCache) : NodeCache :=
  {| data := delete key (data c); stdTTL := stdTTL c;
     hits := hits c; misses := misses c |}.

(** [_check]: an entry is stale once its expiry instant lies strictly in
    the past; a stale entry is deleted on sight. *)
Definition stale (now : Z) (e : Entry) : bool :=
  negb (t e =? 0) && (t e <? now).

Definition nc_check (now : Z) (key : jsstring) (e : Entry) (c : NodeCache)
    : bool * NodeCache :=
  if stale now e then (false, nc_del key c) else (true, c).

(** [_wrap]: the expiry instant of a value stored now. *)
Definition livetime (now ttl : Z) : Z :=
  if ttl =? 0 then 0 else now + ttl * 1000.

Definition nc_set (now : Z) (key : jsstring) (value : VacancyData)
    (c : NodeCache) : bool * NodeCache :=
  (true,
   {| data := <[key := mkEntry (livetime now (stdTTL c)) value]> (data c);
      stdTTL := stdTTL c; hits := hits c; misses := misses c |}).

Definition nc_miss (c : NodeCache) : NodeCache :=
  {| data := data c; stdTTL := stdTTL c; hits := hits c; misses := misses c + 1 |}.

Definition nc_hit (c : NodeCache) : NodeCache :=
  {| data := data c; stdTTL := stdTTL c; hits := hits c + 1; misses := misses c |}.

Definition nc_get (now : Z) (key : jsstring) (c : NodeCache)
    : option VacancyData * NodeCache :=
  match data c !! key with
  | Some e =>
      match nc_check now key e c with
      | (true, c') => (Some (v e), nc_hit c')
      | (false, c') => (None, nc_miss c')
      end
  | None => (None, nc_miss c)
  end.

Definition nc_has (now : Z) (key : jsstring) (c : NodeCache)
    : bool * NodeCache :=
  match data c !! key with
  | Some e => nc_check now key e c
  | None => (false, c)
  end.

(** [getTtl]: the expiry instant of a live key; an empty key is refused. *)
Definition nc_getTtl (now : Z) (key : jsstring) (c : NodeCache)
    : option Z * NodeCache :=
  match key with
  | [] => (None, c)
  | _ =>
      match data c !! key with
      | Some e =>
          match nc_check now key e c with
          | (true, c') => (Some (t e), c')
          | (false, c') => (None, c')
          end
      | None => (None, c)
      end
  end.

Definition nc_flushAll (c : NodeCache) : NodeCache :=
  {| data := ∅; stdTTL := stdTTL c; hits := 0; misses := 0 |}.

(** [_checkData], the sweep run every [checkperiod] seconds. *)
Definition nc_checkData (now : Z) (c : NodeCache) : NodeCache :=
  {| data := filter (fun kv => stale now kv.2 = false) (data c);
     stdTTL := stdTTL c; hits := hits c; misses := misses c |}.

(** Modelled from the spec: the statistics of the package are not in the
    repository; [getStats()] returns the counters plus the set of
    currently live keys, which the scheduler reads as [stats.keys]. *)
Definition nc_live_keys (now : Z) (c : NodeCache) : list jsstring :=
  (map_to_list (filter (fun kv => stale now kv.2 = false) (data c))).*1.

(** *** CacheService *)

Record CacheService := mkCacheService {
  ttl   : Z;          (* this.ttl, seconds *)
  cache : NodeCache   (* this.cache *)
}.

(** [new CacheService(ttlSeconds)]. *)
Definition new (ttlSeconds : Z) : CacheService :=
  {| ttl := ttlSeconds; cache := nc_new ttlSeconds |}.

Definition with_cache (s : CacheService) (c : NodeCache) : CacheService :=
  {| ttl := ttl s; cache := c |}.

Definition set (now : Z) (key : jsstring) (value : VacancyData)
    (s : CacheService) : bool * CacheService :=
  let '(ok, c) := nc_set now key value (cache s) in (ok, with_cache s c).

Definition get (now : Z) (key : jsstring) (s : CacheService)
    : option VacancyData * CacheService :=
  let '(r, c) := nc_get now key (cache s) in (r, with_cache s c).

Definition has (now : Z) (key : jsstring) (s : CacheService)
    : bool * CacheService :=
  let '(r, c) := nc_has now key (cache s) in (r, with_cache s c).

Definition delete (key : jsstring) (s : CacheService) : CacheService :=
  with_cache s (nc_del key (cache s)).

Definition clear (s : CacheService) : CacheService :=
  with_cache s (nc_flushAll (cache s)).

(** [getCacheAge]: [this.ttl - Math.floor((ttl - now) / 1000)] when
    [getTtl] gives a truthy instant. *)
Definition getCacheAge (now : Z) (key : jsstring) (s : CacheService)
    : option Z * CacheService :=
  let '(r, c) := nc_getTtl now key (cache s) in
  (match r with
   | Some exp => if exp =? 0 then None else Some (ttl s - (exp - now) / 1000)
   | None => None
   end, with_cache s c).

(** [getStats().keys]. *)
Definition getStats_keys (now : Z) (s : CacheService) : list jsstring :=
  nc_live_keys now (cache s).

End Cache.

(* ===================================================================== *)
(** ** Upstream payloads and the process state *)
(* ===================================================================== *)

Module Upstream.
Import JS Types.

(** One element of [seat_type] in the structured payload.  [seat_name]
    and [category_id] are only compared with [===] to string constants,
    where a value that is not a string compares as any other string does;
    [status_no] goes through [parseInt], which reads the string form of
    its argument; [seat_status] is [None] when the field is missing or
    not a string, on which [status.match] raises. *)
Record Seat := mkSeat {
  seat_name   : jsstring;
  category_id : jsstring;
  seat_status : option jsstring;
  status_no   : jsstring
}.

(** The structured payload; [seat_type] is [None] when absent. *)
Record ApiData := mkApiData {
  api_status : Z;
  seat_type  : option (list Seat)
}.

(** The selector candidates of [extractDartVacancy], in source order. *)
Inductive Selector :=
  | sel_dart_vacancy       (* .dart-vacancy *)
  | sel_data_type_dart     (* [data-type=dart] *)
  | sel_vacancy_dart       (* .vacancy-dart *)
  | sel_id_dartVacancy.    (* #dartVacancy *)

(** What the parser reads of a loaded document through cheerio:
    [select_text sel] is [None] when [$(sel)] is empty and the text of
    the selection otherwise; [rows] are the texts of [$('tr, li')]. *)
Record Document := mkDocument {
  select_text : Selector -> option jsstring;
  rows        : list jsstring
}.

(** A response recorded by the page's response listener; [response] is
    [None] for a falsy body. *)
Record Captured := mkCaptured {
  url      : jsstring;
  response : option ApiData
}.

(** What one page load of the rendered channel yields. *)
Record PageLoad := mkPageLoad {
  apiRequests : list Captured;
  html        : Document
}.

(** The outcome of one upstream call and the time it took. *)
Record Outcome (A : Type) := mkOutcome {
  took   : Z;
  result : Error + A
}.
Arguments mkOutcome {A}.
Arguments took {A}.
Arguments result {A}.

(** The behaviour of the upstream: the [n]-th call of each channel. *)
Record Env := mkEnv {
  axios_get : nat -> jsstring -> Outcome ApiData;
  page_load : nat -> jsstring -> Outcome PageLoad
}.

End Upstream.

(* ===================================================================== *)
(** ** Dates ([Date] of ECMAScript) *)
(* ===================================================================== *)

Module Dates.

(** A [Date] is its time value: milliseconds since the epoch, in UTC.
    The local getters and setters of [Date.prototype] go through the
    time zone of the host. *)
Definition msPerSecond : Z := 1000.
Definition msPerMinute : Z := 60000.
Definition msPerHour   : Z := 3600000.
Definition msPerDay    : Z := 86400000.

(** The time zone of the host, as ECMAScript reads it.  [LocalTZA z t true]
    is the offset of local time from UTC in effect at the instant [t];
    [LocalTZA z t false] is the offset with which the local time value [t]
    is read, which is the offset before the transition when [t] is
    repeated or skipped at a change of offset. *)
Record Zone := mkZone { LocalTZA : Z -> bool -> Z }.

Definition LocalTime (z : Zone) (t : Z) : Z := t + LocalTZA z t true.
Definition UTC (z : Zone) (t : Z) : Z := t - LocalTZA z t false.

Definition Day (t : Z) : Z := t / msPerDay.
Definition HourFromTime (t : Z) : Z := (t / msPerHour) mod 24.
Definition MinFromTime (t : Z) : Z := (t / msPerMinute) mod 60.
Definition SecFromTime (t : Z) : Z := (t / msPerSecond) mod 60.
Definition msFromTime (t : Z) : Z := t mod msPerSecond.

Definition MakeTime (hour min sec ms : Z) : Z :=
  hour * msPerHour + min * msPerMinute + sec * msPerSecond + ms.
Definition MakeDate (day time : Z) : Z := day * msPerDay + time.

Definition getHours (z : Zone) (d : Z) : Z := HourFromTime (LocalTime z d).
Definition getMinutes (z : Zone) (d : Z) : Z := MinFromTime (LocalTime z d).
Definition getSeconds (z : Zone) (d : Z) : Z := SecFromTime (LocalTime z d).
Definition getMilliseconds (z : Zone) (d : Z) : Z := msFromTime (LocalTime z d).

(** The setters replace one field of the local time and read the local
    time value they get back as an instant. *)
Definition setHours (z : Zone) (d hour : Z) : Z :=
  let t := LocalTime z d in
  UTC z (MakeDate (Day t)
           (MakeTime hour (MinFromTime t) (SecFromTime t) (msFromTime t))).

Definition setMinutes (z : Zone) (d min : Z) : Z :=
  let t := LocalTime z d in
  UTC z (MakeDate (Day t)
           (MakeTime (HourFromTime t) min (SecFromTime t) (msFromTime t))).

Definition setSeconds (z : Zone) (d sec : Z) : Z :=
  let t := LocalTime z d in
  UTC z (MakeDate (Day t)
           (MakeTime (HourFromTime t) (MinFromTime t) sec (msFromTime t))).

Definition setMilliseconds (z : Zone) (d ms : Z) : Z :=
  let t := LocalTime z d in
  UTC z (MakeDate (Day t)
           (MakeTime (HourFromTime t) (MinFromTime t) (SecFromTime t) ms)).

(** A zone whose offset never changes. *)
Definition fixed_zone (offset : Z) : Zone := {| LocalTZA := fun _ _ => offset |}.

End Dates.

Module Proc.
Import JS Types Upstream.

(** What the services do that is visible from outside. *)
Inductive Event :=
  | EvDirect (storeCode : jsstring)      (* a request to the structured endpoint *)
  | EvRendered (storeCode : jsstring)    (* a page load in the browser *)
  | EvSleep (ms : Z)                     (* a back-off delay *)
  | EvCacheGet (key : jsstring)
  | EvCacheSet (key : jsstring) (value : VacancyData).

(** The state shared by the singleton services. *)
Record World := mkWorld {
  now            : Z;                   (* Date.now() *)
  zone           : Dates.Zone;          (* the time zone of the host *)
  cacheService   : Cache.CacheService;
  direct_calls   : nat;
  rendered_calls : nat;
  trace          : list Event           (* oldest first *)
}.

Definition log (e : Event) (w : World) : World :=
  {| now := now w; zone := zone w; cacheService := cacheService w;
     direct_calls := direct_calls w; rendered_calls := rendered_calls w;
     trace := trace w ++ [e] |}.

Definition tick (d : Z) (w : World) : World :=
  {| now := now w + d; zone := zone w; cacheService := cacheService w;
     direct_calls := direct_calls w; rendered_calls := rendered_calls w;
     trace := trace w |}.

Definition with_cacheService (c : Cache.CacheService) (w : World) : World :=
  {| now := now w; zone := zone w; cacheService := c;
     direct_calls := direct_calls w; rendered_calls := rendered_calls w;
     trace := trace w |}.

Definition count_direct (w : World) : World :=
  {| now := now w; zone := zone w; cacheService := cacheService w;
     direct_calls := S (direct_calls w); rendered_calls := rendered_calls w;
     trace := trace w |}.

Definition count_rendered (w : World) : World :=
  {| now := now w; zone := zone w; cacheService := cacheService w;
     direct_calls := direct_calls w; rendered_calls := S (rendered_calls w);
     trace := trace w |}.

(** Computations that read and change the world and may throw. *)
Definition M (A : Type) : Type := World -> (Error + A) * World.

Definition ret {A} (a : A) : M A := fun w => (inr a, w).

Definition throw {A} (e : Error) : M A := fun w => (inl e, w).

Definition bind {A B} (m : M A) (k : A -> M B) : M B :=
  fun w =>
    match m w with
    | (inr a, w') => k a w'
    | (inl e, w') => (inl e, w')
    end.

Definition try_catch {A} (m : M A) (h : Error -> M A) : M A :=
  fun w =>
    match m w with
    | (inr a, w') => (inr a, w')
    | (inl e, w') => h e w'
    end.

Definition lift {A} (r : Error + A) : M A := fun w => (r, w).

(** [await new Promise(resolve => setTimeout(resolve, delay))]. *)
Definition sleep (delay : Z) : M unit :=
  fun w => (inr tt, tick delay (log (EvSleep delay) w)).

Definition cache_get (key : jsstring) : M (option VacancyData) :=
  fun w =>
    let '(r, c) := Cache.get (now w) key (cacheService w) in
    (inr r, with_cacheService c (log (EvCacheGet key) w)).

Definition cache_set (key : jsstring) (value : VacancyData) : M bool :=
  fun w =>
    let '(r, c) := Cache.set (now w) key value (cacheService w) in
    (inr r, with_cacheService c (log (EvCacheSet key value) w)).

Definition cache_getCacheAge (key : jsstring) : M (option Z) :=
  fun w =>
    let '(r, c) := Cache.getCacheAge (now w) key (cacheService w) in
    (inr r, with_cacheService c w).

(** [await axios.get(KAIKATSU_API_URL, ...)]. *)
Definition http_get (env : Env) (storeCode : jsstring) : M ApiData :=
  fun w =>
    let o := axios_get env (direct_calls w) storeCode in
    (result o, tick (took o) (count_direct (log (EvDirect storeCode) w))).

(** The browser part of [scrapeVacancy]: open a page, navigate, wait,
    read the captured responses and the document, close the page. *)
Definition browse (env : Env) (storeCode : jsstring) : M PageLoad :=
  fun w =>
    let o := page_load env (rendered_calls w) storeCode in
    (result o, tick (took o) (count_rendered (log (EvRendered storeCode) w))).

Declare Scope proc_scope.
Delimit Scope proc_scope with proc.
Notation "x <- m ;; k" := (bind m (fun x => k))
  (at level 100, m at next level, right associativity) : proc_scope.
Notation "m ;;; k" := (bind m (fun _ => k))
  (at level 100, right associativity) : proc_scope.

End Proc.

(* ===================================================================== *)
(** ** ScraperService ([scraper.service.ts]) *)
(* ===================================================================== *)

Module Scraper.
Import JS Types Upstream Proc.
Local Open Scope proc_scope.

Definition s_manseki : jsstring := [c_man; c_seki].          (* 満席 *)
Definition s_batsu   : jsstring := [c_batsu].                (* × *)
Definition s_darts_ja : jsstring := [c_da; c_chouon; c_tsu]. (* ダーツ *)

(** [/残?(\d+)席/] *)
Definition re_seat : regex :=
  Regex false
    [Atom (is_char c_zan) Opt false; Atom is_digit Plus true;
     Atom (is_char c_seki) One false]
    false.

(** [/(\d+)[\s]*[台]/] *)
Definition re_available : regex :=
  Regex false
    [Atom is_digit Plus true; Atom is_space Star false;
     Atom (is_char c_dai) One false]
    false.

(** [/\/[\s]*(\d+)[\s]*台/] *)
Definition re_total_slash : regex :=
  Regex false
    [Atom (is_char 47%N) One false; Atom is_space Star false;
     Atom is_digit Plus true; Atom is_space Star false;
     Atom (is_char c_dai) One false]
    false.

(** [/全(\d+)[\s]*台/] *)
Definition re_total_zen : regex :=
  Regex false
    [Atom (is_char c_zen) One false; Atom is_digit Plus true;
     Atom is_space Star false; Atom (is_char c_dai) One false]
    false.

(** [parseInt(match[1], 10)] on a capture of [(\d+)]: the capture is a
    non-empty digit string, on which [parseInt] never gives [NaN]. *)
Definition parseInt_capture (m : jsstring) : Z := default 0 (parseInt m).

(** [parseSeatStatus]: the number in a seat status string. *)
Definition parseSeatStatus (status : jsstring) : Z :=
  if jsstring_eqb status s_manseki || jsstring_eqb status s_batsu then 0
  else
    match exec re_seat status with
    | Some m => parseInt_capture m
    | None => 0
    end.

(** [mapStatusNo]; the argument is [None] for [NaN]. *)
Definition mapStatusNo (statusNo : option Z) : Status :=
  match statusNo with
  | Some 1 => vacant
  | Some 2 => crowded
  | Some 3 => crowded
  | Some 4 => full
  | _ => unknown
  end.

(** [determineStatus].  For the non-negative counts it is given,
    [ratio === 0] is [available = 0] and [ratio < 0.3] is
    [10 * available < 3 * total]. *)
Definition determineStatus (available total : Z) : Status :=
  if total =? 0 then unknown
  else if available =? 0 then full
  else if 10 * available <? 3 * total then crowded
  else vacant.

(** The dart entry of a payload:
    [seat.seat_name === 'ダーツ' || seat.category_id === '10']. *)
Definition is_dart (seat : Seat) : bool :=
  jsstring_eqb (seat_name seat) s_darts_ja
  || jsstring_eqb (category_id seat) (js "10").

Definition unknown_vacancy : DartVacancy :=
  {| available := 0; total := 0; status := unknown |}.

(** The normalisation of a structured payload, written out twice in the
    source: in [fetchVacancyFromAPI] and, for a captured response, in
    [scrapeVacancy]. *)
Definition dartVacancy_of_payload (d : ApiData) : Error + DartVacancy :=
  match seat_type d ≫= List.find is_dart with
  | Some dartInfo =>
      match seat_status dartInfo with
      | Some st =>
          let available := parseSeatStatus st in
          let statusNo := parseInt (status_no dartInfo) in
          inr {| available := available;
                 total := if 0 <? available then available else 0;
                 status := mapStatusNo statusNo |}
      | None => inl TypeError
      end
  | None => inr unknown_vacancy
  end.

(** [fetchVacancyFromAPI]: the direct channel. *)
Definition fetchVacancyFromAPI (env : Env) (storeCode : jsstring) : M VacancyData :=
  d <- http_get env storeCode ;;
  if negb (api_status d =? 0) then throw (ApiStatusError (api_status d))
  else
    dv <- lift (dartVacancy_of_payload d) ;;
    ret {| storeCode := storeCode; dartVacancy := dv |}.

Definition selectors : list Selector :=
  [sel_dart_vacancy; sel_data_type_dart; sel_vacancy_dart; sel_id_dartVacancy].

(** The body of the selector loop of [extractDartVacancy] for the text of
    one selection. *)
Definition parse_selection (text : jsstring) : option DartVacancy :=
  let availableMatch := exec re_available text in
  let totalMatch :=
    match exec re_total_slash text with
    | Some m => Some m
    | None => exec re_total_zen text
    end in
  match availableMatch with
  | Some am =>
      let available := parseInt_capture am in
      let total :=
        match totalMatch with
        | Some tm => parseInt_capture tm
        | None => available
        end in
      Some {| available := available; total := total;
              status := determineStatus available total |}
  | None => None
  end.

Fixpoint scan_selectors (doc : Document) (sels : list Selector) : option DartVacancy :=
  match sels with
  | [] => None
  | sel :: rest =>
      match select_text doc sel with
      | Some text =>
          match parse_selection text with
          | Some r => Some r
          | None => scan_selectors doc rest
          end
      | None => scan_selectors doc rest
      end
  end.

Fixpoint scan_rows (rs : list jsstring) : option DartVacancy :=
  match rs with
  | [] => None
  | rowText :: rest =>
      if includes rowText s_darts_ja || includes rowText (js "DARTS") then
        match exec re_available rowText with
        | Some am =>
            let available := parseInt_capture am in
            Some {| available := available; total := available;
                    status := determineStatus available available |}
        | None => scan_rows rest
        end
      else scan_rows rest
  end.

(** [extractDartVacancy]: the rendered-document parse. *)
Definition extractDartVacancy (doc : Document) : DartVacancy :=
  match scan_selectors doc selectors with
  | Some r => r
  | None =>
      match scan_rows (rows doc) with
      | Some r => r
      | None => unknown_vacancy
      end
  end.

(** What [scrapeVacancy] makes of a loaded page: a captured response of
    the structured endpoint first, the document otherwise. *)
Definition vacancy_of_page (p : PageLoad) : Error + DartVacancy :=
  match List.find (fun req => includes (url req) (js "empty_seat")) (apiRequests p) with
  | Some {| response := Some d |} => dartVacancy_of_payload d
  | _ => inr (extractDartVacancy (html p))
  end.

(** [scrapeVacancy]: the rendered channel, one attempt. *)
Definition scrapeVacancy (env : Env) (storeCode : jsstring) : M VacancyData :=
  p <- browse env storeCode ;;
  dv <- lift (vacancy_of_page p) ;;
  ret {| storeCode := storeCode; dartVacancy := dv |}.

(** The loop of [scrapeWithRetry],
    [for (attempt = 1; attempt <= maxRetries; attempt++)], with
    [remaining] the number of iterations still to run. *)
Fixpoint retry_loop (env : Env) (storeCode : jsstring) (maxRetries : Z)
    (remaining : nat) (attempt : Z) (lastError : option Error) : M VacancyData :=
  match remaining with
  | O => throw (default AllRetriesFailed lastError)
  | S remaining' =>
      try_catch (scrapeVacancy env storeCode)
        (fun error =>
           (if attempt <? maxRetries then sleep (2 ^ attempt * 1000) else ret tt) ;;;
           retry_loop env storeCode maxRetries remaining' (attempt + 1) (Some error))
  end.

(** [scrapeWithRetry(storeCode, maxRetries)]; [maxRetries] is an integer,
    as its callers pass it, so that the loop runs [maxRetries] times, or
    not at all when it is below 1. *)
Definition scrapeWithRetry (env : Env) (storeCode : jsstring) (maxRetries : Z)
    : M VacancyData :=
  retry_loop env storeCode maxRetries (Z.to_nat maxRetries) 1 None.

End Scraper.

(* ===================================================================== *)
(** ** SchedulerService ([scheduler.service.ts]) *)
(* ===================================================================== *)

Module Scheduler.
Import JS Types Upstream Proc Dates.
Local Open Scope proc_scope.

(** [getNextScheduledTime], with [new Date()] passed as [now] and the
    time zone of the host as [z]. *)
Definition getNextScheduledTime (z : Zone) (now : Z) : Z :=
  let currentMinute := getMinutes z now in
  let currentSecond := getSeconds z now in
  let currentSlot := currentMinute / 10 in
  let nextSlot :=
    if (4 <=? currentMinute mod 10)
       || ((currentMinute mod 10 =? 4) && (0 <? currentSecond))
    then currentSlot + 1 else currentSlot in
  let nextMinute := nextSlot * 10 + 4 in
  let next := now in
  let next :=
    if 60 <=? nextMinute then setMinutes z (setHours z next (getHours z next + 1)) 4
    else setMinutes z next nextMinute in
  let next := setSeconds z next 0 in
  setMilliseconds z next 0.

(** *** The refresh round *)

Definition DEFAULT_STORE_CODES : list jsstring := [js "20333"].

Definition vacancy_prefix : jsstring := js "vacancy:".

(** [Array.from(new Set(xs))]: the first occurrence of each element. *)
Fixpoint uniq (seen xs : list jsstring) : list jsstring :=
  match xs with
  | [] => []
  | x :: xs' =>
      if bool_decide (x ∈ seen) then uniq seen xs'
      else x :: uniq (x :: seen) xs'
  end.

(** [getStoreCodesFromCache]. *)
Definition getStoreCodesFromCache (w : World) : list jsstring :=
  let keys := Cache.getStats_keys (now w) (cacheService w) in
  let storeCodes :=
    List.map (fun key => replace key vacancy_prefix [])
      (List.filter (fun key => startsWith key vacancy_prefix) keys) in
  uniq [] storeCodes.

(** The callback that [executeScraping] maps over the store codes: the
    rendered channel with two attempts, then the cache. *)
Definition refreshStore (env : Env) (storeCode : jsstring) : M unit :=
  try_catch
    (data <- Scraper.scrapeWithRetry env storeCode 2 ;;
     cache_set (vacancy_prefix ++ storeCode) data ;;;
     ret tt)
    (fun error => ret tt).

Fixpoint refreshAll (env : Env) (storeCodes : list jsstring) : M unit :=
  match storeCodes with
  | [] => ret tt
  | c :: rest => refreshStore env c ;;; refreshAll env rest
  end.

(** [executeScraping].  The callbacks of one round run interleaved on the
    event loop; they are taken here one after the other. *)
Definition executeScraping (env : Env) : M unit :=
  fun w =>
    let storeCodes := getStoreCodesFromCache w in
    let storeCodes :=
      match storeCodes with
      | [] => DEFAULT_STORE_CODES
      | _ => storeCodes
      end in
    refreshAll env storeCodes w.

(** *** Timers

    The timers of the Node event loop: [setTimeout] and [setInterval]
    register a callback under a fresh handle, [clearInterval] removes a
    handle of either kind, and the loop may run any registered timer. *)
Inductive Callback :=
  | FirstTrigger     (* the closure start() gives to setTimeout *)
  | PeriodicTick.    (* the closure it gives to setInterval *)

Inductive Timer :=
  | Timeout (cb : Callback) (delay : Z)
  | Interval (cb : Callback) (period : Z).

Record Process := mkProcess {
  world       : World;
  timers      : gmap nat Timer;   (* the registered timers *)
  next_handle : nat;
  intervals   : list nat          (* SchedulerService.intervals *)
}.

Definition boot (w : World) : Process :=
  {| world := w; timers := ∅; next_handle := 0; intervals := [] |}.

Definition run_task (m : M unit) (p : Process) : Process :=
  {| world := snd (m (world p)); timers := timers p;
     next_handle := next_handle p; intervals := intervals p |}.

Definition register (tm : Timer) (p : Process) : nat * Process :=
  (next_handle p,
   {| world := world p; timers := <[next_handle p := tm]> (timers p);
      next_handle := S (next_handle p); intervals := intervals p |}).

Definition clearInterval (h : nat) (p : Process) : Process :=
  {| world := world p; timers := delete h (timers p);
     next_handle := next_handle p; intervals := intervals p |}.

Definition push_interval (h : nat) (p : Process) : Process :=
  {| world := world p; timers := timers p;
     next_handle := next_handle p; intervals := intervals p ++ [h] |}.

(** [start()]: the warm-up round, then a one-shot timer to the next
    trigger; its handle is dropped. *)
Definition start (env : Env) (p : Process) : Process :=
  let t0 := now (world p) in
  let z := zone (world p) in
  let p := run_task (executeScraping env) p in
  let nextScheduledTime := getNextScheduledTime z t0 in
  let delay := nextScheduledTime - t0 in
  snd (register (Timeout FirstTrigger delay) p).

(** [stop()]. *)
Definition stop (p : Process) : Process :=
  let p := fold_left (fun q h => clearInterval h q) (intervals p) p in
  {| world := world p; timers := timers p;
     next_handle := next_handle p; intervals := [] |}.

Definition run_callback (env : Env) (cb : Callback) (p : Process) : Process :=
  match cb with
  | FirstTrigger =>
      let p := run_task (executeScraping env) p in
      let '(interval, p) := register (Interval PeriodicTick (10 * 60 * 1000)) p in
      push_interval interval p
  | PeriodicTick => run_task (executeScraping env) p
  end.

(** The event loop runs the timer [h]: a timeout is consumed, an
    interval stays registered. *)
Definition fire (env : Env) (h : nat) (p : Process) : option Process :=
  match timers p !! h with
  | Some (Timeout cb _) => Some (run_callback env cb (clearInterval h p))
  | Some (Interval cb _) => Some (run_callback env cb p)
  | None => None
  end.

(** What the process does, step by step. *)
Inductive Action := DoStart | DoStop | DoFire (h : nat).

Definition step (env : Env) (a : Action) (p : Process) : option Process :=
  match a with
  | DoStart => Some (start env p)
  | DoStop => Some (stop p)
  | DoFire h => fire env h p
  end.

Fixpoint steps (env : Env) (acts : list Action) (p : Process) : option Process :=
  match acts with
  | [] => Some p
  | a :: rest =>
      match step env a p with
      | Some p' => steps env rest p'
      | None => None
      end
  end.

End Scheduler.

(* ===================================================================== *)
(** ** VacancyController ([vacancy.controller.ts]) *)
(* ===================================================================== *)

Module Controller.
Import JS Types Upstream Proc.
Local Open Scope proc_scope.

(** A value of [req.query]: absent, a string, or an array or object. *)
Inductive QueryValue := QAbsent | QString (s : jsstring) | QOther.

Record Request := mkRequest {
  params_storeCode : option jsstring;
  query_noCache    : QueryValue
}.

(** The JSON responses of [getVacancy]. *)
Inductive Response :=
  | InvalidStoreCode                                   (* 400 *)
  | Success (data : VacancyData) (cached : bool) (cacheAge : option Z)
  | ScrapingError (e : Error).                         (* 500 *)

(** [/^\d{5}$/] *)
Definition re_storeCode : regex :=
  Regex true
    [Atom is_digit One false; Atom is_digit One false; Atom is_digit One false;
     Atom is_digit One false; Atom is_digit One false]
    true.

(** [req.query.noCache === 'true'] *)
Definition noCache_of (q : QueryValue) : bool :=
  match q with
  | QString s => jsstring_eqb s (js "true")
  | _ => false
  end.

(** The acquisition of [getVacancy]: the direct channel, and the rendered
    channel with three attempts only when it fails. *)
Definition acquire (env : Env) (storeCode : jsstring) : M VacancyData :=
  try_catch (Scraper.fetchVacancyFromAPI env storeCode)
    (fun apiError => Scraper.scrapeWithRetry env storeCode 3).

Definition fetch_fresh (env : Env) (storeCode cacheKey : jsstring) : M Response :=
  vacancyData <- acquire env storeCode ;;
  cache_set cacheKey vacancyData ;;;
  ret (Success vacancyData false None).

(** [getVacancy]. *)
Definition getVacancy (env : Env) (req : Request) (w : World) : Response * World :=
  match params_storeCode req with
  | Some storeCode =>
      if negb (bool_decide (storeCode = [])) && test re_storeCode storeCode then
        let cacheKey := Scheduler.vacancy_prefix ++ storeCode in
        let noCache := noCache_of (query_noCache req) in
        let body : M Response :=
          if negb noCache then
            cachedData <- cache_get cacheKey ;;
            match cachedData with
            | Some cached =>
                cacheAge <- cache_getCacheAge cacheKey ;;
                ret (Success cached true cacheAge)
            | None => fetch_fresh env storeCode cacheKey
            end
          else fetch_fresh env storeCode cacheKey in
        match body w with
        | (inr r, w') => (r, w')
        | (inl e, w') => (ScrapingError e, w')
        end
      else (InvalidStoreCode, w)
  | None => (InvalidStoreCode, w)
  end.

End Controller.

(* ===================================================================== *)
(** ** Specification-level notions *)
(* ===================================================================== *)

Module Spec.
Import JS Types.

Definition all_digits (ds : jsstring) : Prop :=
  Forall (fun c => is_digit c = true) ds.

(** [s] holds, after [pre], an occurrence of the remaining-seats pattern:
    an optional 残, the digits [ds], then 席. *)
Definition seat_pattern (s pre opt ds rest : jsstring) : Prop :=
  s = pre ++ opt ++ ds ++ c_seki :: rest
  /\ (opt = [] \/ opt = [c_zan])
  /\ ds <> [] /\ all_digits ds.

(** The occurrence that starts first. *)
Definition first_seat_pattern (s pre opt ds rest : jsstring) : Prop :=
  seat_pattern s pre opt ds rest
  /\ forall pre' opt' ds' rest',
       seat_pattern s pre' opt' ds' rest' -> (length pre <= length pre')%nat.

(** The invariant of the availability block as the data model words it:
    no total, no status. *)
Definition availability_invariant (dv : DartVacancy) : Prop :=
  total dv = 0 -> status dv = unknown.

(** The structured payload that [scrapeVacancy] takes from a page load:
    the first recorded response whose URL contains "empty_seat", when its
    body is truthy. *)
Definition captured_payload (p : Upstream.PageLoad) : option Upstream.ApiData :=
  match List.find (fun req => includes (Upstream.url req) (js "empty_seat"))
          (Upstream.apiRequests p) with
  | Some req => Upstream.response req
  | None => None
  end.

(** The text of the first selector candidate that matches an element of
    the document. *)
Fixpoint first_selection_in (doc : Upstream.Document)
    (sels : list Upstream.Selector) : option jsstring :=
  match sels with
  | [] => None
  | sel :: rest =>
      match Upstream.select_text doc sel with
      | Some text => Some text
      | None => first_selection_in doc rest
      end
  end.

Definition first_selection (doc : Upstream.Document) : option jsstring :=
  first_selection_in doc Scraper.selectors.

(** A store code the controller accepts: five digits. *)
Definition valid_storeCode (c : jsstring) : Prop :=
  length c = 5%nat /\ all_digits c.

(** Events of the direct channel, and traces without any. *)
Definition is_direct (e : Proc.Event) : bool :=
  match e with Proc.EvDirect _ => true | _ => false end.

Definition no_direct (tr : list Proc.Event) : Prop :=
  Forall (fun e => is_direct e = false) tr.

(** A run of events that begins with an attempt on the direct channel. *)
Definition direct_first (tr : list Proc.Event) : Prop :=
  exists c rest, tr = Proc.EvDirect c :: rest.

(** The response [getVacancy] makes of a fresh acquisition. *)
Definition respond_fresh (env : Upstream.Env) (c key : jsstring) (w : Proc.World)
    : Controller.Response * Proc.World :=
  match Controller.acquire env c w with
  | (inr v, w1) => (Controller.Success v false None, (Proc.cache_set key v w1).2)
  | (inl e, w1) => (Controller.ScrapingError e, w1)
  end.

(** Elapsed milliseconds as seconds: the whole seconds elapsed, and the
    seconds rounded up. *)
Definition whole_seconds (elapsed_ms : Z) : Z := elapsed_ms / 1000.
Definition seconds_up (elapsed_ms : Z) : Z := (elapsed_ms + 999) / 1000.

(** An instant whose local time has the form XX:(10k+4):00.000. *)
Definition is_trigger (z : Dates.Zone) (d : Z) : Prop :=
  Dates.getMinutes z d mod 10 = 4
  /\ Dates.getSeconds z d = 0 /\ Dates.getMilliseconds z d = 0.

(** The local time value [h:m:s] of day [day]. *)
Definition clock (day h m s : Z) : Z :=
  (((day * 24 + h) * 60 + m) * 60 + s) * 1000.

(** The offset of the zone from UTC is [k] at all times. *)
Definition constant_offset (z : Dates.Zone) (k : Z) : Prop :=
  forall t isUTC, Dates.LocalTZA z t isUTC = k.

(** What the [n]-th page load makes of one attempt of the rendered
    channel, and the world it leaves. *)
Definition attempt_outcome (env : Upstream.Env) (c : jsstring) (n : nat)
    : Error + VacancyData :=
  match Upstream.result (Upstream.page_load env n c) with
  | inl e => inl e
  | inr p =>
      match Scraper.vacancy_of_page p with
      | inl e => inl e
      | inr dv => inr (mkVacancy c dv)
      end
  end.

Definition after_attempt (env : Upstream.Env) (c : jsstring) (w : Proc.World)
    : Proc.World :=
  Proc.tick (Upstream.took (Upstream.page_load env (Proc.rendered_calls w) c))
    (Proc.count_rendered (Proc.log (Proc.EvRendered c) w)).

(** The events of a run of the retry loop that starts at attempt number
    [attempt] and fails [failures] times before its last attempt: each
    failure is followed by a back-off of [2^attempt] seconds. *)
Fixpoint retry_trace (c : jsstring) (attempt : Z) (failures : nat)
    : list Proc.Event :=
  match failures with
  | O => [Proc.EvRendered c]
  | S f =>
      Proc.EvRendered c :: Proc.EvSleep (2 ^ attempt * 1000)
        :: retry_trace c (attempt + 1) f
  end.

(** The time such a run takes: the page loads and the back-offs. *)
Fixpoint retry_elapsed (env : Upstream.Env) (c : jsstring) (n : nat)
    (attempt : Z) (failures : nat) : Z :=
  match failures with
  | O => Upstream.took (Upstream.page_load env n c)
  | S f =>
      Upstream.took (Upstream.page_load env n c) + 2 ^ attempt * 1000
      + retry_elapsed env c (S n) (attempt + 1) f
  end.

(** The total back-off recorded in a trace. *)
Fixpoint slept (tr : list Proc.Event) : Z :=
  match tr with
  | [] => 0
  | Proc.EvSleep ms :: tr' => ms + slept tr'
  | _ :: tr' => slept tr'
  end.

End Spec.

(* ===================================================================== *)
(** ** Sample inputs *)
(* ===================================================================== *)

Module Samples.
Import JS Types Upstream Proc.

Definition store : jsstring := js "20333".

(** A page on which the first selector candidate reads "3台". *)
Definition page_3 : PageLoad :=
  {| apiRequests := [];
     html := {| select_text := fun sel =>
                  match sel with
                  | sel_dart_vacancy => Some [51%N; c_dai]
                  | _ => None
                  end;
                rows := [] |} |}.

(** A page on which the first selector candidate reads "3 / 8台". *)
Definition doc_3_of_8 : Document :=
  {| select_text := fun sel =>
       match sel with
       | sel_dart_vacancy => Some [51; 32; 47; 32; 56; c_dai]%N
       | _ => None
       end;
     rows := [] |}.

Definition data_3 : VacancyData :=
  {| storeCode := store;
     dartVacancy := {| available := 3; total := 3; status := vacant |} |}.

(** An upstream whose structured endpoint refuses every request and whose
    page loads fail twice before they succeed. *)
Definition flaky : Env :=
  {| axios_get := fun _ _ => mkOutcome 50 (inl (UpstreamError "403"));
     page_load := fun n _ =>
       if (n <? 2)%nat then mkOutcome 30000 (inl (UpstreamError "timeout"))
       else mkOutcome 5000 (inr page_3) |}.

(** An upstream whose structured endpoint answers with a full dart
    corner: seat status 満席, status code 4. *)
Definition full_payload : ApiData :=
  {| api_status := 0;
     seat_type := Some [ {| seat_name := Scraper.s_darts_ja;
                            category_id := js "10";
                            seat_status := Some Scraper.s_manseki;
                            status_no := js "4" |} ] |}.

Definition direct_full : Env :=
  {| axios_get := fun _ _ => mkOutcome 50 (inr full_payload);
     page_load := fun _ _ => mkOutcome 5000 (inr page_3) |}.

(** Japan Standard Time: UTC+9, without daylight saving time. *)
Definition jst : Dates.Zone := Dates.fixed_zone (9 * 3600000).

(** US Eastern time around the end of daylight saving time on 2026-11-01:
    UTC-4 until 06:00 UTC (02:00 local time), UTC-5 from then on; a local
    time of the repeated hour is read with the offset before the change. *)
Definition fall_back : Z := 1793512800000.

Definition eastern : Dates.Zone :=
  {| Dates.LocalTZA := fun t isUTC =>
       if isUTC then
         if t <? fall_back then -4 * 3600000 else -5 * 3600000
       else
         if t <? fall_back - 4 * 3600000 then -4 * 3600000 else -5 * 3600000 |}.

(** 2026-11-01, 01:56:00 Eastern Daylight Time (05:56 UTC). *)
Definition before_fall_back : Z := 1793512560000.

(** A fresh process state: the clock at [t0] on a host in Japan, an empty
    cache of 900 s. *)
Definition world_at (t0 : Z) : World :=
  {| now := t0; zone := jst; cacheService := Cache.new 900;
     direct_calls := 0; rendered_calls := 0; trace := [] |}.

End Samples.

(* ===================================================================== *)
(** ** Notions for the further properties *)
(* ===================================================================== *)

Module Notions.
Import JS Types Upstream Proc.

(** The longest total back-off of a run of [scrapeWithRetry]:
    [2^1 + ... + 2^(maxRetries - 1)] seconds. *)
Definition backoff_bound (maxRetries : Z) : Z := (2 ^ maxRetries - 2) * 1000.

(** The attempts [n0, n0 + 1, ..., n0 + k - 1] of the rendered channel all
    fail. *)
Definition all_fail (env : Env) (c : jsstring) (n0 k : nat) : Prop :=
  forall i, (i < k)%nat -> exists e, Spec.attempt_outcome env c (n0 + i) = inl e.

(** The service keeps the TTL it was created with as the default TTL of
    its store, as [new CacheService(ttl)] sets it up. *)
Definition configured (s : Cache.CacheService) : Prop :=
  Cache.stdTTL (Cache.cache s) = Cache.ttl s.

(** Traces of the rendered channel alone: page loads and back-off. *)
Definition rendered_only (tr : list Event) : Prop :=
  Forall (fun e => match e with
                   | EvRendered _ | EvSleep _ => True
                   | _ => False
                   end) tr.

(** Traces without a cache lookup. *)
Definition no_cache_read (tr : list Event) : Prop :=
  forall key, EvCacheGet key ∉ tr.

End Notions.

Module Samples2.
Import JS Types Upstream Proc.

(** A structured payload that reports an error: status 1, no seats. *)
Definition error_payload : ApiData := {| api_status := 1; seat_type := None |}.

(** A page load during which that payload was captured from the
    structured endpoint. *)
Definition page_with_error_capture : PageLoad :=
  {| apiRequests :=
       [ {| url := js "https://jx5rl6ilkg.execute-api.ap-northeast-1.amazonaws.com/prd/empty_seat?store_cd=20333";
            response := Some error_payload |} ];
     html := html Samples.page_3 |}.

(** An upstream that answers both channels with the error payload. *)
Definition erroring : Env :=
  {| axios_get := fun _ _ => mkOutcome 50 (inr error_payload);
     page_load := fun _ _ => mkOutcome 5000 (inr page_with_error_capture) |}.

(** An upstream on which nothing works. *)
Definition down : Env :=
  {| axios_get := fun _ _ => mkOutcome 50 (inl (UpstreamError "ECONNREFUSED"));
     page_load := fun n _ =>
       mkOutcome 30000 (inl (UpstreamError (if (n <? 2)%nat then "timeout" else "net::ERR"))) |}.

(** The state after a first request for the sample store was answered
    from the structured endpoint: the cache holds its record. *)
Definition warm_world : World :=
  (Controller.getVacancy Samples.direct_full
     (Controller.mkRequest (Some Samples.store) Controller.QAbsent)
     (Samples.world_at 0)).2.

End Samples2.

(* ===================================================================== *)
(** ** The cache endpoints of the controller *)
(* ===================================================================== *)

Module Admin.
Import JS Types Upstream Proc.

(** The JSON responses of [clearCache]. *)
Inductive ClearResponse :=
  | CacheCleared             (* success, 'Cache cleared successfully' *)
  | CacheError (e : Error).  (* 500 *)

(** [clearCache]: [cacheService.clear()], which does not throw. *)
Definition clearCache (w : World) : ClearResponse * World :=
  (CacheCleared, with_cacheService (Cache.clear (cacheService w)) w).

End Admin.

Module SchedNotions.
Import JS Types Upstream Proc.

(** What [getStoreCodesFromCache] makes of the keys it reads:
    [keys.filter(...).map(...)], then [Array.from(new Set(...))]. *)
Definition storeCodes_of_keys (keys : list jsstring) : list jsstring :=
  Scheduler.uniq []
    (List.map (fun key => replace key Scheduler.vacancy_prefix [])
       (List.filter (fun key => startsWith key Scheduler.vacancy_prefix) keys)).

(** The bookkeeping of the scheduler: [intervals] holds exactly the
    handles of the registered periodic timers, and every registered
    handle is below the next one to be given out. *)
Definition tracked_ok (p : Scheduler.Process) : Prop :=
  (forall h, h ∈ Scheduler.intervals p ->
     exists per, Scheduler.timers p !! h
                 = Some (Scheduler.Interval Scheduler.PeriodicTick per))
  /\ (forall h cb per,
        Scheduler.timers p !! h = Some (Scheduler.Interval cb per) ->
        h ∈ Scheduler.intervals p)
  /\ (forall h, is_Some (Scheduler.timers p !! h) ->
        (h < Scheduler.next_handle p)%nat).

End SchedNotions.

(* ===================================================================== *)
(** ** The time stamp of the rendered document ([extractLastUpdated]) *)
(* ===================================================================== *)

Module Stamps.
Import JS Types.

(** The selector candidates of [extractLastUpdated], in source order. *)
Inductive TimeSelector :=
  | sel_last_updated        (* .last-updated *)
  | sel_update_time         (* .update-time *)
  | sel_data_last_updated   (* [data-last-updated] *)
  | sel_vacancy_time.       (* .vacancy-time *)

Definition time_selectors : list TimeSelector :=
  [sel_last_updated; sel_update_time; sel_data_last_updated; sel_vacancy_time].

(** [String.prototype.trim]. *)
Definition trim (s : jsstring) : jsstring :=
  rev (after is_space (rev (after is_space s))).

(** [/(\d{1,2}):(\d{2})/]; [\d{1,2}] is [\d\d?].  The pattern has two
    groups: [re_time_1] gives [match[1]] and [re_time_2] gives [match[2]]
    of the same match. *)
Definition time_atoms (g1 g2 : bool) : list atom :=
  [Atom is_digit One g1; Atom is_digit Opt g1; Atom (is_char 58) One false;
   Atom is_digit One g2; Atom is_digit One g2].

Definition re_time_1 : regex := Regex false (time_atoms true false) false.
Definition re_time_2 : regex := Regex false (time_atoms false true) false.

(** [now.setHours(h); now.setMinutes(m); now.setSeconds(0);
    now.setMilliseconds(0)]. *)
Definition stamp (z : Dates.Zone) (now h m : Z) : Z :=
  let d := Dates.setHours z now h in
  let d := Dates.setMinutes z d m in
  let d := Dates.setSeconds z d 0 in
  Dates.setMilliseconds z d 0.

(** The loop over the selectors; [select sel] is [None] when [$(sel)] is
    empty and the text of the selection otherwise, [now] is [new Date()]
    and [z] the time zone of the host. *)
Fixpoint scan_times (z : Dates.Zone) (select : TimeSelector -> option jsstring)
    (sels : list TimeSelector) (now : Z) : option Z :=
  match sels with
  | [] => None
  | sel :: rest =>
      match select sel with
      | Some raw =>
          let text := trim raw in
          if bool_decide (text = []) then scan_times z select rest now
          else
            match exec re_time_1 text, exec re_time_2 text with
            | Some h, Some m =>
                Some (stamp z now (Scraper.parseInt_capture h)
                        (Scraper.parseInt_capture m))
            | _, _ => scan_times z select rest now
            end
      | None => scan_times z select rest now
      end
  end.

(** [extractLastUpdated]; the result is the time value of the date that
    [toISOString] prints. *)
Definition extractLastUpdated (z : Dates.Zone)
    (select : TimeSelector -> option jsstring) (now : Z) : Z :=
  default now (scan_times z select time_selectors now).

(** Midnight of the day of the local time value [t]. *)
Definition day_start (t : Z) : Z := t - t mod 86400000.

End Stamps.

Module TimeNotions.
Import JS Types.

(** The text [s] holds a time after [pre]: one or two digits [hh], a
    colon and two digits [mm], followed by [rest]. *)
Definition time_at (s pre hh mm rest : jsstring) : Prop :=
  s = pre ++ hh ++ 58%N :: mm ++ rest
  /\ Spec.all_digits hh /\ (1 <= length hh <= 2)%nat
  /\ Spec.all_digits mm /\ length mm = 2%nat.

Definition has_time (s : jsstring) : Prop :=
  exists pre hh mm rest, time_at s pre hh mm rest.

(** The first time that [s] holds: none starts further to the left. *)
Definition first_time_at (s pre hh mm rest : jsstring) : Prop :=
  time_at s pre hh mm rest
  /\ forall pre' hh' mm' rest',
       time_at s pre' hh' mm' rest' -> (length pre <= length pre')%nat.

End TimeNotions.

(* ===================================================================== *)
(** ** Properties of the string primitives *)
(* ===================================================================== *)

Section RegexFacts.
Import JS Spec.

Lemma run_after (p : N -> bool) (s : jsstring) : run p s ++ after p s = s.
Proof.
  induction s as [|c s IH]; simpl; [reflexivity|].
  destruct (p c); simpl; [by rewrite IH | reflexivity].
Qed.

Lemma run_all (p : N -> bool) (s : jsstring) : Forall (fun c => p c = true) (run p s).
Proof.
  induction s as [|c s IH]; simpl; [constructor|].
  destruct (p c) eqn:E; constructor; assumption.
Qed.

Lemma run_whole (p : N -> bool) (s : jsstring) :
  Forall (fun c => p c = true) s -> run p s = s.
Proof.
  induction 1 as [|c s Hc _ IH]; simpl; [reflexivity|].
  by rewrite Hc, IH.
Qed.

Lemma after_head (p : N -> bool) (s : jsstring) c r :
  after p s = c :: r -> p c = false.
Proof.
  induction s as [|d s IH]; simpl; [discriminate|].
  destruct (p d) eqn:E; [exact IH|].
  intros [= -> _]. exact E.
Qed.

Lemma run_app_stop (p : N -> bool) (ds : jsstring) c r :
  Forall (fun c => p c = true) ds -> p c = false ->
  run p (ds ++ c :: r) = ds /\ after p (ds ++ c :: r) = c :: r.
Proof.
  intros Hds Hc. induction Hds as [|d ds Hd _ [IH1 IH2]]; simpl.
  - by rewrite Hc.
  - rewrite Hd, IH1, IH2. done.
Qed.

(** A greedy repetition gives nothing back when the rest of the pattern
    cannot start with a character of the repeated class. *)
Lemma greedy_maximal {R} (p : N -> bool) (s : jsstring)
    (k : jsstring -> jsstring -> option R) :
  (forall taken c rest, p c = true -> k taken (c :: rest) = None) ->
  greedy p s k = k (run p s) (after p s).
Proof.
  revert k. induction s as [|c s IH]; intros k Hk; simpl; [reflexivity|].
  destruct (p c) eqn:E; [|reflexivity].
  rewrite IH by (intros; by apply Hk).
  destruct (k (c :: run p s) (after p s)) eqn:Ek; [reflexivity|].
  by apply Hk.
Qed.

Lemma digits_value_snoc ds c :
  digits_value (ds ++ [c]) = 10 * digits_value ds + digit_value c.
Proof. unfold digits_value. by rewrite fold_left_app. Qed.

Lemma digits_value_nonneg ds : all_digits ds -> 0 <= digits_value ds.
Proof.
  induction ds as [|c ds IH] using rev_ind; intros H.
  - done.
  - rewrite digits_value_snoc. apply Forall_app in H as [H1 H2].
    inversion H2 as [|? ? Hc _]; subst.
    unfold is_digit in Hc. unfold digit_value.
    apply andb_true_iff in Hc as [Hc1 Hc2].
    apply N.leb_le in Hc1. specialize (IH H1). lia.
Qed.

Lemma digit_not_space c : is_digit c = true -> is_space c = false.
Proof.
  unfold is_digit. intros Hc. apply andb_true_iff in Hc as [H1 H2].
  apply N.leb_le in H1, H2. unfold is_space.
  repeat (apply orb_false_iff; split); try (apply N.eqb_neq; lia).
  apply andb_false_iff. left. apply N.leb_gt. lia.
Qed.

(** On a non-empty digit string [parseInt] gives its value. *)
Lemma parseInt_digits ds :
  ds <> [] -> all_digits ds -> parseInt ds = Some (digits_value ds).
Proof.
  intros Hne Hds. unfold parseInt.
  destruct ds as [|c ds]; [done|].
  inversion Hds as [|? ? Hc Hds']; subst.
  assert (Hsp : is_space c = false) by (by apply digit_not_space).
  simpl after. rewrite Hsp.
  assert (Hsign : (c =? 43)%N = false /\ (c =? 45)%N = false).
  { unfold is_digit in Hc. apply andb_true_iff in Hc as [H1 H2].
    apply N.leb_le in H1, H2. split; apply N.eqb_neq; lia. }
  destruct Hsign as [-> ->]. simpl.
  rewrite Hc. rewrite (run_whole _ _ Hds'). f_equal. lia.
Qed.

End RegexFacts.

Section SearchFacts.
Import JS Spec.

(** [search] returns the match at the first start position that has one. *)
Lemma search_some (r : list atom) (e : bool) (s m : jsstring) :
  search r e s = Some m <->
  exists pre suf, s = pre ++ suf /\ match_here r e suf [] = Some m
    /\ forall pre' suf', s = pre' ++ suf' -> (length pre' < length pre)%nat ->
         match_here r e suf' [] = None.
Proof.
  revert m. induction s as [|c s IH]; intros m; simpl.
  - destruct (match_here r e [] []) as [m0|] eqn:E.
    + split.
      * intros [= <-]. exists [], []. repeat split; [done|]. simpl. lia.
      * intros (pre & suf & Hs & Hm & _).
        symmetry in Hs. apply app_eq_nil in Hs as [-> ->]. congruence.
    + split; [discriminate|].
      intros (pre & suf & Hs & Hm & _).
      symmetry in Hs. apply app_eq_nil in Hs as [-> ->]. congruence.
  - destruct (match_here r e (c :: s) []) as [m0|] eqn:E.
    + split.
      * intros [= <-]. exists [], (c :: s). repeat split; [done|]. simpl. lia.
      * intros (pre & suf & Hs & Hm & Hmin).
        destruct pre as [|d pre].
        -- simpl in Hs. subst suf. congruence.
        -- specialize (Hmin [] (c :: s) eq_refl). simpl in Hmin.
           rewrite Hmin in E by lia. discriminate.
    + rewrite IH. split.
      * intros (pre & suf & -> & Hm & Hmin).
        exists (c :: pre), suf. repeat split; [done|].
        intros pre' suf' Hs Hlen. destruct pre' as [|d pre'].
        -- simpl in Hs. by subst suf'.
        -- simpl in Hs. injection Hs as -> Hs.
           apply (Hmin pre' suf' Hs). simpl in Hlen. lia.
      * intros (pre & suf & Hs & Hm & Hmin).
        destruct pre as [|d pre].
        -- simpl in Hs. subst suf. congruence.
        -- simpl in Hs. injection Hs as -> Hs.
           exists pre, suf. repeat split; [done..|].
           intros pre' suf' Hs' Hlen.
           apply (Hmin (d :: pre') suf'); [by rewrite Hs'|simpl; lia].
Qed.

Lemma search_none (r : list atom) (e : bool) (s : jsstring) :
  search r e s = None <->
  forall pre suf, s = pre ++ suf -> match_here r e suf [] = None.
Proof.
  induction s as [|c s IH]; simpl.
  - destruct (match_here r e [] []) eqn:E.
    + split; [discriminate|]. intros H. specialize (H [] [] eq_refl). congruence.
    + split; [|done]. intros _ pre suf Hs.
      symmetry in Hs. apply app_eq_nil in Hs as [-> ->]. done.
  - destruct (match_here r e (c :: s) []) eqn:E.
    + split; [discriminate|]. intros H. specialize (H [] (c :: s) eq_refl). congruence.
    + rewrite IH. split.
      * intros H pre suf Hs. destruct pre as [|d pre].
        -- simpl in Hs. by subst suf.
        -- simpl in Hs. injection Hs as -> Hs. by apply (H pre).
      * intros H pre suf ->. by apply (H (c :: pre)).
Qed.

Lemma seki_not_digit : is_digit c_seki = false.
Proof. reflexivity. Qed.

Lemma zan_not_digit : is_digit c_zan = false.
Proof. reflexivity. Qed.

Lemma is_char_eq x c : is_char x c = true <-> c = x.
Proof. unfold is_char. apply N.eqb_eq. Qed.

Lemma digit_not_char x c : is_digit x = false -> is_digit c = true -> is_char x c = false.
Proof.
  intros Hx Hc. destruct (is_char x c) eqn:E; [|done].
  apply is_char_eq in E. congruence.
Qed.

(** The digits-then-席 tail of [/残?(\d+)席/] at the start of [s]. *)
Lemma digits_seki_here (s m : jsstring) :
  match_here [Atom is_digit Plus true; Atom (is_char c_seki) One false] false s []
    = Some m <->
  m <> [] /\ all_digits m /\ exists rest, s = m ++ c_seki :: rest.
Proof.
  destruct s as [|c s]; simpl.
  { split; [discriminate|]. intros (Hne & _ & rest & Hs). by destruct m. }
  destruct (is_digit c) eqn:Hc.
  - rewrite greedy_maximal.
    2:{ intros taken c' rest Hc'. simpl.
        by rewrite (digit_not_char _ _ seki_not_digit Hc'). }
    simpl. pose proof (run_after is_digit s) as Hra.
    pose proof (run_all is_digit s) as Hall.
    destruct (after is_digit s) as [|c' r] eqn:Haft.
    + split; [discriminate|]. intros (Hne & Hm & rest & Hs).
      destruct m as [|d m]; [done|]. simpl in Hs. injection Hs as <- Hs.
      inversion Hm as [|? ? _ Hm']; subst.
      destruct (run_app_stop is_digit m c_seki rest Hm' seki_not_digit) as [_ H2].
      congruence.
    + destruct (is_char c_seki c') eqn:Hc'.
      * apply is_char_eq in Hc'. subst c'. split.
        -- intros [= <-]. split; [done|]. split; [by constructor|].
           exists r. simpl. by rewrite Hra.
        -- intros (Hne & Hm & rest & Hs).
           destruct m as [|d m]; [done|]. simpl in Hs. injection Hs as <- Hs.
           inversion Hm as [|? ? _ Hm']; subst.
           destruct (run_app_stop is_digit m c_seki rest Hm' seki_not_digit) as [H1 _].
           by rewrite H1.
      * split; [discriminate|]. intros (Hne & Hm & rest & Hs).
        destruct m as [|d m]; [done|]. simpl in Hs. injection Hs as <- Hs.
        inversion Hm as [|? ? _ Hm']; subst.
        destruct (run_app_stop is_digit m c_seki rest Hm' seki_not_digit) as [_ H2].
        rewrite H2 in Haft. injection Haft as <- _. by compute in Hc'.
  - split; [discriminate|]. intros (Hne & Hm & rest & Hs).
    destruct m as [|d m]; [done|]. simpl in Hs. injection Hs as <- Hs.
    inversion Hm; subst. congruence.
Qed.

(** [/残?(\d+)席/] at the start of [s]. *)
Lemma seat_here (s m : jsstring) :
  match_here (atoms Scraper.re_seat) false s [] = Some m <->
  exists opt rest, s = opt ++ m ++ c_seki :: rest
    /\ (opt = [] \/ opt = [c_zan]) /\ m <> [] /\ all_digits m.
Proof.
  set (tail := [Atom is_digit Plus true; Atom (is_char c_seki) One false]).
  assert (Hzan : forall s', match_here tail false (c_zan :: s') [] = None).
  { intros s'. reflexivity. }
  assert (Hstep : match_here (atoms Scraper.re_seat) false s [] =
            match s with
            | c :: s' =>
                if is_char c_zan c then
                  match match_here tail false s' [] with
                  | Some m => Some m
                  | None => match_here tail false s []
                  end
                else match_here tail false s []
            | [] => match_here tail false s []
            end).
  { destruct s; reflexivity. }
  rewrite Hstep. clear Hstep.
  assert (Hno : forall s', match_here tail false s' [] = Some m ->
            exists rest, s' = m ++ c_seki :: rest /\ m <> [] /\ all_digits m).
  { intros s' H. apply digits_seki_here in H as (? & ? & rest & ?). eauto. }
  split.
  - intros H. destruct s as [|c s'].
    + apply Hno in H as (rest & Hs & ? & ?). exists [], rest. auto.
    + destruct (is_char c_zan c) eqn:Hc.
      * apply is_char_eq in Hc. subst c. rewrite Hzan in H.
        destruct (match_here tail false s' []) eqn:E; [|discriminate].
        injection H as ->. apply Hno in E as (rest & -> & ? & ?).
        exists [c_zan], rest. auto.
      * apply Hno in H as (rest & Hs & ? & ?). exists [], rest. auto.
  - intros (opt & rest & Hs & [-> | ->] & Hne & Hm).
    + simpl in Hs. assert (E : match_here tail false s [] = Some m).
      { apply digits_seki_here. eauto. }
      destruct s as [|c s']; [done|].
      destruct (is_char c_zan c) eqn:Hc; [|done].
      apply is_char_eq in Hc. subst c. rewrite Hzan in E. discriminate.
    + simpl in Hs. subst s. change (is_char c_zan c_zan) with true. cbv iota.
      assert (E : match_here tail false (m ++ c_seki :: rest) [] = Some m).
      { apply digits_seki_here. eauto. }
      by rewrite E.
Qed.

End SearchFacts.

(* ===================================================================== *)
(** ** The seat status grammar *)
(* ===================================================================== *)

Section SeatStatus.
Import JS Types Spec.

Lemma seat_pattern_not_token s pre opt ds rest :
  seat_pattern s pre opt ds rest ->
  jsstring_eqb s Scraper.s_manseki || jsstring_eqb s Scraper.s_batsu = false.
Proof.
  intros (Hs & _ & Hne & Hds).
  destruct ds as [|d ds]; [done|]. inversion Hds as [|? ? Hd _]; subst.
  assert (Hin : d ∈ pre ++ opt ++ (d :: ds) ++ c_seki :: rest).
  { rewrite !elem_of_app. right. right. left. by left. }
  unfold jsstring_eqb. apply orb_false_iff.
  split; apply bool_decide_eq_false; intros E; rewrite E in Hin;
    unfold Scraper.s_manseki, Scraper.s_batsu in Hin;
    rewrite ?elem_of_cons, elem_of_nil in Hin;
    destruct Hin as [-> | Hin]; try discriminate Hd;
    try (destruct Hin as [-> | []]; discriminate Hd); done.
Qed.

Lemma exec_re_seat_search s :
  exec Scraper.re_seat s = search (atoms Scraper.re_seat) false s.
Proof. reflexivity. Qed.

(** Where the pattern occurs, [exec] returns the digits of its first
    occurrence. *)
Lemma exec_re_seat_first s pre opt ds rest :
  first_seat_pattern s pre opt ds rest -> exec Scraper.re_seat s = Some ds.
Proof.
  intros [(Hs & Hopt & Hne & Hds) Hmin].
  rewrite exec_re_seat_search.
  apply search_some. exists pre, (opt ++ ds ++ c_seki :: rest).
  split; [done|]. split.
  - apply seat_here. exists opt, rest. auto.
  - intros pre' suf' Hs' Hlen.
    destruct (match_here (atoms Scraper.re_seat) false suf' []) as [m|] eqn:E; [|done].
    apply seat_here in E as (opt' & rest' & -> & Hopt' & Hne' & Hm).
    assert (Hp : seat_pattern s pre' opt' m rest') by (repeat split; auto).
    apply Hmin in Hp. lia.
Qed.

(** Where it does not occur, [exec] finds nothing. *)
Lemma exec_re_seat_none s :
  (forall pre opt ds rest, ~ seat_pattern s pre opt ds rest) ->
  exec Scraper.re_seat s = None.
Proof.
  intros Hno. rewrite exec_re_seat_search.
  apply search_none. intros pre suf ->.
  destruct (match_here (atoms Scraper.re_seat) false suf []) as [m|] eqn:E; [|done].
  apply seat_here in E as (opt & rest & -> & Hopt & Hne & Hm).
  exfalso. apply (Hno pre opt m rest). repeat split; auto.
Qed.

(** A string in which the pattern occurs has a first occurrence. *)
Lemma seat_pattern_has_first s pre opt ds rest :
  seat_pattern s pre opt ds rest ->
  exists pre0 opt0 ds0 rest0, first_seat_pattern s pre0 opt0 ds0 rest0.
Proof.
  intros Hp.
  destruct (exec Scraper.re_seat s) as [m|] eqn:E.
  - rewrite exec_re_seat_search in E. apply search_some in E
      as (pre0 & suf & Hs & Hm & Hmin).
    apply seat_here in Hm as (opt0 & rest0 & -> & Hopt & Hne & Hm).
    exists pre0, opt0, m, rest0. split; [repeat split; auto|].
    intros pre' opt' ds' rest' (Hs' & Hopt' & Hne' & Hds').
    destruct (decide (length pre' < length pre0)%nat) as [Hlt|]; [|lia].
    exfalso. specialize (Hmin pre' _ Hs' Hlt).
    assert (Hsome : match_here (atoms Scraper.re_seat) false
                      (opt' ++ ds' ++ c_seki :: rest') [] = Some ds').
    { apply seat_here. exists opt', rest'. auto. }
    congruence.
  - exfalso. rewrite exec_re_seat_search in E.
    pose proof (proj1 (search_none _ _ _) E pre _ (proj1 Hp)) as Hn.
    destruct Hp as (_ & Hopt & Hne & Hds).
    assert (Hsome : match_here (atoms Scraper.re_seat) false
                      (opt ++ ds ++ c_seki :: rest) [] = Some ds).
    { apply seat_here. exists opt, rest. auto. }
    congruence.
Qed.

(** C7. [parseSeatStatus] maps the full markers 満席 and × to 0; maps a
    string in which the pattern "optional 残, digits, 席" occurs to the
    number written by the digits of its first occurrence (for a number in
    the exact integer range), so that 残10席以上 gives 10; and maps a string
    without the pattern to 0. *)
Theorem parseSeatStatus_spec :
  Scraper.parseSeatStatus Scraper.s_manseki = 0
  /\ Scraper.parseSeatStatus Scraper.s_batsu = 0
  /\ (forall s pre opt ds rest,
        first_seat_pattern s pre opt ds rest ->
        safe_integer (digits_value ds) ->
        Scraper.parseSeatStatus s = digits_value ds)
  /\ Scraper.parseSeatStatus [c_zan; 49; 48; c_seki; c_i; c_jou]%N = 10
  /\ (forall s,
        (forall pre opt ds rest, ~ seat_pattern s pre opt ds rest) ->
        Scraper.parseSeatStatus s = 0).
Proof.
  split; [reflexivity|]. split; [reflexivity|]. split; [|split; [reflexivity|]].
  - intros s pre opt ds rest Hfirst _.
    unfold Scraper.parseSeatStatus.
    rewrite (seat_pattern_not_token _ _ _ _ _ (proj1 Hfirst)).
    rewrite (exec_re_seat_first _ _ _ _ _ Hfirst).
    unfold Scraper.parseInt_capture.
    destruct Hfirst as [(_ & _ & Hne & Hds) _].
    by rewrite parseInt_digits.
  - intros s Hno. unfold Scraper.parseSeatStatus.
    rewrite (exec_re_seat_none _ Hno). by destruct (_ || _).
Qed.

Lemma parseSeatStatus_spec_witness :
  first_seat_pattern [c_zan; 51; c_seki]%N [] [c_zan] [51%N] []
  /\ safe_integer (digits_value [51%N])
  /\ Scraper.parseSeatStatus [c_zan; 51; c_seki]%N = 3.
Proof.
  assert (H1 : first_seat_pattern [c_zan; 51; c_seki]%N [] [c_zan] [51%N] []).
  { split.
    - split; [reflexivity|]. split; [by right|]. split; [done|].
      constructor; [reflexivity|constructor].
    - intros. simpl. lia. }
  assert (H2 : safe_integer (digits_value [51%N])).
  { split; vm_compute; discriminate. }
  split; [exact H1|]. split; [exact H2|].
  exact (proj1 (proj2 (proj2 parseSeatStatus_spec)) _ _ _ _ _ H1 H2).
Defined.

End SeatStatus.

(* ===================================================================== *)
(** ** The cadence of the scheduler *)
(* ===================================================================== *)

Section Cadence.
Import Dates Scheduler Spec.

Ltac euclid := Z.div_mod_to_equations; lia.

Section ConstantOffset.

Variable z : Zone.
Variable k : Z.
Hypothesis Hz : constant_offset z k.

Lemma LocalTime_const (d : Z) : LocalTime z d = d + k.
Proof. unfold LocalTime. by rewrite Hz. Qed.

Lemma UTC_const (t : Z) : UTC z t = t - k.
Proof. unfold UTC. by rewrite Hz. Qed.

(** With a constant offset a setter moves the instant by the change of
    the field. *)
Lemma setHours_const (d h : Z) :
  setHours z d h = d + (h - getHours z d) * msPerHour.
Proof.
  unfold setHours, getHours. cbv zeta. rewrite UTC_const, LocalTime_const.
  unfold MakeDate, MakeTime, Day, HourFromTime, MinFromTime, SecFromTime,
    msFromTime, msPerDay, msPerHour, msPerMinute, msPerSecond.
  euclid.
Qed.

Lemma setMinutes_const (d m : Z) :
  setMinutes z d m = d + (m - getMinutes z d) * msPerMinute.
Proof.
  unfold setMinutes, getMinutes. cbv zeta. rewrite UTC_const, LocalTime_const.
  unfold MakeDate, MakeTime, Day, HourFromTime, MinFromTime, SecFromTime,
    msFromTime, msPerDay, msPerHour, msPerMinute, msPerSecond.
  euclid.
Qed.

Lemma setSeconds_const (d sec : Z) :
  setSeconds z d sec = d + (sec - getSeconds z d) * msPerSecond.
Proof.
  unfold setSeconds, getSeconds. cbv zeta. rewrite UTC_const, LocalTime_const.
  unfold MakeDate, MakeTime, Day, HourFromTime, MinFromTime, SecFromTime,
    msFromTime, msPerDay, msPerHour, msPerMinute, msPerSecond.
  euclid.
Qed.

Lemma setMilliseconds_const (d ms : Z) :
  setMilliseconds z d ms = d + (ms - getMilliseconds z d).
Proof.
  unfold setMilliseconds, getMilliseconds. cbv zeta.
  rewrite UTC_const, LocalTime_const.
  unfold MakeDate, MakeTime, Day, HourFromTime, MinFromTime, SecFromTime,
    msFromTime, msPerDay, msPerHour, msPerMinute, msPerSecond.
  euclid.
Qed.

Lemma clear_seconds (d : Z) :
  setMilliseconds z (setSeconds z d 0) 0 = d - (d + k) mod 60000.
Proof.
  rewrite setMilliseconds_const, setSeconds_const.
  unfold getMilliseconds, getSeconds. rewrite !LocalTime_const.
  unfold SecFromTime, msFromTime, msPerSecond.
  euclid.
Qed.

Lemma next_hour_minutes (d : Z) :
  getMinutes z (setHours z d (getHours z d + 1)) = getMinutes z d.
Proof.
  rewrite setHours_const.
  unfold getMinutes, getHours. rewrite !LocalTime_const.
  unfold MinFromTime, HourFromTime, msPerHour, msPerMinute.
  replace (d + (_ + 1 - _) * 3600000 + k) with (d + k + 3600000) by lia.
  euclid.
Qed.

(** The result in closed form: the trigger of the current ten-minute slot
    of local time when it is still ahead, that of the next slot
    otherwise. *)
Lemma getNextScheduledTime_eq (now : Z) :
  getNextScheduledTime z now =
    if (now + k) mod 600000 <? 240000
    then now - (now + k) mod 600000 + 240000
    else now - (now + k) mod 600000 + 840000.
Proof.
  unfold getNextScheduledTime. cbv zeta.
  rewrite clear_seconds.
  set (cm := getMinutes z now).
  set (adv := (4 <=? cm mod 10)
              || ((cm mod 10 =? 4) && (0 <? getSeconds z now))).
  assert (Hadv : adv = (4 <=? cm mod 10)).
  { unfold adv. destruct (4 <=? cm mod 10) eqn:E1; [reflexivity|].
    destruct (cm mod 10 =? 4) eqn:E2; [|reflexivity].
    apply Z.leb_gt in E1. apply Z.eqb_eq in E2. lia. }
  rewrite Hadv. clear Hadv adv.
  assert (Hcm : cm = ((now + k) / 60000) mod 60).
  { unfold cm, getMinutes. by rewrite LocalTime_const. }
  assert (Hh : getHours z now = ((now + k) / 3600000) mod 24).
  { unfold getHours. by rewrite LocalTime_const. }
  destruct (4 <=? cm mod 10) eqn:E1;
    [apply Z.leb_le in E1 | apply Z.leb_gt in E1];
    destruct (60 <=? _) eqn:E2;
    [apply Z.leb_le in E2 | apply Z.leb_gt in E2
    |apply Z.leb_le in E2 | apply Z.leb_gt in E2];
    destruct ((now + k) mod 600000 <? 240000) eqn:E3;
    [apply Z.ltb_lt in E3 | apply Z.ltb_ge in E3
    |apply Z.ltb_lt in E3 | apply Z.ltb_ge in E3
    |apply Z.ltb_lt in E3 | apply Z.ltb_ge in E3
    |apply Z.ltb_lt in E3 | apply Z.ltb_ge in E3];
    rewrite !setMinutes_const, ?next_hour_minutes, ?setHours_const; fold cm;
    rewrite ?Hh; unfold msPerHour, msPerMinute;
    clearbody cm; euclid.
Qed.

Lemma is_trigger_mod (d : Z) : is_trigger z d <-> (d + k) mod 600000 = 240000.
Proof.
  unfold is_trigger, getMinutes, getSeconds, getMilliseconds.
  rewrite LocalTime_const.
  unfold MinFromTime, SecFromTime, msFromTime, msPerMinute, msPerSecond.
  split; [intros (H1 & H2 & H3) | intros H; repeat split]; euclid.
Qed.

End ConstantOffset.

(** C4, as the code has it.  On a host whose time zone has a constant
    offset from UTC, [getNextScheduledTime] is, for every instant, the
    least instant of the form XX:(10k+4):00 of local time strictly after
    it; when the minute is 54 or later the result lies in the next hour
    at minute 4; and at 23:01:00, 23:04:00, 23:07:30, 23:56:00 the
    results are 23:04:00, 23:14:00, 23:14:00 and 00:04:00 of the next
    day. *)
Theorem getNextScheduledTime_spec (z : Zone) (k : Z) :
  constant_offset z k ->
  (forall now,
     is_trigger z (getNextScheduledTime z now)
     /\ now < getNextScheduledTime z now
     /\ forall d, is_trigger z d -> now < d -> getNextScheduledTime z now <= d)
  /\ (forall now, 54 <= getMinutes z now ->
        getMinutes z (getNextScheduledTime z now) = 4
        /\ LocalTime z (getNextScheduledTime z now) / msPerHour
           = LocalTime z now / msPerHour + 1)
  /\ (forall day,
        getNextScheduledTime z (UTC z (clock day 23 1 0))
        = UTC z (clock day 23 4 0)
        /\ getNextScheduledTime z (UTC z (clock day 23 4 0))
           = UTC z (clock day 23 14 0)
        /\ getNextScheduledTime z (UTC z (clock day 23 7 30))
           = UTC z (clock day 23 14 0)
        /\ getNextScheduledTime z (UTC z (clock day 23 56 0))
           = UTC z (clock (day + 1) 0 4 0)).
Proof.
  intros Hz. split; [|split].
  - intros now. rewrite (getNextScheduledTime_eq z k Hz).
    split; [|split].
    + apply (is_trigger_mod z k Hz). destruct (_ <? _); euclid.
    + destruct ((now + k) mod 600000 <? 240000) eqn:E;
        [apply Z.ltb_lt in E | apply Z.ltb_ge in E]; euclid.
    + intros d Hd Hlt. apply (is_trigger_mod z k Hz) in Hd.
      destruct ((now + k) mod 600000 <? 240000) eqn:E;
        [apply Z.ltb_lt in E | apply Z.ltb_ge in E]; euclid.
  - intros now H54. rewrite (getNextScheduledTime_eq z k Hz).
    unfold getMinutes in *. rewrite !(LocalTime_const z k Hz) in *.
    unfold MinFromTime, msPerMinute, msPerHour in *.
    destruct ((now + k) mod 600000 <? 240000) eqn:E;
      [apply Z.ltb_lt in E | apply Z.ltb_ge in E]; euclid.
  - intros day. rewrite !(getNextScheduledTime_eq z k Hz).
    rewrite !(UTC_const z k Hz). unfold clock.
    repeat split;
      match goal with
      | |- context [?a mod 600000 <? 240000] =>
          destruct (a mod 600000 <? 240000) eqn:E;
            [apply Z.ltb_lt in E | apply Z.ltb_ge in E]; euclid
      end.
Qed.

Lemma jst_constant : constant_offset Samples.jst (9 * 3600000).
Proof. intros t isUTC. reflexivity. Qed.

Lemma getNextScheduledTime_spec_witness :
  constant_offset Samples.jst (9 * 3600000)
  /\ is_trigger Samples.jst (UTC Samples.jst (clock 0 23 14 0))
  /\ UTC Samples.jst (clock 0 23 7 30) < UTC Samples.jst (clock 0 23 14 0)
  /\ 54 <= getMinutes Samples.jst (UTC Samples.jst (clock 0 23 56 0))
  /\ getNextScheduledTime Samples.jst (UTC Samples.jst (clock 0 23 7 30))
     <= UTC Samples.jst (clock 0 23 14 0)
  /\ getMinutes Samples.jst
       (getNextScheduledTime Samples.jst (UTC Samples.jst (clock 0 23 56 0))) = 4.
Proof.
  assert (H1 : is_trigger Samples.jst (UTC Samples.jst (clock 0 23 14 0)))
    by (repeat split).
  assert (H2 : UTC Samples.jst (clock 0 23 7 30) < UTC Samples.jst (clock 0 23 14 0))
    by reflexivity.
  assert (H3 : 54 <= getMinutes Samples.jst (UTC Samples.jst (clock 0 23 56 0)))
    by (vm_compute; discriminate).
  split; [exact jst_constant|].
  split; [exact H1|]. split; [exact H2|]. split; [exact H3|]. split.
  - exact (proj2 (proj2 (proj1 (getNextScheduledTime_spec _ _ jst_constant)
                           (UTC Samples.jst (clock 0 23 7 30)))) _ H1 H2).
  - exact (proj1 (proj1 (proj2 (getNextScheduledTime_spec _ _ jst_constant))
                    (UTC Samples.jst (clock 0 23 56 0)) H3)).
Defined.

(** Where the offset of the zone changes the result need not be the
    least such instant.  At 01:56 Eastern Daylight Time on 2026-11-01,
    four minutes before the clocks go back to 01:00, the result is 02:04
    Eastern Standard Time, 68 minutes later, although 01:04 Eastern
    Standard Time comes 8 minutes after the call. *)
Lemma fall_back_skips_triggers :
  getHours Samples.eastern Samples.before_fall_back = 1
  /\ getMinutes Samples.eastern Samples.before_fall_back = 56
  /\ getNextScheduledTime Samples.eastern Samples.before_fall_back
     = Samples.before_fall_back + 68 * 60000
  /\ is_trigger Samples.eastern (Samples.before_fall_back + 8 * 60000)
  /\ ~ (forall d, is_trigger Samples.eastern d -> Samples.before_fall_back < d ->
          getNextScheduledTime Samples.eastern Samples.before_fall_back <= d).
Proof.
  assert (Hr : getNextScheduledTime Samples.eastern Samples.before_fall_back
               = Samples.before_fall_back + 68 * 60000)
    by (vm_compute; reflexivity).
  assert (Ht : is_trigger Samples.eastern (Samples.before_fall_back + 8 * 60000))
    by (repeat split).
  split; [vm_compute; reflexivity|]. split; [vm_compute; reflexivity|].
  split; [exact Hr|]. split; [exact Ht|].
  intros Hleast. specialize (Hleast _ Ht). rewrite Hr in Hleast.
  unfold Samples.before_fall_back in Hleast. lia.
Qed.

End Cadence.

(* ===================================================================== *)
(** ** Retry with back-off *)
(* ===================================================================== *)

Section Retry.
Import JS Types Upstream Proc Spec.

Variable env : Env.
Variable c : jsstring.
Variable maxRetries : Z.

Lemma scrapeVacancy_run (w : World) :
  Scraper.scrapeVacancy env c w
  = (attempt_outcome env c (rendered_calls w), after_attempt env c w).
Proof.
  unfold Scraper.scrapeVacancy, bind, browse, lift, ret, attempt_outcome,
    after_attempt.
  destruct (result (page_load env (rendered_calls w) c)) as [e|p]; [reflexivity|].
  destruct (Scraper.vacancy_of_page p); reflexivity.
Qed.

Lemma retry_loop_ok (r : nat) (attempt : Z) (last : option Error) (w : World) v :
  attempt_outcome env c (rendered_calls w) = inr v ->
  Scraper.retry_loop env c maxRetries (S r) attempt last w
  = (inr v, after_attempt env c w).
Proof.
  intros H. simpl. unfold try_catch. by rewrite scrapeVacancy_run, H.
Qed.

Lemma retry_loop_fail (r : nat) (attempt : Z) (last : option Error) (w : World) e :
  attempt_outcome env c (rendered_calls w) = inl e ->
  Scraper.retry_loop env c maxRetries (S r) attempt last w
  = Scraper.retry_loop env c maxRetries r (attempt + 1) (Some e)
      (if attempt <? maxRetries
       then tick (2 ^ attempt * 1000)
              (log (EvSleep (2 ^ attempt * 1000)) (after_attempt env c w))
       else after_attempt env c w).
Proof.
  intros H. simpl. unfold try_catch. rewrite scrapeVacancy_run, H.
  unfold bind. by destruct (attempt <? maxRetries).
Qed.

(** A run that fails [k] times and then succeeds. *)
Lemma retry_loop_success (k : nat) :
  forall (remaining : nat) (attempt : Z) (last : option Error) (w : World) v,
    (k < remaining)%nat ->
    attempt + Z.of_nat remaining = maxRetries + 1 ->
    (forall i, (i < k)%nat ->
       exists e, attempt_outcome env c (rendered_calls w + i) = inl e) ->
    attempt_outcome env c (rendered_calls w + k) = inr v ->
    exists w',
      Scraper.retry_loop env c maxRetries remaining attempt last w = (inr v, w')
      /\ trace w' = trace w ++ retry_trace c attempt k
      /\ rendered_calls w' = (rendered_calls w + k + 1)%nat
      /\ now w' = now w + retry_elapsed env c (rendered_calls w) attempt k
      /\ cacheService w' = cacheService w.
Proof.
  induction k as [|k IH]; intros remaining attempt last w v Hlt Hrem Hfail Hok.
  - destruct remaining as [|r]; [lia|].
    rewrite Nat.add_0_r in Hok. rewrite (retry_loop_ok _ _ _ _ _ Hok).
    eexists. split; [reflexivity|]. simpl. repeat split. lia.
  - destruct remaining as [|r]; [lia|].
    destruct (Hfail 0%nat) as [e He]; [lia|]. rewrite Nat.add_0_r in He.
    rewrite (retry_loop_fail _ _ _ _ _ He).
    assert (Hlt' : (attempt <? maxRetries) = true) by (apply Z.ltb_lt; lia).
    rewrite Hlt'.
    set (w1 := tick _ _).
    destruct (IH r (attempt + 1) (Some e) w1 v) as (w' & Hrun & Htr & Hrc & Hnow & Hcs).
    + lia.
    + lia.
    + intros i Hi. destruct (Hfail (S i)) as [e' He']; [lia|].
      exists e'. simpl. rewrite <- He'. f_equal. lia.
    + simpl. rewrite <- Hok. f_equal. lia.
    + exists w'. split; [exact Hrun|].
      rewrite Htr, Hrc, Hnow, Hcs. simpl.
      repeat split; [by rewrite <- !app_assoc | lia | lia].
Qed.

(** A run in which every attempt fails. *)
Lemma retry_loop_exhausted (r : nat) :
  forall (attempt : Z) (last : option Error) (w : World) e,
    attempt + Z.of_nat (S r) = maxRetries + 1 ->
    (forall i, (i < r)%nat ->
       exists e', attempt_outcome env c (rendered_calls w + i) = inl e') ->
    attempt_outcome env c (rendered_calls w + r) = inl e ->
    exists w',
      Scraper.retry_loop env c maxRetries (S r) attempt last w = (inl e, w')
      /\ trace w' = trace w ++ retry_trace c attempt r
      /\ rendered_calls w' = (rendered_calls w + r + 1)%nat
      /\ now w' = now w + retry_elapsed env c (rendered_calls w) attempt r
      /\ cacheService w' = cacheService w.
Proof.
  induction r as [|r IH]; intros attempt last w e Hrem Hfail Hlast.
  - rewrite Nat.add_0_r in Hlast. rewrite (retry_loop_fail _ _ _ _ _ Hlast).
    assert (Hge : (attempt <? maxRetries) = false) by (apply Z.ltb_ge; lia).
    rewrite Hge. simpl. unfold throw. eexists. split; [reflexivity|].
    simpl. repeat split. lia.
  - destruct (Hfail 0%nat) as [e0 He0]; [lia|]. rewrite Nat.add_0_r in He0.
    rewrite (retry_loop_fail _ _ _ _ _ He0).
    assert (Hlt' : (attempt <? maxRetries) = true) by (apply Z.ltb_lt; lia).
    rewrite Hlt'.
    set (w1 := tick _ _).
    destruct (IH (attempt + 1) (Some e0) w1 e) as (w' & Hrun & Htr & Hrc & Hnow & Hcs).
    + lia.
    + intros i Hi. destruct (Hfail (S i)) as [e' He']; [lia|].
      exists e'. simpl. rewrite <- He'. f_equal. lia.
    + simpl. rewrite <- Hlast. f_equal. lia.
    + exists w'. split; [exact Hrun|].
      rewrite Htr, Hrc, Hnow, Hcs. simpl.
      repeat split; [by rewrite <- !app_assoc | lia | lia].
Qed.

End Retry.

Section RetrySpec.
Import JS Types Upstream Proc Spec.


(** C10. For [maxRetries < 1], [scrapeWithRetry] makes no attempt, leaves
    the world as it is and throws the fixed error. *)
Theorem scrapeWithRetry_no_attempt (env : Env) (c : jsstring) (maxRetries : Z)
    (w : World) :
  maxRetries < 1 ->
  Scraper.scrapeWithRetry env c maxRetries w = (inl AllRetriesFailed, w)
  /\ message AllRetriesFailed
     = Some "Failed to fetch vacancy data after all retries"%string.
Proof.
  intros H. unfold Scraper.scrapeWithRetry.
  replace (Z.to_nat maxRetries) with 0%nat by lia. split; reflexivity.
Qed.


Lemma scrapeWithRetry_no_attempt_witness :
  0 < 1
  /\ Scraper.scrapeWithRetry Samples.flaky Samples.store 0 (Samples.world_at 0)
     = (inl AllRetriesFailed, Samples.world_at 0).
Proof.
  assert (H : 0 < 1) by lia.
  split; [exact H|].
  exact (proj1 (scrapeWithRetry_no_attempt Samples.flaky Samples.store 0
                  (Samples.world_at 0) H)).
Defined.

End RetrySpec.

(* ===================================================================== *)
(** ** Normalisation of the upstream payloads *)
(* ===================================================================== *)

Section Normalizer.
Import JS Types Upstream Proc Spec.

(** A selection that reads "3台" gives 3 of 3. *)
Example extractDartVacancy_plain_form :
  Scraper.extractDartVacancy (html Samples.page_3)
  = {| available := 3; total := 3; status := vacant |}.
Proof. reflexivity. Qed.

Lemma determineStatus_no_total (a : Z) : Scraper.determineStatus a 0 = unknown.
Proof. reflexivity. Qed.

Example determineStatus_samples :
  Scraper.determineStatus 0 8 = full /\ Scraper.determineStatus 2 8 = crowded
  /\ Scraper.determineStatus 5 8 = vacant.
Proof. repeat split. Qed.

Lemma scan_selectors_status doc sels dv :
  Scraper.scan_selectors doc sels = Some dv ->
  status dv = Scraper.determineStatus (available dv) (total dv).
Proof.
  induction sels as [|sel sels IH]; simpl; [discriminate|].
  destruct (select_text doc sel) as [text|]; [|exact IH].
  unfold Scraper.parse_selection.
  destruct (exec Scraper.re_available text); [|exact IH].
  by intros [= <-].
Qed.

Lemma scan_rows_status rs dv :
  Scraper.scan_rows rs = Some dv ->
  status dv = Scraper.determineStatus (available dv) (total dv).
Proof.
  induction rs as [|r rs IH]; simpl; [discriminate|].
  destruct (_ || _); [|exact IH].
  destruct (exec Scraper.re_available r); [|exact IH].
  by intros [= <-].
Qed.

(** The rendered-document parse always derives the status from the
    counts. *)
Lemma extractDartVacancy_status doc :
  status (Scraper.extractDartVacancy doc)
  = Scraper.determineStatus (available (Scraper.extractDartVacancy doc))
      (total (Scraper.extractDartVacancy doc)).
Proof.
  unfold Scraper.extractDartVacancy.
  destruct (Scraper.scan_selectors doc Scraper.selectors) as [dv|] eqn:E1.
  { by apply scan_selectors_status in E1. }
  destruct (Scraper.scan_rows (rows doc)) as [dv|] eqn:E2.
  { by apply scan_rows_status in E2. }
  reflexivity.
Qed.

(** [/(\d+)[\s]*[台]/] at the start of [s]: the digits, any white space,
    then 台. *)
Lemma avail_here (s : jsstring) :
  match_here (atoms Scraper.re_available) false s [] =
    match run is_digit s with
    | [] => None
    | d :: ds =>
        match after is_space (after is_digit s) with
        | c' :: _ => if is_char c_dai c' then Some (d :: ds) else None
        | [] => None
        end
    end.
Proof.
  destruct s as [|c s]; [reflexivity|].
  cbn [Scraper.re_available atoms match_here qt cls grp run].
  destruct (is_digit c) eqn:Hc; [|reflexivity].
  rewrite greedy_maximal.
  2:{ intros taken c' rest Hc'. cbn [match_here qt cls grp greedy].
      rewrite (digit_not_space _ Hc'). cbn [match_here qt cls grp].
      by rewrite (digit_not_char c_dai c' eq_refl Hc'). }
  cbn [match_here qt cls grp]. rewrite greedy_maximal.
  2:{ intros taken c' rest Hc'. cbn [match_here qt cls grp].
      destruct (is_char c_dai c') eqn:E; [|reflexivity].
      apply is_char_eq in E. subst c'. discriminate Hc'. }
  cbn [match_here qt cls grp add_cap app after]. rewrite Hc.
  destruct (after is_space (after is_digit s)) as [|c' r]; [reflexivity|].
  reflexivity.
Qed.

(** [/\/[\s]*(\d+)[\s]*台/] at the start of [s]: a slash, any white
    space, then the pattern above. *)
Lemma slash_here (s : jsstring) :
  match_here (atoms Scraper.re_total_slash) false s [] =
    match s with
    | c :: s' =>
        if is_char 47%N c
        then match_here (atoms Scraper.re_available) false (after is_space s') []
        else None
    | [] => None
    end.
Proof.
  destruct s as [|c s]; [reflexivity|].
  cbn [Scraper.re_total_slash atoms match_here qt cls grp].
  destruct (is_char 47%N c); [|reflexivity].
  rewrite greedy_maximal; [reflexivity|].
  intros taken c' rest Hc'. cbn [match_here qt cls grp add_cap].
  destruct (is_digit c') eqn:E; [|reflexivity].
  apply digit_not_space in E. congruence.
Qed.

Lemma search_skip r e c s :
  match_here r e (c :: s) [] = None -> search r e (c :: s) = search r e s.
Proof. intros H. simpl. by rewrite H. Qed.

(** For every pair of counts, a selection that reads "N / M台" is parsed
    as M available of M. *)
Lemma parse_selection_slash (n m : jsstring) :
  n <> [] -> m <> [] -> all_digits n -> all_digits m ->
  Scraper.parse_selection (n ++ [32; 47; 32]%N ++ m ++ [c_dai])
  = Some {| available := digits_value m; total := digits_value m;
            status := Scraper.determineStatus (digits_value m) (digits_value m) |}.
Proof.
  intros Hn Hm Hdn Hdm.
  assert (Hrun : run is_digit (m ++ [c_dai]) = m
                 /\ after is_digit (m ++ [c_dai]) = [c_dai]).
  { by apply run_app_stop. }
  destruct Hrun as [Hrm Ham].
  assert (Hend : match_here (atoms Scraper.re_available) false (m ++ [c_dai]) []
                 = Some m).
  { rewrite avail_here, Hrm, Ham. by destruct m. }
  set (t := ([32; 47; 32]%N ++ m ++ [c_dai])).
  assert (Ha : forall n2, all_digits n2 ->
            search (atoms Scraper.re_available) false (n2 ++ t) = Some m).
  { intros n2 Hd2. induction Hd2 as [|d n2 Hd Hd2 IH].
    - unfold t. cbn [app].
      rewrite search_skip by (by rewrite avail_here).
      rewrite search_skip by (by rewrite avail_here).
      rewrite search_skip by (by rewrite avail_here).
      destruct m as [|d0 m']; [done|]. cbn [app search] in *. by rewrite Hend.
    - cbn [app]. rewrite search_skip; [exact IH|].
      rewrite avail_here.
      destruct (run_app_stop is_digit (d :: n2) 32%N (47 :: 32 :: m ++ [c_dai])%N)
        as [H1 H2]; [by constructor|reflexivity|].
      change ((d :: n2) ++ 32%N :: (47 :: 32 :: m ++ [c_dai])%N)
        with (d :: n2 ++ t) in H1, H2.
      rewrite H1, H2. reflexivity. }
  assert (Hs : forall n2, all_digits n2 ->
            search (atoms Scraper.re_total_slash) false (n2 ++ t) = Some m).
  { intros n2 Hd2. induction Hd2 as [|d n2 Hd Hd2 IH].
    - unfold t. cbn [app].
      rewrite search_skip by (by rewrite slash_here).
      cbn [search]. rewrite slash_here.
      change (is_char 47%N 47%N) with true. cbv iota.
      assert (Hsp : after is_space (32%N :: m ++ [c_dai]) = m ++ [c_dai]).
      { destruct m as [|d0 m']; [done|]. inversion Hdm as [|? ? Hd0 _]; subst.
        cbn [app after]. change (is_space 32) with true. cbv iota.
        by rewrite (digit_not_space _ Hd0). }
      by rewrite Hsp, Hend.
    - cbn [app]. rewrite search_skip; [exact IH|].
      rewrite slash_here. destruct (is_char 47%N d) eqn:E; [|reflexivity].
      apply is_char_eq in E. subst d. discriminate Hd. }
  unfold Scraper.parse_selection. fold t.
  change (exec Scraper.re_available (n ++ t))
    with (search (atoms Scraper.re_available) false (n ++ t)).
  change (exec Scraper.re_total_slash (n ++ t))
    with (search (atoms Scraper.re_total_slash) false (n ++ t)).
  rewrite (Ha n Hdn), (Hs n Hdn).
  unfold Scraper.parseInt_capture. by rewrite parseInt_digits.
Qed.

Lemma search_hit r e s m :
  match_here r e s [] = Some m -> search r e s = Some m.
Proof. intros H. destruct s; simpl; by rewrite H. Qed.

Lemma search_needs_char x g r s :
  x ∉ s -> search (Atom (is_char x) One g :: r) false s = None.
Proof.
  induction s as [|c s IH]; intros Hx; [reflexivity|].
  apply not_elem_of_cons in Hx as [Hne Hx].
  rewrite search_skip; [by apply IH|].
  cbn [match_here qt cls]. destruct (is_char x c) eqn:E; [|reflexivity].
  apply is_char_eq in E. congruence.
Qed.

(** A selection that reads "N台" is parsed as N available of N. *)
Lemma parse_selection_plain (n : jsstring) :
  n <> [] -> all_digits n ->
  Scraper.parse_selection (n ++ [c_dai])
  = Some {| available := digits_value n; total := digits_value n;
            status := Scraper.determineStatus (digits_value n) (digits_value n) |}.
Proof.
  intros Hn Hdn.
  destruct (run_app_stop is_digit n c_dai [] Hdn eq_refl) as [Hrn Han].
  assert (Ha : exec Scraper.re_available (n ++ [c_dai]) = Some n).
  { change (search (atoms Scraper.re_available) false (n ++ [c_dai]) = Some n).
    assert (Hh : match_here (atoms Scraper.re_available) false (n ++ [c_dai]) []
                 = Some n).
    { rewrite avail_here, Hrn, Han. by destruct n. }
    by apply search_hit. }
  assert (Hnot : forall x, is_digit x = false -> x <> c_dai -> x ∉ n ++ [c_dai]).
  { intros x Hx Hne Hin. apply elem_of_app in Hin as [Hin|Hin].
    - unfold all_digits in Hdn. rewrite Forall_forall in Hdn.
      apply Hdn in Hin. congruence.
    - apply list_elem_of_singleton in Hin. done. }
  assert (Hs : exec Scraper.re_total_slash (n ++ [c_dai]) = None).
  { apply search_needs_char. by apply Hnot. }
  assert (Hz : exec Scraper.re_total_zen (n ++ [c_dai]) = None).
  { apply search_needs_char. by apply Hnot. }
  unfold Scraper.parse_selection. rewrite Ha, Hs, Hz.
  unfold Scraper.parseInt_capture. by rewrite parseInt_digits.
Qed.

Lemma scan_selectors_first doc sels text dv :
  first_selection_in doc sels = Some text ->
  Scraper.parse_selection text = Some dv ->
  Scraper.scan_selectors doc sels = Some dv.
Proof.
  intros Hf Hp. induction sels as [|sel sels IH]; [discriminate|].
  simpl in *. destruct (select_text doc sel) as [t|].
  - injection Hf as ->. by rewrite Hp.
  - by apply IH.
Qed.

(** C6.  When the first matching selector candidate reads "N / M台", the
    rendered-document parse returns M available of M (the pattern for the
    available count first matches at "M台", because N is followed by " /"
    and not by 台); for "3 / 8台" it returns 8 of 8 and not 3 of 8.  When
    it reads "N台" the parse returns N of N.  The status is the one that
    [determineStatus] gives the counts returned.  The counts are taken in
    the exact integer range. *)
Theorem extractDartVacancy_slash_form :
  (Scraper.extractDartVacancy Samples.doc_3_of_8
   = {| available := 8; total := 8; status := vacant |}
   /\ Scraper.extractDartVacancy Samples.doc_3_of_8
      <> {| available := 3; total := 8; status := Scraper.determineStatus 3 8 |})
  /\ (forall doc n m,
        n <> [] -> m <> [] -> all_digits n -> all_digits m ->
        safe_integer (digits_value m) ->
        first_selection doc = Some (n ++ [32; 47; 32]%N ++ m ++ [c_dai]) ->
        Scraper.extractDartVacancy doc
        = {| available := digits_value m; total := digits_value m;
             status := Scraper.determineStatus (digits_value m) (digits_value m) |})
  /\ (forall doc n,
        n <> [] -> all_digits n ->
        safe_integer (digits_value n) ->
        first_selection doc = Some (n ++ [c_dai]) ->
        Scraper.extractDartVacancy doc
        = {| available := digits_value n; total := digits_value n;
             status := Scraper.determineStatus (digits_value n) (digits_value n) |}).
Proof.
  split; [split; [reflexivity|discriminate]|]. split.
  - intros doc n m Hn Hm Hdn Hdm _ Hf. unfold Scraper.extractDartVacancy.
    by rewrite (scan_selectors_first _ _ _ _ Hf (parse_selection_slash n m Hn Hm Hdn Hdm)).
  - intros doc n Hn Hdn _ Hf. unfold Scraper.extractDartVacancy.
    by rewrite (scan_selectors_first _ _ _ _ Hf (parse_selection_plain n Hn Hdn)).
Qed.

Lemma extractDartVacancy_slash_form_witness :
  first_selection Samples.doc_3_of_8 = Some ([51%N] ++ [32; 47; 32]%N ++ [56%N] ++ [c_dai])
  /\ Scraper.extractDartVacancy Samples.doc_3_of_8
     = {| available := digits_value [56%N]; total := digits_value [56%N];
          status := Scraper.determineStatus (digits_value [56%N]) (digits_value [56%N]) |}.
Proof.
  assert (Hd3 : all_digits [51%N]) by (constructor; [reflexivity|constructor]).
  assert (Hd8 : all_digits [56%N]) by (constructor; [reflexivity|constructor]).
  assert (H3 : [51%N] <> []) by discriminate.
  assert (H8 : [56%N] <> []) by discriminate.
  assert (Hs8 : safe_integer (digits_value [56%N]))
    by (split; vm_compute; discriminate).
  split; [reflexivity|].
  exact (proj1 (proj2 extractDartVacancy_slash_form) Samples.doc_3_of_8
           [51%N] [56%N] H3 H8 Hd3 Hd8 Hs8 eq_refl).
Defined.

Lemma parseSeatStatus_nonneg st : 0 <= Scraper.parseSeatStatus st.
Proof.
  unfold Scraper.parseSeatStatus. destruct (_ || _); [done|].
  destruct (exec Scraper.re_seat st) as [m|] eqn:E; [|done].
  rewrite exec_re_seat_search in E.
  apply search_some in E as (pre & suf & _ & Hm & _).
  apply seat_here in Hm as (opt & rest & _ & _ & Hne & Hds).
  unfold Scraper.parseInt_capture. rewrite parseInt_digits by done.
  by apply digits_value_nonneg.
Qed.

(** What the structured parse makes of a payload. *)
Lemma dartVacancy_of_payload_inv d dv :
  Scraper.dartVacancy_of_payload d = inr dv ->
  (seat_type d ≫= List.find Scraper.is_dart = None /\ dv = Scraper.unknown_vacancy)
  \/ (exists seat st,
        seat_type d ≫= List.find Scraper.is_dart = Some seat
        /\ seat_status seat = Some st
        /\ available dv = Scraper.parseSeatStatus st
        /\ total dv = available dv
        /\ status dv = Scraper.mapStatusNo (parseInt (status_no seat))).
Proof.
  unfold Scraper.dartVacancy_of_payload.
  destruct (seat_type d ≫= List.find Scraper.is_dart) as [seat|]; [|].
  - destruct (seat_status seat) as [st|] eqn:Est; [|discriminate].
    intros [= <-]. right. exists seat, st. simpl. repeat split; try done.
    pose proof (parseSeatStatus_nonneg st) as Hnn.
    destruct (0 <? Scraper.parseSeatStatus st) eqn:E; [done|].
    apply Z.ltb_ge in E. lia.
  - intros [= <-]. by left.
Qed.

Lemma fetchVacancyFromAPI_inv env c w v w' :
  Scraper.fetchVacancyFromAPI env c w = (inr v, w') ->
  exists d, result (axios_get env (direct_calls w) c) = inr d
    /\ api_status d = 0
    /\ Scraper.dartVacancy_of_payload d = inr (dartVacancy v).
Proof.
  unfold Scraper.fetchVacancyFromAPI, bind, http_get, lift, ret, throw.
  destruct (result (axios_get env (direct_calls w) c)) as [e|d]; [discriminate|].
  destruct (api_status d =? 0) eqn:Est; simpl; [|discriminate].
  destruct (Scraper.dartVacancy_of_payload d) as [e|dv] eqn:Ed; [discriminate|].
  intros [= <- _]. exists d. apply Z.eqb_eq in Est. by repeat split.
Qed.

Lemma vacancy_of_page_cases p :
  Scraper.vacancy_of_page p =
    match captured_payload p with
    | Some d => Scraper.dartVacancy_of_payload d
    | None => inr (Scraper.extractDartVacancy (html p))
    end.
Proof.
  unfold Scraper.vacancy_of_page, captured_payload.
  destruct (List.find _ _) as [[u [d|]]|]; reflexivity.
Qed.

Lemma scrapeVacancy_inv env c w v w' :
  Scraper.scrapeVacancy env c w = (inr v, w') ->
  exists p, result (page_load env (rendered_calls w) c) = inr p
    /\ ((exists d, captured_payload p = Some d
                  /\ Scraper.dartVacancy_of_payload d = inr (dartVacancy v))
        \/ (captured_payload p = None
            /\ dartVacancy v = Scraper.extractDartVacancy (html p))).
Proof.
  rewrite scrapeVacancy_run. unfold attempt_outcome.
  destruct (result (page_load env (rendered_calls w) c)) as [e|p]; [discriminate|].
  rewrite vacancy_of_page_cases.
  destruct (captured_payload p) as [d|] eqn:Ecap.
  - destruct (Scraper.dartVacancy_of_payload d) as [e|dv] eqn:Ed; [discriminate|].
    intros [= <- _]. exists p. split; [done|]. left. exists d. auto.
  - intros [= <- _]. exists p. split; [done|]. by right.
Qed.

(** The status that goes with each upstream status code. *)
Lemma mapStatusNo_table (o : option Z) :
  (o = Some 1 -> Scraper.mapStatusNo o = vacant)
  /\ (o = Some 2 \/ o = Some 3 -> Scraper.mapStatusNo o = crowded)
  /\ (o = Some 4 -> Scraper.mapStatusNo o = full)
  /\ ((forall n, o = Some n -> n < 1 \/ 4 < n) -> Scraper.mapStatusNo o = unknown).
Proof.
  split; [by intros ->|]. split; [by intros [-> | ->]|].
  split; [by intros ->|].
  intros H. destruct o as [n|]; [|reflexivity].
  specialize (H n eq_refl).
  destruct n as [|q|q]; [reflexivity| |reflexivity].
  destruct q as [[[q|q|]|[q|q|]|]|[[q|q|]|[q|q|]|]|]; try reflexivity; lia.
Qed.

(** C1, as the code has it.  A record of the rendered-document parse has
    the status that [determineStatus] gives its counts, hence [unknown]
    when the total is 0.  A record made from a structured payload, on the
    direct channel or from a response captured during a rendered fetch,
    is 0/0/unknown when the dart category is absent; when it is present
    the total equals the available count and the status is the one
    mapped from the upstream status code, whatever the counts are:
    [vacant] for code 1, [crowded] for codes 2 and 3, [full] for code 4,
    and [unknown] when the code is not a number or is none of these. *)
Theorem availability_by_path :
  (forall doc,
     status (Scraper.extractDartVacancy doc)
     = Scraper.determineStatus (available (Scraper.extractDartVacancy doc))
         (total (Scraper.extractDartVacancy doc))
     /\ availability_invariant (Scraper.extractDartVacancy doc))
  /\ (forall d dv,
       Scraper.dartVacancy_of_payload d = inr dv ->
       (seat_type d ≫= List.find Scraper.is_dart = None
        /\ dv = {| available := 0; total := 0; status := unknown |})
       \/ (exists seat st,
             seat_type d ≫= List.find Scraper.is_dart = Some seat
             /\ seat_status seat = Some st
             /\ available dv = Scraper.parseSeatStatus st
             /\ total dv = available dv
             /\ status dv = Scraper.mapStatusNo (parseInt (status_no seat))
             /\ (parseInt (status_no seat) = Some 1 -> status dv = vacant)
             /\ (parseInt (status_no seat) = Some 2
                 \/ parseInt (status_no seat) = Some 3 -> status dv = crowded)
             /\ (parseInt (status_no seat) = Some 4 -> status dv = full)
             /\ ((forall n, parseInt (status_no seat) = Some n -> n < 1 \/ 4 < n) ->
                 status dv = unknown)))
  /\ (forall env c w v w',
       Scraper.fetchVacancyFromAPI env c w = (inr v, w') ->
       exists d, result (axios_get env (direct_calls w) c) = inr d
         /\ api_status d = 0
         /\ Scraper.dartVacancy_of_payload d = inr (dartVacancy v))
  /\ (forall env c w v w',
       Scraper.scrapeVacancy env c w = (inr v, w') ->
       exists p, result (page_load env (rendered_calls w) c) = inr p
         /\ ((exists d, captured_payload p = Some d
                 /\ Scraper.dartVacancy_of_payload d = inr (dartVacancy v))
             \/ (captured_payload p = None
                 /\ dartVacancy v = Scraper.extractDartVacancy (html p)))).
Proof.
  split; [|split; [|split]].
  - intros doc. split; [apply extractDartVacancy_status|].
    intros H0. rewrite extractDartVacancy_status, H0. reflexivity.
  - intros d dv Hdv.
    destruct (dartVacancy_of_payload_inv d dv Hdv)
      as [Hnone | (seat & st & H1 & H2 & H3 & H4 & H5)]; [by left|].
    right. exists seat, st.
    split; [exact H1|]. split; [exact H2|]. split; [exact H3|].
    split; [exact H4|]. split; [exact H5|].
    rewrite H5. apply mapStatusNo_table.
  - exact fetchVacancyFromAPI_inv.
  - exact scrapeVacancy_inv.
Qed.

Lemma availability_by_path_witness :
  Scraper.dartVacancy_of_payload Samples.full_payload
    = inr {| available := 0; total := 0; status := full |}
  /\ status {| available := 0; total := 0; status := full |} = full.
Proof.
  assert (H : Scraper.dartVacancy_of_payload Samples.full_payload
              = inr {| available := 0; total := 0; status := full |})
    by reflexivity.
  split; [exact H|].
  destruct (proj1 (proj2 availability_by_path) _ _ H)
    as [[Hnone _] | (seat & st & H1 & _ & _ & _ & _ & _ & _ & H8 & _)].
  - discriminate Hnone.
  - apply H8. vm_compute in H1. injection H1 as <-. reflexivity.
Defined.

(** The structured endpoint reports a full dart corner as 満席 with status
    code 4; the record of the direct channel then has total 0 and status
    [full], against the invariant. *)
Lemma full_store_breaks_invariant :
  exists v w',
    Scraper.fetchVacancyFromAPI Samples.direct_full Samples.store (Samples.world_at 0)
      = (inr v, w')
    /\ dartVacancy v = {| available := 0; total := 0; status := full |}
    /\ ~ availability_invariant (dartVacancy v).
Proof.
  eexists _, _. split; [reflexivity|]. split; [reflexivity|].
  unfold availability_invariant. simpl. intros H. specialize (H eq_refl).
  discriminate H.
Qed.

End Normalizer.

(* ===================================================================== *)
(** ** The TTL cache *)
(* ===================================================================== *)

Section CacheReads.
Import JS Types Spec.

(** What the three reads return, in terms of the stored entry. *)
Lemma get_fst (s : Cache.CacheService) (k : jsstring) (t : Z) :
  (Cache.get t k s).1 =
    match Cache.data (Cache.cache s) !! k with
    | Some e => if Cache.stale t e then None else Some (Cache.v e)
    | None => None
    end.
Proof.
  unfold Cache.get, Cache.nc_get, Cache.nc_check.
  destruct (Cache.data (Cache.cache s) !! k) as [e|]; [|reflexivity].
  by destruct (Cache.stale t e).
Qed.

Lemma has_fst (s : Cache.CacheService) (k : jsstring) (t : Z) :
  (Cache.has t k s).1 =
    match Cache.data (Cache.cache s) !! k with
    | Some e => negb (Cache.stale t e)
    | None => false
    end.
Proof.
  unfold Cache.has, Cache.nc_has, Cache.nc_check.
  destruct (Cache.data (Cache.cache s) !! k) as [e|]; [|reflexivity].
  by destruct (Cache.stale t e).
Qed.

Lemma getCacheAge_fst (s : Cache.CacheService) (k : jsstring) (t : Z) :
  (Cache.getCacheAge t k s).1 =
    match Cache.data (Cache.cache s) !! k with
    | Some e =>
        if bool_decide (k = []) || Cache.stale t e then None
        else if Cache.t e =? 0 then None
        else Some (Cache.ttl s - (Cache.t e - t) / 1000)
    | None => None
    end.
Proof.
  unfold Cache.getCacheAge, Cache.nc_getTtl, Cache.nc_check.
  destruct k as [|c k'].
  - by destruct (_ !! _).
  - destruct (_ !! _) as [e|]; [|reflexivity].
    simpl. by destruct (Cache.stale t e).
Qed.

Lemma set_lookup (s : Cache.CacheService) (k : jsstring) (v : VacancyData) (t0 : Z) :
  Cache.data (Cache.cache (Cache.set t0 k v s).2) !! k
  = Some (Cache.mkEntry (Cache.livetime t0 (Cache.stdTTL (Cache.cache s))) v).
Proof. unfold Cache.set. simpl. apply lookup_insert_eq. Qed.

Lemma stale_mono (t t1 : Z) (e : Cache.Entry) :
  t <= t1 -> Cache.stale t e = true -> Cache.stale t1 e = true.
Proof.
  unfold Cache.stale. intros Ht H.
  apply andb_true_iff in H as [H1 H2]. rewrite H1. simpl.
  apply Z.ltb_lt in H2. apply Z.ltb_lt. lia.
Qed.

Lemma sweep_lookup (c : Cache.NodeCache) (k : jsstring) (t : Z) :
  Cache.data (Cache.nc_checkData t c) !! k
  = match Cache.data c !! k with
    | Some e => if Cache.stale t e then None else Some e
    | None => None
    end.
Proof.
  unfold Cache.nc_checkData. simpl.
  destruct (Cache.data c !! k) as [e|] eqn:E.
  - destruct (Cache.stale t e) eqn:Est.
    + apply map_lookup_filter_None. right. intros e' He'. simpl.
      rewrite E in He'. injection He' as <-. by rewrite Est.
    + apply map_lookup_filter_Some. by split.
  - apply map_lookup_filter_None. by left.
Qed.

(** A sweep at [t] does not change what [get] returns from [t] on. *)
Lemma sweep_get (s : Cache.CacheService) (k : jsstring) (t t1 : Z) :
  t <= t1 ->
  (Cache.get t1 k (Cache.with_cache s (Cache.nc_checkData t (Cache.cache s)))).1
  = (Cache.get t1 k s).1.
Proof.
  intros Ht. rewrite !get_fst. simpl Cache.cache. rewrite sweep_lookup.
  destruct (Cache.data (Cache.cache s) !! k) as [e|]; [|reflexivity].
  destruct (Cache.stale t e) eqn:E; [|reflexivity].
  by rewrite (stale_mono _ _ _ Ht E).
Qed.

(** The entry stored at [t0] is stale once more than the TTL has
    elapsed. *)
Lemma set_stale (s : Cache.CacheService) (v : VacancyData) (t0 t1 : Z) :
  Cache.stdTTL (Cache.cache s) = Cache.ttl s -> 0 < Cache.ttl s -> 0 <= t0 ->
  Cache.stale t1
    (Cache.mkEntry (Cache.livetime t0 (Cache.stdTTL (Cache.cache s))) v)
  = (Cache.ttl s * 1000 <? t1 - t0).
Proof.
  intros Hcfg Hpos Ht0.
  unfold Cache.stale, Cache.livetime. simpl. rewrite Hcfg.
  destruct (Cache.ttl s =? 0) eqn:E0; [apply Z.eqb_eq in E0; lia|].
  destruct (t0 + Cache.ttl s * 1000 =? 0) eqn:E1; [apply Z.eqb_eq in E1; lia|].
  simpl. destruct (_ <? t1) eqn:E2, (_ <? t1 - t0) eqn:E3; try reflexivity;
    rewrite ?Z.ltb_lt, ?Z.ltb_ge in *; lia.
Qed.

(** The service keeps the TTL it was created with as the default TTL of
    its store. *)
Lemma new_configured (ttlSeconds : Z) :
  Cache.stdTTL (Cache.cache (Cache.new ttlSeconds)) = Cache.ttl (Cache.new ttlSeconds).
Proof. reflexivity. Qed.

Lemma configured_preserved (s : Cache.CacheService) (k : jsstring)
    (v : VacancyData) (t : Z) :
  Cache.stdTTL (Cache.cache s) = Cache.ttl s ->
  let ok s' := Cache.stdTTL (Cache.cache s') = Cache.ttl s' in
  ok (Cache.set t k v s).2 /\ ok (Cache.get t k s).2 /\ ok (Cache.has t k s).2
  /\ ok (Cache.getCacheAge t k s).2 /\ ok (Cache.delete k s) /\ ok (Cache.clear s).
Proof.
  intros H ok. unfold ok, Cache.set, Cache.get, Cache.has, Cache.getCacheAge,
    Cache.delete, Cache.clear, Cache.nc_get, Cache.nc_has, Cache.nc_getTtl,
    Cache.nc_check.
  repeat split; try exact H.
  - destruct (_ !! _) as [e|]; [|exact H]. by destruct (Cache.stale t e).
  - destruct (_ !! _) as [e|]; [|exact H]. by destruct (Cache.stale t e).
  - destruct k; [exact H|].
    destruct (_ !! _) as [e|]; [|exact H]. by destruct (Cache.stale t e).
Qed.

End CacheReads.

Section CacheSpec.
Import JS Types Spec.

(** C8, as the code has it.  After [set(k, v)] at [t0] on a cache with a
    positive TTL: while at most the TTL has elapsed, [get(k)] returns [v],
    [has(k)] is true and [getCacheAge(k)] is the elapsed time in seconds
    rounded up, which never decreases and is at most the TTL; once more
    than the TTL has elapsed all three are empty or false, whether or not
    the sweep has run; and the three are empty or false for a key that is
    not stored. *)
Theorem cache_ttl_spec (s : Cache.CacheService) (k : jsstring) (v : VacancyData)
    (t0 t1 : Z) :
  Cache.stdTTL (Cache.cache s) = Cache.ttl s ->
  0 < Cache.ttl s -> 0 <= t0 -> t0 <= t1 -> k <> [] ->
  let s1 := (Cache.set t0 k v s).2 in
  (t1 - t0 <= Cache.ttl s * 1000 ->
     (Cache.get t1 k s1).1 = Some v
     /\ (Cache.has t1 k s1).1 = true
     /\ (Cache.getCacheAge t1 k s1).1 = Some (seconds_up (t1 - t0))
     /\ 0 <= seconds_up (t1 - t0) <= Cache.ttl s)
  /\ (Cache.ttl s * 1000 < t1 - t0 ->
      (Cache.get t1 k s1).1 = None
      /\ (Cache.has t1 k s1).1 = false
      /\ (Cache.getCacheAge t1 k s1).1 = None)
  /\ (forall t, t0 <= t <= t1 ->
      (Cache.get t1 k (Cache.with_cache s1 (Cache.nc_checkData t (Cache.cache s1)))).1
      = (Cache.get t1 k s1).1)
  /\ (forall t2, t1 <= t2 -> seconds_up (t1 - t0) <= seconds_up (t2 - t0))
  /\ (forall s' k' t,
      Cache.data (Cache.cache s') !! k' = None ->
      (Cache.get t k' s').1 = None /\ (Cache.has t k' s').1 = false
      /\ (Cache.getCacheAge t k' s').1 = None).
Proof.
  intros Hcfg Hpos Ht0 Ht1 Hk s1.
  assert (Hst : forall t, Cache.stale t
            (Cache.mkEntry (Cache.livetime t0 (Cache.stdTTL (Cache.cache s))) v)
            = (Cache.ttl s * 1000 <? t - t0)).
  { intros t. by apply set_stale. }
  assert (Hlt : Cache.livetime t0 (Cache.stdTTL (Cache.cache s))
                = t0 + Cache.ttl s * 1000).
  { unfold Cache.livetime. rewrite Hcfg.
    destruct (Cache.ttl s =? 0) eqn:E0; [apply Z.eqb_eq in E0; lia|done]. }
  split; [|split; [|split; [|split]]].
  - intros Hlive.
    rewrite get_fst, has_fst, getCacheAge_fst. unfold s1.
    rewrite !set_lookup, Hst.
    replace (_ <? _) with false by (symmetry; apply Z.ltb_ge; lia).
    rewrite bool_decide_eq_false_2 by done.
    simpl. rewrite Hlt.
    destruct (t0 + Cache.ttl s * 1000 =? 0) eqn:E1; [apply Z.eqb_eq in E1; lia|].
    split; [reflexivity|]. split; [reflexivity|]. split.
    + f_equal. unfold seconds_up. Z.div_mod_to_equations. lia.
    + unfold seconds_up. Z.div_mod_to_equations. lia.
  - intros Hdead.
    rewrite get_fst, has_fst, getCacheAge_fst. unfold s1.
    rewrite !set_lookup, Hst.
    replace (_ <? _) with true by (symmetry; apply Z.ltb_lt; lia).
    rewrite orb_true_r. by repeat split.
  - intros t Ht. apply sweep_get. lia.
  - intros t2 Ht2. unfold seconds_up. Z.div_mod_to_equations. lia.
  - intros s' k' t H.
    rewrite get_fst, has_fst, getCacheAge_fst, H.
    by repeat split.
Qed.

Lemma cache_ttl_spec_witness :
  0 < 900 /\ 0 <= 1000 /\ 1000 <= 61500
  /\ (Cache.getCacheAge 61500 (js "vacancy:20333")
        (Cache.set 1000 (js "vacancy:20333") Samples.data_3 (Cache.new 900)).2).1
     = Some 61
  /\ (Cache.get 901001 (js "vacancy:20333")
        (Cache.set 1000 (js "vacancy:20333") Samples.data_3 (Cache.new 900)).2).1
     = None.
Proof.
  assert (H1 : 0 < 900) by lia.
  assert (H2 : 0 <= 1000) by lia.
  assert (H3 : 1000 <= 61500) by lia.
  assert (H4 : 1000 <= 901001) by lia.
  assert (Hk : js "vacancy:20333" <> []) by discriminate.
  split; [exact H1|]. split; [exact H2|]. split; [exact H3|]. split.
  - refine (proj1 (proj2 (proj2 (proj1
      (cache_ttl_spec (Cache.new 900) _ Samples.data_3 1000 61500
         eq_refl H1 H2 H3 Hk) _)))).
    simpl. lia.
  - refine (proj1 (proj1 (proj2
      (cache_ttl_spec (Cache.new 900) _ Samples.data_3 1000 901001
         eq_refl H1 H2 H4 Hk)) _)).
    simpl. lia.
Defined.

(** Half a second after [set], the age is already 1 s, while no whole
    second has elapsed. *)
Lemma age_is_rounded_up :
  (Cache.getCacheAge 1500 (js "vacancy:20333")
     (Cache.set 1000 (js "vacancy:20333") Samples.data_3 (Cache.new 900)).2).1
  = Some 1
  /\ whole_seconds (1500 - 1000) = 0
  /\ (Cache.getCacheAge 1500 (js "vacancy:20333")
        (Cache.set 1000 (js "vacancy:20333") Samples.data_3 (Cache.new 900)).2).1
     <> Some (whole_seconds (1500 - 1000)).
Proof.
  assert (H : (Cache.getCacheAge 1500 (js "vacancy:20333")
     (Cache.set 1000 (js "vacancy:20333") Samples.data_3 (Cache.new 900)).2).1
     = Some 1).
  { rewrite getCacheAge_fst, set_lookup. reflexivity. }
  split; [exact H|]. split; [reflexivity|]. rewrite H. discriminate.
Qed.

(** Exactly one TTL after [set] the entry is still served. *)
Example served_at_ttl :
  (Cache.get 901000 (js "vacancy:20333")
     (Cache.set 1000 (js "vacancy:20333") Samples.data_3 (Cache.new 900)).2).1
  = Some Samples.data_3.
Proof. rewrite get_fst, set_lookup. reflexivity. Qed.

End CacheSpec.

(* ===================================================================== *)
(** ** Channel order: client requests and scheduled rounds *)
(* ===================================================================== *)

Section Frames.
Import JS Types Upstream Proc Spec.

Variable env : Env.

Lemma fetchVacancyFromAPI_frame c w :
  let w' := (Scraper.fetchVacancyFromAPI env c w).2 in
  trace w' = trace w ++ [EvDirect c]
  /\ rendered_calls w' = rendered_calls w
  /\ cacheService w' = cacheService w.
Proof.
  unfold Scraper.fetchVacancyFromAPI, bind, http_get, lift, ret, throw.
  destruct (result (axios_get env (direct_calls w) c)) as [e|d]; [by simpl|].
  destruct (negb (api_status d =? 0)); [by simpl|].
  by destruct (Scraper.dartVacancy_of_payload d).
Qed.

Lemma no_direct_app tr1 tr2 : no_direct tr1 -> no_direct tr2 -> no_direct (tr1 ++ tr2).
Proof. unfold no_direct. intros. by apply Forall_app. Qed.

(** The retry loop touches neither the direct channel nor the cache. *)
Lemma retry_loop_frame c maxRetries remaining :
  forall attempt last w,
    let w' := (Scraper.retry_loop env c maxRetries remaining attempt last w).2 in
    direct_calls w' = direct_calls w
    /\ cacheService w' = cacheService w
    /\ exists tr, trace w' = trace w ++ tr /\ no_direct tr.
Proof.
  induction remaining as [|r IH]; intros attempt last w; simpl.
  - repeat split. exists []. split; [by rewrite app_nil_r|constructor].
  - unfold try_catch. rewrite scrapeVacancy_run.
    destruct (attempt_outcome env c (rendered_calls w)) as [e|v].
    + unfold bind, sleep, ret.
      destruct (attempt <? maxRetries);
        match goal with
        | |- context [Scraper.retry_loop _ _ _ _ ?a ?l ?w0] =>
            destruct (IH a l w0) as (Hd & Hc & tr & Htr & Hnd)
        end;
        rewrite Hd, Hc, Htr; simpl; (split; [done|]); (split; [done|]);
        eexists; rewrite <- !app_assoc; (split; [reflexivity|]);
        simpl; repeat constructor; exact Hnd.
    + simpl. repeat split. exists [EvRendered c]. split; [done|].
      by repeat constructor.
Qed.

Lemma cache_set_frame key v w :
  let w' := (cache_set key v w).2 in
  trace w' = trace w ++ [EvCacheSet key v]
  /\ direct_calls w' = direct_calls w
  /\ Cache.data (Cache.cache (cacheService w')) !! key
     = Some (Cache.mkEntry
               (Cache.livetime (now w) (Cache.stdTTL (Cache.cache (cacheService w)))) v).
Proof. unfold cache_set, Cache.set. simpl. repeat split. apply lookup_insert_eq. Qed.

(** One store of a scheduled round: the rendered channel with two
    attempts, and the cache on success. *)
Lemma refreshStore_run c w :
  Scheduler.refreshStore env c w =
    match Scraper.scrapeWithRetry env c 2 w with
    | (inr v, w1) => (inr tt, (cache_set (Scheduler.vacancy_prefix ++ c) v w1).2)
    | (inl e, w1) => (inr tt, w1)
    end.
Proof.
  unfold Scheduler.refreshStore, try_catch, bind, ret.
  destruct (Scraper.scrapeWithRetry env c 2 w) as [[e|v] w1]; [reflexivity|].
  unfold cache_set. by destruct (Cache.set _ _ _ _).
Qed.

Lemma refreshStore_frame c w :
  let w' := (Scheduler.refreshStore env c w).2 in
  direct_calls w' = direct_calls w
  /\ exists tr, trace w' = trace w ++ tr /\ no_direct tr.
Proof.
  rewrite refreshStore_run.
  destruct (retry_loop_frame c 2 (Z.to_nat 2) 1 None w) as (Hd & _ & tr & Htr & Hnd).
  fold (Scraper.scrapeWithRetry env c 2 w) in Hd, Htr.
  destruct (Scraper.scrapeWithRetry env c 2 w) as [[e|v] w1]; simpl in *.
  - split; [done|]. by exists tr.
  - split; [done|]. exists (tr ++ [EvCacheSet (Scheduler.vacancy_prefix ++ c) v]).
    rewrite Htr, <- app_assoc. split; [done|].
    apply no_direct_app; [done|]. by repeat constructor.
Qed.

Lemma refreshStore_ok c w : (Scheduler.refreshStore env c w).1 = inr tt.
Proof.
  rewrite refreshStore_run.
  by destruct (Scraper.scrapeWithRetry env c 2 w) as [[e|v] w1].
Qed.

Lemma refreshAll_frame cs :
  forall w,
    let w' := (Scheduler.refreshAll env cs w).2 in
    direct_calls w' = direct_calls w
    /\ exists tr, trace w' = trace w ++ tr /\ no_direct tr.
Proof.
  induction cs as [|c cs IH]; intros w; simpl.
  - split; [done|]. exists []. split; [by rewrite app_nil_r|constructor].
  - unfold bind.
    destruct (refreshStore_frame c w) as (Hd & tr & Htr & Hnd).
    pose proof (refreshStore_ok c w) as Hok.
    destruct (Scheduler.refreshStore env c w) as [[e|u] w1]; [discriminate Hok|].
    simpl in Hd, Htr.
    destruct (IH w1) as (Hd' & tr' & Htr' & Hnd').
    split; [congruence|]. exists (tr ++ tr').
    split; [by rewrite Htr', Htr, <- app_assoc|by apply no_direct_app].
Qed.

Lemma acquire_run c w :
  Controller.acquire env c w =
    match Scraper.fetchVacancyFromAPI env c w with
    | (inr v, w1) => (inr v, w1)
    | (inl e, w1) => Scraper.scrapeWithRetry env c 3 w1
    end.
Proof. reflexivity. Qed.

Lemma acquire_direct_first c w :
  exists rest, trace (Controller.acquire env c w).2 = trace w ++ EvDirect c :: rest.
Proof.
  rewrite acquire_run.
  destruct (fetchVacancyFromAPI_frame c w) as (Htr & _ & _).
  destruct (Scraper.fetchVacancyFromAPI env c w) as [[e|v] w1]; simpl in *.
  - destruct (retry_loop_frame c 3 (Z.to_nat 3) 1 None w1) as (_ & _ & tr & Htr' & _).
    fold (Scraper.scrapeWithRetry env c 3 w1) in Htr'.
    exists tr. by rewrite Htr', Htr, <- app_assoc.
  - exists []. exact Htr.
Qed.

Lemma respond_fresh_direct_first c key w :
  exists rest, trace (respond_fresh env c key w).2 = trace w ++ EvDirect c :: rest.
Proof.
  unfold respond_fresh.
  destruct (acquire_direct_first c w) as [rest Hrest].
  destruct (Controller.acquire env c w) as [[e|v] w1]; simpl in *.
  - by exists rest.
  - exists (rest ++ [EvCacheSet key v]). by rewrite Hrest, <- app_assoc.
Qed.

End Frames.

Section Requests.
Import JS Types Upstream Proc Spec.

Lemma test_storeCode c :
  test Controller.re_storeCode c = true <-> valid_storeCode c.
Proof.
  unfold valid_storeCode, all_digits, test, exec.
  cbn [Controller.re_storeCode bol eol atoms].
  split.
  - destruct c as [|c1 [|c2 [|c3 [|c4 [|c5 [|c6 r]]]]]];
      cbn [match_here qt cls grp add_cap];
      repeat (match goal with
              | |- context [is_digit ?x] => destruct (is_digit x) eqn:?
              end; cbn [match_here qt cls grp add_cap]);
      try discriminate.
    intros _. split; [reflexivity|].
    repeat (constructor; [assumption|]). constructor.
  - intros [Hlen Hd].
    destruct c as [|c1 [|c2 [|c3 [|c4 [|c5 [|c6 r]]]]]]; try discriminate Hlen.
    inversion Hd as [|? ? H1 Hd1]; subst.
    inversion Hd1 as [|? ? H2 Hd2]; subst.
    inversion Hd2 as [|? ? H3 Hd3]; subst.
    inversion Hd3 as [|? ? H4 Hd4]; subst.
    inversion Hd4 as [|? ? H5 Hd5]; subst.
    cbn [match_here qt cls grp add_cap]. by rewrite H1, H2, H3, H4, H5.
Qed.

Lemma noCache_of_true q :
  Controller.noCache_of q = true <-> q = Controller.QString (js "true").
Proof.
  destruct q as [|str|]; simpl; [done| |done].
  unfold jsstring_eqb. rewrite bool_decide_eq_true.
  split; [by intros -> | by intros [= ->]].
Qed.

(** [getVacancy] on a request with a valid store code. *)
Lemma getVacancy_valid_key env c q w key :
  valid_storeCode c ->
  key = Scheduler.vacancy_prefix ++ c ->
  Controller.getVacancy env (Controller.mkRequest (Some c) q) w =
    if Controller.noCache_of q then respond_fresh env c key w
    else
      let w1 := (cache_get key w).2 in
      match (Cache.get (now w) key (cacheService w)).1 with
      | Some cached =>
          (Controller.Success cached true
             (Cache.getCacheAge (now w1) key (cacheService w1)).1,
           (cache_getCacheAge key w1).2)
      | None => respond_fresh env c key w1
      end.
Proof.
  intros Hv Hkey. unfold Controller.getVacancy.
  cbn [Controller.params_storeCode Controller.query_noCache].
  rewrite <- Hkey. clear Hkey.
  assert (Hne : bool_decide (c = []) = false).
  { apply bool_decide_eq_false. intros ->. by destruct Hv. }
  rewrite Hne, (proj2 (test_storeCode c) Hv). cbn [negb andb].
  assert (Hfresh : forall w0,
    match Controller.fetch_fresh env c key w0 with
    | (inr r, w') => (r, w')
    | (inl e, w') => (Controller.ScrapingError e, w')
    end = respond_fresh env c key w0).
  { intros w0. unfold Controller.fetch_fresh, respond_fresh, bind, ret.
    destruct (Controller.acquire env c w0) as [[e|v] w1]; [reflexivity|].
    unfold cache_set. by destruct (Cache.set _ _ _ _). }
  destruct (Controller.noCache_of q); cbn [negb]; [apply Hfresh|].
  unfold bind at 1. unfold cache_get.
  destruct (Cache.get (now w) key (cacheService w)) as [[cached|] cs1];
    cbn [fst snd].
  - unfold bind, cache_getCacheAge, ret.
    by destruct (Cache.getCacheAge _ _ _).
  - apply Hfresh.
Qed.

Lemma getVacancy_valid env c q w :
  valid_storeCode c ->
  let key := Scheduler.vacancy_prefix ++ c in
  Controller.getVacancy env (Controller.mkRequest (Some c) q) w =
    if Controller.noCache_of q then respond_fresh env c key w
    else
      let w1 := (cache_get key w).2 in
      match (Cache.get (now w) key (cacheService w)).1 with
      | Some cached =>
          (Controller.Success cached true
             (Cache.getCacheAge (now w1) key (cacheService w1)).1,
           (cache_getCacheAge key w1).2)
      | None => respond_fresh env c key w1
      end.
Proof. intros Hv key. by apply getVacancy_valid_key. Qed.

Lemma store_is_valid : valid_storeCode Samples.store.
Proof. split; [reflexivity|]. repeat (constructor; [reflexivity|]). constructor. Qed.

End Requests.

(* ===================================================================== *)
(** ** Starting and stopping the scheduler *)
(* ===================================================================== *)

Section Timers.
Import JS Types Upstream Proc Spec Scheduler.

Variable env : Env.

Lemma fold_clear_fields (hs : list nat) :
  forall p,
    let q := fold_left (fun q h => clearInterval h q) hs p in
    world q = world p /\ next_handle q = next_handle p
    /\ intervals q = intervals p
    /\ forall h, timers q !! h = if bool_decide (h ∈ hs) then None else timers p !! h.
Proof.
  induction hs as [|h0 hs IH]; intros p; simpl.
  - repeat split.
  - destruct (IH (clearInterval h0 p)) as (Hw & Hn & Hi & Ht).
    rewrite Hw, Hn, Hi. repeat split. intros h. rewrite Ht. simpl.
    destruct (decide (h = h0)) as [->|Hne].
    + rewrite lookup_delete_eq.
      rewrite (bool_decide_eq_true_2 (h0 ∈ h0 :: hs)) by (by left).
      by destruct (bool_decide _).
    + rewrite lookup_delete_ne by done.
      destruct (bool_decide (h ∈ hs)) eqn:E.
      * apply bool_decide_eq_true in E.
        by rewrite (bool_decide_eq_true_2 (h ∈ h0 :: hs)) by (by right).
      * apply bool_decide_eq_false in E.
        rewrite (bool_decide_eq_false_2 (h ∈ h0 :: hs)); [done|].
        intros Hin. apply elem_of_cons in Hin as [?|?]; done.
Qed.

(** [stop()] cancels every timer whose handle is in [intervals]. *)
Lemma stop_clears_intervals p h :
  h ∈ intervals p -> timers (stop p) !! h = None.
Proof.
  intros Hin. unfold stop. simpl.
  destruct (fold_clear_fields (intervals p) p) as (_ & _ & _ & Ht).
  rewrite Ht. by rewrite bool_decide_eq_true_2.
Qed.

(** It leaves every other timer registered. *)
Lemma stop_keeps_others p h :
  h ∉ intervals p -> timers (stop p) !! h = timers p !! h.
Proof.
  intros Hin. unfold stop. simpl.
  destruct (fold_clear_fields (intervals p) p) as (_ & _ & _ & Ht).
  rewrite Ht. by rewrite bool_decide_eq_false_2.
Qed.

Lemma stop_idempotent p : stop (stop p) = stop p.
Proof. reflexivity. Qed.

Lemma stop_without_start w : stop (boot w) = boot w.
Proof. reflexivity. Qed.

(** C3.  [stop()] right after [start()] leaves the one-shot timer to the
    first trigger registered: [start()] never records its handle.  When
    the event loop runs that timer, a refresh round is executed and the
    periodic timer is created, which then fires round after round. *)
Theorem stop_misses_first_trigger (w : World) :
  let p1 := stop (start env (boot w)) in
  timers p1 !! 0%nat
    = Some (Timeout FirstTrigger (getNextScheduledTime (zone w) (now w) - now w))
  /\ intervals p1 = []
  /\ exists p2 p3,
       steps env [DoStart; DoStop; DoFire 0] (boot w) = Some p2
       /\ world p2 = (executeScraping env (world p1)).2
       /\ timers p2 !! 1%nat = Some (Interval PeriodicTick 600000)
       /\ steps env [DoStart; DoStop; DoFire 0; DoFire 1] (boot w) = Some p3
       /\ world p3 = (executeScraping env (world p2)).2
       /\ timers p3 !! 1%nat = Some (Interval PeriodicTick 600000).
Proof.
  intros p1.
  assert (H0 : timers p1 !! 0%nat
    = Some (Timeout FirstTrigger (getNextScheduledTime (zone w) (now w) - now w))).
  { unfold p1, stop, start, register, boot. simpl. apply lookup_insert_eq. }
  split; [exact H0|]. split; [reflexivity|].
  assert (H1 : timers (run_callback env FirstTrigger (clearInterval 0 p1)) !! 1%nat
               = Some (Interval PeriodicTick 600000)).
  { unfold run_callback, register, push_interval, run_task, clearInterval.
    simpl. apply lookup_insert_eq. }
  assert (Hs2 : steps env [DoStart; DoStop; DoFire 0] (boot w)
                = Some (run_callback env FirstTrigger (clearInterval 0 p1))).
  { cbn [steps step]. fold p1. unfold fire. by rewrite H0. }
  exists (run_callback env FirstTrigger (clearInterval 0 p1)).
  exists (run_callback env PeriodicTick
            (run_callback env FirstTrigger (clearInterval 0 p1))).
  split; [exact Hs2|]. split; [reflexivity|]. split; [exact H1|].
  split; [|split; [reflexivity|exact H1]].
  change [DoStart; DoStop; DoFire 0; DoFire 1]
    with ([DoStart; DoStop; DoFire 0] ++ [DoFire 1]).
  assert (Happ : forall a b p q, steps env a p = Some q ->
                   steps env (a ++ b) p = steps env b q).
  { induction a as [|x a IH]; intros b p q; simpl; [by intros [= ->]|].
    destruct (step env x p); [apply IH|discriminate]. }
  rewrite (Happ _ _ _ _ Hs2). cbn [steps step]. unfold fire. by rewrite H1.
Qed.

End Timers.

(* ===================================================================== *)
(** ** Further properties: the retry loop *)
(* ===================================================================== *)

Section RetryBounds.
Import JS Types Upstream Proc Spec Notions.

Variable env : Env.
Variable c : jsstring.

Lemma slept_app (a b : list Event) : slept (a ++ b) = slept a + slept b.
Proof. induction a as [|[] a IH]; simpl; rewrite ?IH; lia. Qed.

(** Either some attempt among the first [n] succeeds, and there is a first
    one, or all of them fail. *)
Lemma first_success (n0 n : nat) :
  all_fail env c n0 n
  \/ exists k v, (k < n)%nat /\ all_fail env c n0 k
                 /\ attempt_outcome env c (n0 + k) = inr v.
Proof.
  induction n as [|n IH].
  - left. intros i Hi. lia.
  - destruct IH as [Hall | (k & v & Hk & Hf & Hv)].
    + destruct (attempt_outcome env c (n0 + n)) as [e|v] eqn:E.
      * left. intros i Hi. destruct (decide (i = n)) as [->|]; [eauto|].
        apply Hall. lia.
      * right. exists n, v. auto.
    + right. exists k, v. split; [lia|auto].
Qed.

Lemma retry_loop_bounds (maxRetries : Z) (remaining : nat) :
  forall attempt last w,
    1 <= attempt ->
    attempt + Z.of_nat remaining = maxRetries + 1 ->
    let w' := (Scraper.retry_loop env c maxRetries remaining attempt last w).2 in
    (rendered_calls w <= rendered_calls w' <= rendered_calls w + remaining)%nat
    /\ (0 < remaining -> rendered_calls w < rendered_calls w')%nat
    /\ 0 <= slept (trace w') - slept (trace w)
    /\ (slept (trace w') - slept (trace w)) + 2 ^ attempt * 1000
       <= Z.max (2 ^ attempt) (2 ^ maxRetries) * 1000.
Proof.
  induction remaining as [|r IH]; intros attempt last w Ha Hrem; simpl.
  - split; [lia|]. split; [lia|]. lia.
  - unfold try_catch. rewrite scrapeVacancy_run.
    assert (Hpow : 0 < 2 ^ attempt) by (apply Z.pow_pos_nonneg; lia).
    destruct (attempt_outcome env c (rendered_calls w)) as [e|v].
    + unfold bind, sleep, ret.
      assert (Hsucc : 2 ^ (attempt + 1) = 2 * 2 ^ attempt)
        by (rewrite Z.pow_add_r by lia; lia).
      destruct (attempt <? maxRetries) eqn:E;
        [apply Z.ltb_lt in E | apply Z.ltb_ge in E];
        match goal with
        | |- context [Scraper.retry_loop _ _ _ _ ?a ?l ?w0] =>
            destruct (IH a l w0) as (Hrc & Hrc' & Hs0 & Hs1); [lia|lia|]
        end;
        cbn [rendered_calls trace tick log count_rendered after_attempt] in *;
        rewrite ?slept_app in *; cbn [slept] in *.
      * assert (Hle : 2 ^ (attempt + 1) <= 2 ^ maxRetries)
          by (apply Z.pow_le_mono_r; lia).
        split; [lia|]. split; [lia|]. split; [lia|].
        rewrite Z.max_r in Hs1 by lia.
        rewrite Z.max_r by (apply Z.pow_le_mono_r; lia). lia.
      * assert (r = 0%nat) by lia. subst r. simpl in *.
        split; [lia|]. split; [lia|]. rewrite ?slept_app. cbn [slept]. lia.
    + cbn [snd rendered_calls trace tick log count_rendered after_attempt].
      rewrite slept_app. cbn [slept]. lia.
Qed.

(** X1. A run of [scrapeWithRetry] with [maxRetries >= 1] loads the page
    at least once and at most [maxRetries] times, backs off for at most
    [2^1 + ... + 2^(maxRetries-1)] seconds in total, makes no request to
    the structured endpoint and leaves the cache as it is. *)
Theorem scrapeWithRetry_bounds (maxRetries : Z) (w : World) :
  1 <= maxRetries ->
  let w' := (Scraper.scrapeWithRetry env c maxRetries w).2 in
  (rendered_calls w < rendered_calls w'
   <= rendered_calls w + Z.to_nat maxRetries)%nat
  /\ 0 <= slept (trace w') - slept (trace w) <= backoff_bound maxRetries
  /\ direct_calls w' = direct_calls w
  /\ cacheService w' = cacheService w.
Proof.
  intros Hmax w'.
  destruct (retry_loop_bounds maxRetries (Z.to_nat maxRetries) 1 None w)
    as (Hrc & Hrc' & Hs0 & Hs1); [lia|lia|].
  destruct (retry_loop_frame env c maxRetries (Z.to_nat maxRetries) 1 None w)
    as (Hd & Hc & _).
  fold (Scraper.scrapeWithRetry env c maxRetries w) in Hrc, Hrc', Hs0, Hs1, Hd, Hc.
  fold w' in Hrc, Hrc', Hs0, Hs1, Hd, Hc.
  assert (Hp : 2 ^ 1 <= 2 ^ maxRetries) by (apply Z.pow_le_mono_r; lia).
  rewrite Z.max_r in Hs1 by exact Hp.
  unfold backoff_bound. change (2 ^ 1) with 2 in *.
  repeat split; try lia; try assumption.
Qed.

(** X2. What [scrapeWithRetry] returns is what an attempt produced: it
    returns a record exactly when one of the first [maxRetries] attempts
    succeeds, and then the record of the first that does; it raises
    exactly when they all fail, and then the error of the last one. *)
Theorem scrapeWithRetry_outcome (maxRetries : Z) (w : World) :
  1 <= maxRetries ->
  let n0 := rendered_calls w in
  let out := Scraper.scrapeWithRetry env c maxRetries w in
  (forall v, out.1 = inr v <->
     exists k, Z.of_nat k < maxRetries /\ all_fail env c n0 k
               /\ attempt_outcome env c (n0 + k) = inr v)
  /\ (forall e, out.1 = inl e <->
        all_fail env c n0 (Z.to_nat maxRetries)
        /\ attempt_outcome env c (n0 + (Z.to_nat maxRetries - 1)) = inl e).
Proof.
  intros Hmax n0 out.
  assert (Hok : forall k v, Z.of_nat k < maxRetries -> all_fail env c n0 k ->
            attempt_outcome env c (n0 + k) = inr v -> out.1 = inr v).
  { intros k v Hk Hf Hv.
    destruct (retry_loop_success env c maxRetries k (Z.to_nat maxRetries) 1 None w v)
      as (w' & Hrun & _); [lia|lia|exact Hf|exact Hv|].
    unfold out, Scraper.scrapeWithRetry. by rewrite Hrun. }
  assert (Hko : forall e, all_fail env c n0 (Z.to_nat maxRetries) ->
            attempt_outcome env c (n0 + (Z.to_nat maxRetries - 1)) = inl e ->
            out.1 = inl e).
  { intros e Hf He.
    destruct (Z.to_nat maxRetries) as [|r] eqn:Hr; [lia|].
    replace (S r - 1)%nat with r in He by lia.
    destruct (retry_loop_exhausted env c maxRetries r 1 None w e)
      as (w' & Hrun & _); [lia| |exact He|].
    { intros i Hi. apply Hf. lia. }
    unfold out, Scraper.scrapeWithRetry. by rewrite Hr, Hrun. }
  destruct (first_success n0 (Z.to_nat maxRetries)) as [Hall | (k & v0 & Hk & Hf & Hv)].
  - destruct (Hall (Z.to_nat maxRetries - 1)%nat) as [e0 He0]; [lia|].
    pose proof (Hko e0 Hall He0) as Hout.
    split.
    + intros v. split.
      * intros H. congruence.
      * intros (k & Hk & _ & Hv). destruct (Hall k) as [e' He']; [lia|]. congruence.
    + intros e. split.
      * intros H. split; [exact Hall|]. congruence.
      * intros [_ He]. by apply Hko.
  - pose proof (Hok k v0 ltac:(lia) Hf Hv) as Hout.
    split.
    + intros v. split.
      * intros H. exists k. split; [lia|]. split; [exact Hf|]. congruence.
      * intros (k' & Hk' & Hf' & Hv'). by apply (Hok k').
    + intros e. split.
      * intros H. congruence.
      * intros [Hall _]. destruct (Hall k) as [e' He']; [lia|]. congruence.
Qed.

End RetryBounds.

Section RetryBoundsWitnesses.
Import JS Types Upstream Proc Spec Notions.

Lemma scrapeWithRetry_bounds_witness :
  1 <= 3
  /\ slept (trace (Scraper.scrapeWithRetry Samples.flaky Samples.store 3
                     (Samples.world_at 0)).2)
     - slept (trace (Samples.world_at 0)) <= backoff_bound 3.
Proof.
  assert (H : 1 <= 3) by lia.
  split; [exact H|].
  exact (proj2 (proj1 (proj2 (scrapeWithRetry_bounds Samples.flaky Samples.store 3 (Samples.world_at 0) H)))).
Defined.

Lemma scrapeWithRetry_outcome_witness :
  1 <= 3
  /\ exists k, Z.of_nat k < 3 /\ all_fail Samples.flaky Samples.store 0 k
               /\ attempt_outcome Samples.flaky Samples.store (0 + k)
                  = inr Samples.data_3.
Proof.
  assert (H : 1 <= 3) by lia.
  split; [exact H|].
  exact (proj1 (proj1 (scrapeWithRetry_outcome Samples.flaky Samples.store 3 (Samples.world_at 0) H)
                  Samples.data_3) eq_refl).
Defined.

End RetryBoundsWitnesses.

(* ===================================================================== *)
(** ** Further properties: the two channels and the normaliser *)
(* ===================================================================== *)

Section Channels.
Import JS Types Upstream Proc Spec Notions.

Variable env : Env.
Variable c : jsstring.

Lemma fetchVacancyFromAPI_run (w : World) :
  Scraper.fetchVacancyFromAPI env c w
  = (match result (axios_get env (direct_calls w) c) with
     | inl e => inl e
     | inr d =>
         if api_status d =? 0 then
           match Scraper.dartVacancy_of_payload d with
           | inl e => inl e
           | inr dv => inr (mkVacancy c dv)
           end
         else inl (ApiStatusError (api_status d))
     end,
     tick (took (axios_get env (direct_calls w) c))
       (count_direct (log (EvDirect c) w))).
Proof.
  unfold Scraper.fetchVacancyFromAPI, bind, http_get, lift, ret, throw.
  destruct (result (axios_get env (direct_calls w) c)) as [e|d]; [reflexivity|].
  destruct (api_status d =? 0); cbn [negb]; [|reflexivity].
  by destruct (Scraper.dartVacancy_of_payload d).
Qed.



(** X4. The two places that normalise a structured payload differ on its
    top-level status: the direct channel rejects a payload whose status
    is not 0, while a payload captured during a page load is normalised
    whatever its status is, so that a captured error payload without
    seats becomes the record 0/0/unknown. *)
Theorem captured_status_unchecked (w : World) (d : ApiData) (p : PageLoad) :
  api_status d <> 0 ->
  (result (axios_get env (direct_calls w) c) = inr d ->
   (Scraper.fetchVacancyFromAPI env c w).1 = inl (ApiStatusError (api_status d)))
  /\ (result (page_load env (rendered_calls w) c) = inr p ->
      captured_payload p = Some d ->
      (Scraper.scrapeVacancy env c w).1
      = match Scraper.dartVacancy_of_payload d with
        | inl e => inl e
        | inr dv => inr (mkVacancy c dv)
        end
      /\ (seat_type d = None ->
          (Scraper.scrapeVacancy env c w).1
          = inr (mkVacancy c {| available := 0; total := 0; status := unknown |}))).
Proof.
  intros Hst. split.
  - intros Hr. unfold Scraper.fetchVacancyFromAPI, bind, http_get, throw.
    rewrite Hr. apply Z.eqb_neq in Hst. by rewrite Hst.
  - intros Hr Hcap. rewrite scrapeVacancy_run. unfold attempt_outcome.
    rewrite Hr, vacancy_of_page_cases, Hcap. split; [reflexivity|].
    intros Hnone. unfold Scraper.dartVacancy_of_payload. by rewrite Hnone.
Qed.

End Channels.

Section ChannelsWitnesses.
Import JS Types Upstream Proc Spec Notions.

Lemma captured_status_unchecked_witness :
  api_status Samples2.error_payload <> 0
  /\ (Scraper.fetchVacancyFromAPI Samples2.erroring Samples.store
        (Samples.world_at 0)).1 = inl (ApiStatusError 1)
  /\ (Scraper.scrapeVacancy Samples2.erroring Samples.store
        (Samples.world_at 0)).1
     = inr (mkVacancy Samples.store
              {| available := 0; total := 0; status := unknown |}).
Proof.
  assert (H : api_status Samples2.error_payload <> 0) by discriminate.
  split; [exact H|].
  pose proof (captured_status_unchecked Samples2.erroring Samples.store
                (Samples.world_at 0) Samples2.error_payload
                Samples2.page_with_error_capture H) as [H1 H2].
  split; [exact (H1 eq_refl)|].
  exact (proj2 (H2 eq_refl eq_refl) eq_refl).
Defined.

End ChannelsWitnesses.

Section Payload.
Import JS Types Upstream Proc Spec Notions.

(** X5. The dart entry of a payload is the first seat, in array order,
    whose name is ダーツ or whose category id is "10"; the seats before it
    and after it do not matter. *)
Theorem first_dart_seat_wins (st : Z) (pre post : list Seat) (seat : Seat) :
  Forall (fun s => Scraper.is_dart s = false) pre ->
  Scraper.is_dart seat = true ->
  Scraper.dartVacancy_of_payload
    {| api_status := st; seat_type := Some (pre ++ seat :: post) |}
  = Scraper.dartVacancy_of_payload
      {| api_status := 0; seat_type := Some [seat] |}.
Proof.
  intros Hpre Hseat. unfold Scraper.dartVacancy_of_payload. simpl.
  rewrite Hseat.
  assert (Hf : List.find Scraper.is_dart (pre ++ seat :: post) = Some seat).
  { induction Hpre as [|s pre Hs _ IH]; simpl; [by rewrite Hseat|].
    by rewrite Hs. }
  by rewrite Hf.
Qed.

Lemma first_dart_seat_wins_witness :
  Scraper.dartVacancy_of_payload
    {| api_status := 0;
       seat_type := Some ([ {| seat_name := js "BOOTH"; category_id := js "1";
                               seat_status := Some (js "x"); status_no := js "1" |} ]
                          ++ {| seat_name := js "DARTS"; category_id := js "10";
                                seat_status := Some [c_zan; 51; c_seki]%N;
                                status_no := js "2" |}
                          :: [ {| seat_name := Scraper.s_darts_ja;
                                  category_id := js "10";
                                  seat_status := Some Scraper.s_manseki;
                                  status_no := js "4" |} ]) |}
  = inr {| available := 3; total := 3; status := crowded |}.
Proof.
  refine (eq_trans (first_dart_seat_wins 0 _ _ _ _ _) _).
  - constructor; [reflexivity|constructor].
  - reflexivity.
  - reflexivity.
Defined.

End Payload.

Section RenderedDocument.
Import JS Types Upstream Proc Spec Notions.

Lemma after_elem (p : N -> bool) (s : jsstring) (x : N) :
  x ∈ after p s -> x ∈ s.
Proof.
  induction s as [|d s IH]; simpl; [done|].
  destruct (p d); [|done]. intros H. right. by apply IH.
Qed.

(** What [/(\d+)[\s]*[台]/] captures is a non-empty run of digits, and the
    text holds a 台. *)
Lemma exec_re_available_inv (s m : jsstring) :
  exec Scraper.re_available s = Some m ->
  m <> [] /\ all_digits m /\ c_dai ∈ s.
Proof.
  change (exec Scraper.re_available s)
    with (search (atoms Scraper.re_available) false s).
  intros H. apply search_some in H as (pre & suf & -> & Hm & _).
  rewrite avail_here in Hm.
  pose proof (run_all is_digit suf) as Hall.
  destruct (run is_digit suf) as [|d ds] eqn:Er; [discriminate|].
  destruct (after is_space (after is_digit suf)) as [|c' r] eqn:Ea; [discriminate|].
  destruct (is_char c_dai c') eqn:Ec; [|discriminate].
  injection Hm as <-. split; [done|]. split; [exact Hall|].
  apply is_char_eq in Ec. subst c'.
  apply elem_of_app. right.
  apply (after_elem is_digit), (after_elem is_space). rewrite Ea. by left.
Qed.

Lemma parseInt_capture_available (s m : jsstring) :
  exec Scraper.re_available s = Some m ->
  Scraper.parseInt_capture m = digits_value m /\ 0 <= digits_value m.
Proof.
  intros H. apply exec_re_available_inv in H as (Hne & Hd & _).
  unfold Scraper.parseInt_capture. rewrite parseInt_digits by done.
  split; [reflexivity|]. by apply digits_value_nonneg.
Qed.

Lemma determineStatus_same (a : Z) :
  0 <= a ->
  Scraper.determineStatus a a = if a =? 0 then unknown else vacant.
Proof.
  intros Ha. unfold Scraper.determineStatus.
  destruct (a =? 0) eqn:E; [reflexivity|]. apply Z.eqb_neq in E.
  destruct (10 * a <? 3 * a) eqn:E'; [|reflexivity]. apply Z.ltb_lt in E'. lia.
Qed.

Lemma scan_rows_shape rs dv :
  Scraper.scan_rows rs = Some dv ->
  total dv = available dv /\ 0 <= available dv
  /\ status dv = (if available dv =? 0 then unknown else vacant).
Proof.
  induction rs as [|r rs IH]; simpl; [discriminate|].
  destruct (_ || _); [|exact IH].
  destruct (exec Scraper.re_available r) as [m|] eqn:E; [|exact IH].
  intros [= <-]. simpl.
  destruct (parseInt_capture_available _ _ E) as [-> Hnn].
  split; [reflexivity|]. split; [exact Hnn|]. by apply determineStatus_same.
Qed.

(** X6. When no selector candidate matches an element, the record comes
    from the table and list rows (or is the default): its total equals
    its available count, and its status is [unknown] for a count of 0
    and [vacant] otherwise; this fallback never reports [full] or
    [crowded]. *)
Theorem rows_fallback_shape (doc : Document) :
  (forall sel, select_text doc sel = None) ->
  let dv := Scraper.extractDartVacancy doc in
  total dv = available dv
  /\ 0 <= available dv
  /\ status dv = (if available dv =? 0 then unknown else vacant).
Proof.
  intros Hsel dv. unfold dv, Scraper.extractDartVacancy.
  assert (Hs : Scraper.scan_selectors doc Scraper.selectors = None).
  { unfold Scraper.selectors. simpl. by rewrite !Hsel. }
  rewrite Hs.
  destruct (Scraper.scan_rows (rows doc)) as [r|] eqn:Er.
  - by apply scan_rows_shape in Er.
  - repeat split. done.
Qed.

Lemma rows_fallback_shape_witness :
  Scraper.extractDartVacancy
    {| select_text := fun _ => None;
       rows := [js "DARTS" ++ [32; 48; c_dai]%N] |}
  = {| available := 0; total := 0; status := unknown |}
  /\ status (Scraper.extractDartVacancy
               {| select_text := fun _ => None;
                  rows := [js "DARTS" ++ [32; 48; c_dai]%N] |})
     = unknown.
Proof.
  split; [reflexivity|].
  exact (proj2 (proj2 (rows_fallback_shape
                         {| select_text := fun _ => None;
                            rows := [js "DARTS" ++ [32; 48; c_dai]%N] |}
                         (fun _ => eq_refl)))).
Defined.

Lemma scan_selectors_no_dai doc sels :
  (forall sel text, select_text doc sel = Some text -> c_dai ∉ text) ->
  Scraper.scan_selectors doc sels = None.
Proof.
  intros H. induction sels as [|sel sels IH]; [reflexivity|]. simpl.
  destruct (select_text doc sel) as [text|] eqn:E; [|exact IH].
  unfold Scraper.parse_selection.
  destruct (exec Scraper.re_available text) as [m|] eqn:Em; [|exact IH].
  apply exec_re_available_inv in Em as (_ & _ & Hin). by apply H in E.
Qed.

Lemma scan_rows_no_dai rs :
  Forall (fun r => c_dai ∉ r) rs -> Scraper.scan_rows rs = None.
Proof.
  induction 1 as [|r rs Hr _ IH]; [reflexivity|]. simpl.
  destruct (_ || _); [|exact IH].
  destruct (exec Scraper.re_available r) as [m|] eqn:Em; [|exact IH].
  by apply exec_re_available_inv in Em as (_ & _ & Hin).
Qed.

(** X7. A document in which neither a selected element nor a table or
    list row holds the character 台 gives the default 0/0/unknown: every
    count the parser reads is one followed by 台. *)
Theorem no_count_gives_default (doc : Document) :
  (forall sel text, select_text doc sel = Some text -> c_dai ∉ text) ->
  Forall (fun r => c_dai ∉ r) (rows doc) ->
  Scraper.extractDartVacancy doc
  = {| available := 0; total := 0; status := unknown |}.
Proof.
  intros Hsel Hrows. unfold Scraper.extractDartVacancy.
  by rewrite (scan_selectors_no_dai doc _ Hsel), (scan_rows_no_dai _ Hrows).
Qed.

Lemma no_count_gives_default_witness :
  Scraper.extractDartVacancy
    {| select_text := fun _ => None; rows := [js "DARTS 3"] |}
  = {| available := 0; total := 0; status := unknown |}.
Proof.
  apply no_count_gives_default.
  - intros sel text H. discriminate H.
  - constructor; [|constructor].
    intros H. vm_compute in H.
    repeat (apply elem_of_cons in H as [H|H]; [discriminate H|]).
    by apply elem_of_nil in H.
Defined.

End RenderedDocument.

(* ===================================================================== *)
(** ** Further properties: the cache service *)
(* ===================================================================== *)

Section CacheLaws.
Import JS Types Spec Notions.

(** X8. [set] and [delete] act on their own key only: what [get], [has]
    and [getCacheAge] return for any other key is unchanged. *)
Theorem cache_keys_independent (s : Cache.CacheService) (k k' : jsstring)
    (v : VacancyData) (t0 t : Z) :
  k' <> k ->
  ((Cache.get t k' (Cache.set t0 k v s).2).1 = (Cache.get t k' s).1
   /\ (Cache.has t k' (Cache.set t0 k v s).2).1 = (Cache.has t k' s).1
   /\ (Cache.getCacheAge t k' (Cache.set t0 k v s).2).1
      = (Cache.getCacheAge t k' s).1)
  /\ ((Cache.get t k' (Cache.delete k s)).1 = (Cache.get t k' s).1
      /\ (Cache.has t k' (Cache.delete k s)).1 = (Cache.has t k' s).1
      /\ (Cache.getCacheAge t k' (Cache.delete k s)).1
         = (Cache.getCacheAge t k' s).1).
Proof.
  intros Hne. rewrite !get_fst, !has_fst, !getCacheAge_fst.
  assert (H1 : Cache.data (Cache.cache (Cache.set t0 k v s).2) !! k'
               = Cache.data (Cache.cache s) !! k').
  { unfold Cache.set. simpl. by rewrite lookup_insert_ne. }
  assert (H2 : Cache.data (Cache.cache (Cache.delete k s)) !! k'
               = Cache.data (Cache.cache s) !! k').
  { unfold Cache.delete. simpl. by rewrite lookup_delete_ne. }
  rewrite H1, H2. repeat split.
Qed.

Lemma cache_keys_independent_witness :
  js "vacancy:20352" <> js "vacancy:20333"
  /\ (Cache.get 5 (js "vacancy:20352")
        (Cache.set 0 (js "vacancy:20333") Samples.data_3 (Cache.new 900)).2).1
     = (Cache.get 5 (js "vacancy:20352") (Cache.new 900)).1.
Proof.
  assert (H : js "vacancy:20352" <> js "vacancy:20333") by discriminate.
  split; [exact H|].
  exact (proj1 (proj1 (cache_keys_independent (Cache.new 900) _ _
                         Samples.data_3 0 5 H))).
Defined.

(** X9. After [delete(k)] the key [k] is gone, and after [clear()] every
    key is: [get] returns nothing, [has] is false and [getCacheAge] is
    empty, at any time and whatever was stored. *)
Theorem cache_delete_clear (s : Cache.CacheService) (k : jsstring) (t : Z) :
  ((Cache.get t k (Cache.delete k s)).1 = None
   /\ (Cache.has t k (Cache.delete k s)).1 = false
   /\ (Cache.getCacheAge t k (Cache.delete k s)).1 = None)
  /\ ((Cache.get t k (Cache.clear s)).1 = None
      /\ (Cache.has t k (Cache.clear s)).1 = false
      /\ (Cache.getCacheAge t k (Cache.clear s)).1 = None).
Proof.
  rewrite !get_fst, !has_fst, !getCacheAge_fst.
  assert (H1 : Cache.data (Cache.cache (Cache.delete k s)) !! k = None).
  { unfold Cache.delete. simpl. apply lookup_delete_eq. }
  assert (H2 : Cache.data (Cache.cache (Cache.clear s)) !! k = None).
  { unfold Cache.clear. simpl. apply lookup_empty. }
  rewrite H1, H2. repeat split.
Qed.

(** X10. [has] and [get] agree, and [getCacheAge] reports an age only
    for a key that [has] reports: at any instant, [has(k)] is true
    exactly when [get(k)] returns a value, and whenever [getCacheAge(k)]
    is not empty, [has(k)] is true. *)
Theorem cache_reads_agree (s : Cache.CacheService) (k : jsstring) (t : Z) :
  ((Cache.has t k s).1 = true <-> exists v, (Cache.get t k s).1 = Some v)
  /\ ((exists a, (Cache.getCacheAge t k s).1 = Some a) ->
      (Cache.has t k s).1 = true).
Proof.
  rewrite get_fst, has_fst, getCacheAge_fst.
  destruct (Cache.data (Cache.cache s) !! k) as [e|].
  - destruct (Cache.stale t e); simpl.
    + split; [split; [discriminate|intros [v Hv]; discriminate Hv]|].
      rewrite orb_true_r. intros [a Ha]. discriminate Ha.
    + split; [split; [eauto|done]|done].
  - split; [split; [discriminate|intros [v Hv]; discriminate Hv]|].
    intros [a Ha]. discriminate Ha.
Qed.

(** X11. The last write wins and restarts the countdown: after a second
    [set] of the same key at [t1], the second value is served for a full
    TTL from [t1] on, also when the first entry would have expired by
    then, and its age is counted from [t1]. *)
Theorem cache_overwrite (s : Cache.CacheService) (k : jsstring)
    (v1 v2 : VacancyData) (t0 t1 t2 : Z) :
  configured s -> 0 < Cache.ttl s -> 0 <= t1 -> k <> [] ->
  t1 <= t2 -> t2 - t1 <= Cache.ttl s * 1000 ->
  let s2 := (Cache.set t1 k v2 (Cache.set t0 k v1 s).2).2 in
  (Cache.get t2 k s2).1 = Some v2
  /\ (Cache.getCacheAge t2 k s2).1 = Some (seconds_up (t2 - t1)).
Proof.
  intros Hcfg Hpos Ht1 Hk Hle Hlive s2.
  rewrite get_fst, getCacheAge_fst. unfold s2. rewrite !set_lookup.
  assert (Hcfg1 : Cache.stdTTL (Cache.cache (Cache.set t0 k v1 s).2)
                  = Cache.ttl (Cache.set t0 k v1 s).2) by exact Hcfg.
  rewrite (set_stale _ v2 t1 t2 Hcfg1 Hpos Ht1).
  change (Cache.ttl (Cache.set t0 k v1 s).2) with (Cache.ttl s).
  replace (Cache.ttl s * 1000 <? t2 - t1) with false
    by (symmetry; apply Z.ltb_ge; lia).
  rewrite bool_decide_eq_false_2 by done. simpl.
  split; [reflexivity|].
  unfold Cache.livetime.
  change (Cache.stdTTL (Cache.cache s)) with (Cache.stdTTL (Cache.cache s)).
  unfold configured in Hcfg. rewrite Hcfg.
  destruct (Cache.ttl s =? 0) eqn:E0; [apply Z.eqb_eq in E0; lia|].
  destruct (t1 + Cache.ttl s * 1000 =? 0) eqn:E1; [apply Z.eqb_eq in E1; lia|].
  f_equal. unfold seconds_up. Z.div_mod_to_equations. lia.
Qed.

Lemma cache_overwrite_witness :
  (Cache.get 1500000 (js "vacancy:20333")
     (Cache.set 1000000 (js "vacancy:20333") Samples.data_3
        (Cache.set 0 (js "vacancy:20333")
           (mkVacancy Samples.store (mkDart 0 0 unknown)) (Cache.new 900)).2).2).1
  = Some Samples.data_3.
Proof.
  refine (proj1 (cache_overwrite (Cache.new 900) (js "vacancy:20333")
                   (mkVacancy Samples.store (mkDart 0 0 unknown)) Samples.data_3
                   0 1000000 1500000 eq_refl _ _ _ _ _)).
  - reflexivity.
  - discriminate.
  - discriminate.
  - discriminate.
  - simpl. discriminate.
Defined.

(** X12. With a configured TTL of 0 an entry never expires, and no age is
    ever reported for it: the expiry instant 0 stands for "no expiry"
    and [getCacheAge] takes it for a missing one. *)
Theorem cache_ttl_zero (s : Cache.CacheService) (k : jsstring)
    (v : VacancyData) (t0 t1 : Z) :
  configured s -> Cache.ttl s = 0 ->
  let s1 := (Cache.set t0 k v s).2 in
  (Cache.get t1 k s1).1 = Some v
  /\ (Cache.has t1 k s1).1 = true
  /\ (Cache.getCacheAge t1 k s1).1 = None.
Proof.
  intros Hcfg H0 s1. rewrite get_fst, has_fst, getCacheAge_fst.
  unfold s1. rewrite !set_lookup. unfold configured in Hcfg.
  rewrite Hcfg, H0. unfold Cache.stale, Cache.livetime. simpl.
  rewrite orb_false_r. repeat split. by destruct (bool_decide _).
Qed.

Lemma cache_ttl_zero_witness :
  (Cache.get 4102444800000 (js "vacancy:20333")
     (Cache.set 0 (js "vacancy:20333") Samples.data_3 (Cache.new 0)).2).1
  = Some Samples.data_3.
Proof.
  exact (proj1 (cache_ttl_zero (Cache.new 0) (js "vacancy:20333")
                  Samples.data_3 0 4102444800000 eq_refl eq_refl)).
Defined.

End CacheLaws.

(* ===================================================================== *)
(** ** Further properties: the vacancy endpoint *)
(* ===================================================================== *)

Section Endpoint.
Import JS Types Upstream Proc Spec Notions.

Lemma respond_fresh_inv env c key w r w1 :
  respond_fresh env c key w = (r, w1) ->
  (exists v w0, Controller.acquire env c w = (inr v, w0)
                /\ r = Controller.Success v false None
                /\ w1 = (cache_set key v w0).2)
  \/ (exists e, Controller.acquire env c w = (inl e, w1)
                /\ r = Controller.ScrapingError e).
Proof.
  unfold respond_fresh.
  destruct (Controller.acquire env c w) as [[e|v] w0]; intros [= <- <-].
  - right. by exists e.
  - left. by exists v, w0.
Qed.

(** An acquisition sends one request to the structured endpoint, loads
    at most three pages and leaves the cache alone. *)
Lemma acquire_frame env c w :
  let w' := (Controller.acquire env c w).2 in
  cacheService w' = cacheService w
  /\ direct_calls w' = S (direct_calls w)
  /\ (rendered_calls w <= rendered_calls w' <= rendered_calls w + 3)%nat.
Proof.
  cbv zeta. rewrite acquire_run, fetchVacancyFromAPI_run.
  set (w1 := tick _ _).
  assert (Hw1 : cacheService w1 = cacheService w
                /\ direct_calls w1 = S (direct_calls w)
                /\ rendered_calls w1 = rendered_calls w) by done.
  destruct Hw1 as (Hc1 & Hd1 & Hr1).
  assert (Hretry :
    let w' := (Scraper.scrapeWithRetry env c 3 w1).2 in
    cacheService w' = cacheService w
    /\ direct_calls w' = S (direct_calls w)
    /\ (rendered_calls w <= rendered_calls w' <= rendered_calls w + 3)%nat).
  { cbv zeta. unfold Scraper.scrapeWithRetry.
    change (Z.to_nat 3) with 3%nat.
    destruct (retry_loop_frame env c 3 3 1 None w1) as (Hd & Hc & _).
    destruct (retry_loop_bounds env c 3 3 1 None w1)
      as (Hrc & _); [lia|lia|].
    rewrite Hd, Hc, Hd1, Hc1. rewrite Hr1 in Hrc.
    split; [done|]. split; [done|]. exact Hrc. }
  destruct (result (axios_get env (direct_calls w) c)) as [e|d]; [exact Hretry|].
  destruct (api_status d =? 0); [|exact Hretry].
  destruct (Scraper.dartVacancy_of_payload d); [exact Hretry|].
  cbn [snd]. rewrite Hc1, Hd1, Hr1. split; [done|]. split; [done|]. lia.
Qed.

(** X13. [getVacancy] answers 400 exactly when the store code is missing
    or is not a string of five ASCII digits, and then it reads neither
    the cache nor the upstream: the state is unchanged. *)
Theorem getVacancy_validation env req w :
  ((Controller.getVacancy env req w).1 = Controller.InvalidStoreCode <->
   forall c, Controller.params_storeCode req = Some c -> ~ valid_storeCode c)
  /\ ((Controller.getVacancy env req w).1 = Controller.InvalidStoreCode ->
      (Controller.getVacancy env req w).2 = w).
Proof.
  destruct req as [[c|] q].
  - destruct (test Controller.re_storeCode c) eqn:Et.
    + assert (Hv : valid_storeCode c) by (by apply test_storeCode).
      rewrite (getVacancy_valid env c q w Hv). cbv zeta.
      assert (Hfresh : forall w0,
                (respond_fresh env c (Scheduler.vacancy_prefix ++ c) w0).1
                <> Controller.InvalidStoreCode).
      { intros w0. unfold respond_fresh.
        by destruct (Controller.acquire env c w0) as [[e|v] w1]. }
      assert (Hne : (if Controller.noCache_of q
                     then respond_fresh env c (Scheduler.vacancy_prefix ++ c) w
                     else
                       match (Cache.get (now w) (Scheduler.vacancy_prefix ++ c)
                                (cacheService w)).1 with
                       | Some cached =>
                           (Controller.Success cached true
                              (Cache.getCacheAge
                                 (now (cache_get (Scheduler.vacancy_prefix ++ c) w).2)
                                 (Scheduler.vacancy_prefix ++ c)
                                 (cacheService
                                    (cache_get (Scheduler.vacancy_prefix ++ c) w).2)).1,
                            (cache_getCacheAge (Scheduler.vacancy_prefix ++ c)
                               (cache_get (Scheduler.vacancy_prefix ++ c) w).2).2)
                       | None =>
                           respond_fresh env c (Scheduler.vacancy_prefix ++ c)
                             (cache_get (Scheduler.vacancy_prefix ++ c) w).2
                       end).1 <> Controller.InvalidStoreCode).
      { destruct (Controller.noCache_of q); [apply Hfresh|].
        destruct ((Cache.get _ _ _).1); [discriminate|apply Hfresh]. }
      split; [split|]; [done| |done].
      intros H. exfalso. by apply (H c).
    + assert (Hnv : ~ valid_storeCode c).
      { intros Hv. apply test_storeCode in Hv. congruence. }
      unfold Controller.getVacancy. cbn [Controller.params_storeCode].
      rewrite Et, andb_false_r. split; [split|]; [|done..].
      intros _ c' [= <-]. done.
  - split; [split|]; [|done..]. intros _ c' H. discriminate H.
Qed.

Lemma get_keeps_live (s : Cache.CacheService) (k : jsstring) (t : Z) e :
  Cache.data (Cache.cache s) !! k = Some e ->
  Cache.stale t e = false ->
  Cache.data (Cache.cache (Cache.get t k s).2) = Cache.data (Cache.cache s)
  /\ Cache.ttl (Cache.get t k s).2 = Cache.ttl s.
Proof.
  intros He Hs. unfold Cache.get, Cache.nc_get, Cache.nc_check.
  by rewrite He, Hs.
Qed.

Lemma cache_get_fields key w :
  let w' := (cache_get key w).2 in
  now w' = now w /\ direct_calls w' = direct_calls w
  /\ rendered_calls w' = rendered_calls w
  /\ cacheService w' = (Cache.get (now w) key (cacheService w)).2.
Proof. unfold cache_get. by destruct (Cache.get _ _ _). Qed.

Lemma cache_getCacheAge_fields key w :
  let w' := (cache_getCacheAge key w).2 in
  now w' = now w /\ direct_calls w' = direct_calls w
  /\ rendered_calls w' = rendered_calls w.
Proof. unfold cache_getCacheAge. by destruct (Cache.getCacheAge _ _ _). Qed.

(** What a request finds when the entry of its key was stored [d]
    milliseconds ago and is still within its TTL. *)
Lemma getVacancy_hit env c q w cs0 v t0 :
  valid_storeCode c ->
  configured cs0 -> 0 < Cache.ttl cs0 -> 0 <= t0 ->
  cacheService w = (Cache.set t0 (Scheduler.vacancy_prefix ++ c) v cs0).2 ->
  Controller.noCache_of q = false ->
  t0 <= now w -> now w - t0 <= Cache.ttl cs0 * 1000 ->
  let out := Controller.getVacancy env (Controller.mkRequest (Some c) q) w in
  out.1 = Controller.Success v true (Some (seconds_up (now w - t0)))
  /\ direct_calls out.2 = direct_calls w
  /\ rendered_calls out.2 = rendered_calls w.
Proof.
  intros Hv Hcfg Hpos Ht0 Hcs Hq Hle Hlive.
  rewrite (getVacancy_valid env c q w Hv), Hq. cbv zeta.
  set (key := Scheduler.vacancy_prefix ++ c) in *.
  assert (Hk : key <> []).
  { unfold key, Scheduler.vacancy_prefix. by destruct c. }
  pose proof (set_lookup cs0 key v t0) as Hlook. rewrite <- Hcs in Hlook.
  assert (Hst : Cache.stale (now w)
                  (Cache.mkEntry (Cache.livetime t0 (Cache.stdTTL (Cache.cache cs0))) v)
                = false).
  { rewrite (set_stale cs0 v t0 (now w) Hcfg Hpos Ht0). apply Z.ltb_ge. lia. }
  rewrite get_fst, Hlook, Hst. cbn [Cache.v].
  destruct (cache_get_fields key w) as (Hn1 & Hd1 & Hr1 & Hc1).
  destruct (cache_getCacheAge_fields key (cache_get key w).2) as (_ & Hd2 & Hr2).
  cbn [fst snd]. rewrite Hd2, Hr2, Hd1, Hr1.
  split; [|done]. f_equal.
  rewrite getCacheAge_fst, Hn1, Hc1.
  destruct (get_keeps_live _ _ _ _ Hlook Hst) as [Hdata Httl].
  rewrite Hdata, Hlook, Hst, Httl. rewrite bool_decide_eq_false_2 by done.
  cbn [orb Cache.t]. rewrite Hcs.
  change (Cache.ttl (Cache.set t0 key v cs0).2) with (Cache.ttl cs0).
  unfold Cache.livetime. unfold configured in Hcfg. rewrite Hcfg.
  destruct (Cache.ttl cs0 =? 0) eqn:E0; [apply Z.eqb_eq in E0; lia|].
  destruct (t0 + Cache.ttl cs0 * 1000 =? 0) eqn:E1; [apply Z.eqb_eq in E1; lia|].
  f_equal. unfold seconds_up. Z.div_mod_to_equations. lia.
Qed.

(** What the state looks like after a request answered with a fresh
    record. *)
Lemma getVacancy_fresh_state env c q w v w1 :
  valid_storeCode c -> configured (cacheService w) ->
  Controller.getVacancy env (Controller.mkRequest (Some c) q) w
    = (Controller.Success v false None, w1) ->
  exists cs0,
    configured cs0 /\ Cache.ttl cs0 = Cache.ttl (cacheService w)
    /\ cacheService w1 = (Cache.set (now w1) (Scheduler.vacancy_prefix ++ c) v cs0).2.
Proof.
  intros Hv Hcfg. rewrite (getVacancy_valid env c q w Hv). cbv zeta.
  set (key := Scheduler.vacancy_prefix ++ c).
  assert (Hfresh : forall w0, configured (cacheService w0) ->
            Cache.ttl (cacheService w0) = Cache.ttl (cacheService w) ->
            respond_fresh env c key w0 = (Controller.Success v false None, w1) ->
            exists cs0, configured cs0 /\ Cache.ttl cs0 = Cache.ttl (cacheService w)
              /\ cacheService w1 = (Cache.set (now w1) key v cs0).2).
  { intros w0 Hc0 Ht0 H.
    apply respond_fresh_inv in H
      as [(v' & w0' & Hacq & [= <-] & ->) | (e & _ & H)]; [|discriminate H].
    destruct (acquire_frame env c w0) as (Hcs & _). rewrite Hacq in Hcs.
    simpl in Hcs. exists (cacheService w0').
    split; [by rewrite Hcs|]. split; [by rewrite Hcs|].
    unfold cache_set.
    destruct (Cache.set (now w0') key v (cacheService w0')) as [ok cs'] eqn:E.
    cbn [snd cacheService with_cacheService now log]. by rewrite E. }
  destruct (Controller.noCache_of q); [by apply Hfresh|].
  destruct ((Cache.get (now w) key (cacheService w)).1) eqn:Eg; [discriminate|].
  destruct (cache_get_fields key w) as (_ & _ & _ & Hc1).
  apply Hfresh; rewrite Hc1.
  - by apply (configured_preserved (cacheService w) key v (now w) Hcfg).
  - unfold Cache.get. by destruct (Cache.nc_get _ _ _).
Qed.

(** X14. After a request was answered with a fresh record, a request for
    the same store that arrives within the TTL and does not ask for
    [noCache] is answered from the cache: the same record, [cached: true],
    the age of the entry in seconds rounded up, and no upstream call. *)
Theorem getVacancy_served_from_cache env env' c q q' w v w1 d :
  valid_storeCode c ->
  configured (cacheService w) -> 0 < Cache.ttl (cacheService w) ->
  Controller.getVacancy env (Controller.mkRequest (Some c) q) w
    = (Controller.Success v false None, w1) ->
  0 <= now w1 -> Controller.noCache_of q' = false ->
  0 <= d <= Cache.ttl (cacheService w) * 1000 ->
  let out := Controller.getVacancy env' (Controller.mkRequest (Some c) q')
               (tick d w1) in
  out.1 = Controller.Success v true (Some (seconds_up d))
  /\ direct_calls out.2 = direct_calls w1
  /\ rendered_calls out.2 = rendered_calls w1.
Proof.
  intros Hv Hcfg Hpos Hfirst Hnow Hq' Hd.
  destruct (getVacancy_fresh_state env c q w v w1 Hv Hcfg Hfirst)
    as (cs0 & Hcfg0 & Httl0 & Hcs).
  rewrite <- Httl0 in Hpos, Hd.
  pose proof (getVacancy_hit env' c q' (tick d w1) cs0 v (now w1) Hv Hcfg0 Hpos
                Hnow Hcs Hq') as H.
  cbn [now tick direct_calls rendered_calls] in H.
  replace (now w1 + d - now w1) with d in H by lia.
  apply H; lia.
Qed.

(** X15. When the structured endpoint fails and all three page loads fail
    too, a [noCache] request is answered 500 with the error of the last
    page load; the cache is left as it was, and the request has cost one
    direct call, three page loads and 2 s + 4 s of back-off. *)
Theorem getVacancy_all_down env c q w e0 e :
  valid_storeCode c -> Controller.noCache_of q = true ->
  (Scraper.fetchVacancyFromAPI env c w).1 = inl e0 ->
  all_fail env c (rendered_calls w) 2 ->
  attempt_outcome env c (rendered_calls w + 2) = inl e ->
  let out := Controller.getVacancy env (Controller.mkRequest (Some c) q) w in
  out.1 = Controller.ScrapingError e
  /\ cacheService out.2 = cacheService w
  /\ direct_calls out.2 = S (direct_calls w)
  /\ rendered_calls out.2 = (rendered_calls w + 3)%nat
  /\ slept (trace out.2) = slept (trace w) + 6000.
Proof.
  intros Hv Hq Hfetch Hfail Hlast.
  rewrite (getVacancy_valid env c q w Hv), Hq. cbv zeta.
  unfold respond_fresh. rewrite acquire_run.
  destruct (fetchVacancyFromAPI_frame env c w) as (Htr1 & Hrc1 & Hcs1).
  assert (Hdc1 : direct_calls (Scraper.fetchVacancyFromAPI env c w).2
                 = S (direct_calls w)).
  { by rewrite fetchVacancyFromAPI_run. }
  destruct (Scraper.fetchVacancyFromAPI env c w) as [[e1|v1] w1];
    [|discriminate Hfetch].
  cbn [snd] in Htr1, Hrc1, Hcs1, Hdc1.
  unfold Scraper.scrapeWithRetry. change (Z.to_nat 3) with 3%nat.
  rewrite <- Hrc1 in Hfail, Hlast.
  destruct (retry_loop_exhausted env c 3 2 1 None w1 e)
    as (w' & Hrun & Htr & Hrc & _ & Hcs); [lia|exact Hfail|exact Hlast|].
  destruct (retry_loop_frame env c 3 3 1 None w1) as (Hd & _).
  rewrite Hrun in Hd |- *. cbn [fst snd] in Hd |- *.
  rewrite Hcs, Hcs1, Hd, Hdc1, Hrc, Hrc1, Htr, Htr1.
  repeat split; [lia|]. rewrite !slept_app. simpl. lia.
Qed.

End Endpoint.

Section EndpointWitnesses.
Import JS Types Upstream Proc Spec Notions.

Lemma getVacancy_served_from_cache_witness :
  valid_storeCode Samples.store
  /\ (Controller.getVacancy Samples2.down
        (Controller.mkRequest (Some Samples.store) Controller.QAbsent)
        (tick 61500
           (Controller.getVacancy Samples.flaky
              (Controller.mkRequest (Some Samples.store) Controller.QAbsent)
              (Samples.world_at 1000)).2)).1
     = Controller.Success Samples.data_3 true (Some 62).
Proof.
  split; [exact store_is_valid|].
  assert (H1 : Controller.getVacancy Samples.flaky
                 (Controller.mkRequest (Some Samples.store) Controller.QAbsent)
                 (Samples.world_at 1000)
               = (Controller.Success Samples.data_3 false None,
                  (Controller.getVacancy Samples.flaky
                     (Controller.mkRequest (Some Samples.store) Controller.QAbsent)
                     (Samples.world_at 1000)).2))
    by (vm_compute; reflexivity).
  assert (H2 : 0 <= now (Controller.getVacancy Samples.flaky
                 (Controller.mkRequest (Some Samples.store) Controller.QAbsent)
                 (Samples.world_at 1000)).2)
    by (vm_compute; discriminate).
  assert (H3 : 0 <= 61500 <= Cache.ttl (cacheService (Samples.world_at 1000)) * 1000)
    by (split; vm_compute; discriminate).
  assert (H4 : 0 < Cache.ttl (cacheService (Samples.world_at 1000))) by reflexivity.
  exact (proj1 (getVacancy_served_from_cache Samples.flaky Samples2.down
                  Samples.store Controller.QAbsent Controller.QAbsent
                  (Samples.world_at 1000) Samples.data_3 _ 61500
                  store_is_valid eq_refl H4 H1 H2 eq_refl H3)).
Defined.

Lemma getVacancy_all_down_witness :
  valid_storeCode Samples.store
  /\ (Controller.getVacancy Samples2.down
        (Controller.mkRequest (Some Samples.store) (Controller.QString (js "true")))
        (Samples.world_at 0)).1
     = Controller.ScrapingError (UpstreamError "net::ERR").
Proof.
  split; [exact store_is_valid|].
  refine (proj1 (getVacancy_all_down Samples2.down Samples.store
                   (Controller.QString (js "true")) (Samples.world_at 0)
                   (UpstreamError "ECONNREFUSED") (UpstreamError "net::ERR")
                   store_is_valid eq_refl eq_refl _ eq_refl)).
  intros i Hi. destruct i as [|[|i]]; [eexists; reflexivity..|lia].
Defined.

End EndpointWitnesses.

(* ===================================================================== *)
(** ** Further properties: the scheduler *)
(* ===================================================================== *)

Section Tracking.
Import JS Types Upstream Proc Spec Notions SchedNotions.

Lemma startsWith_app (p s : jsstring) : startsWith (p ++ s) p = true.
Proof. induction p as [|c p IH]; simpl; [by destruct s|]. by rewrite N.eqb_refl. Qed.

Lemma startsWith_inv (s p : jsstring) :
  startsWith s p = true -> s = p ++ drop (length p) s.
Proof.
  revert s. induction p as [|c p IH]; intros s; [by destruct s|].
  destruct s as [|d s]; simpl; [discriminate|].
  intros H. apply andb_true_iff in H as [H1 H2].
  apply N.eqb_eq in H1. subst d. f_equal. by apply IH.
Qed.

Lemma replace_prefix (p s r : jsstring) :
  startsWith s p = true -> replace s p r = r ++ drop (length p) s.
Proof. intros H. destruct s; simpl in *; by rewrite H. Qed.

Lemma elem_of_uniq (seen xs : list jsstring) (x : jsstring) :
  x ∈ Scheduler.uniq seen xs <-> x ∈ xs /\ x ∉ seen.
Proof.
  revert seen. induction xs as [|y xs IH]; intros seen; simpl.
  - split; [intros H; by apply elem_of_nil in H|intros [H _]; by apply elem_of_nil in H].
  - destruct (bool_decide (y ∈ seen)) eqn:E;
      [apply bool_decide_eq_true in E | apply bool_decide_eq_false in E].
    + rewrite IH, elem_of_cons. split; [intros [? ?]; auto|].
      intros [[->|?] ?]; [done|auto].
    + rewrite elem_of_cons, IH, !elem_of_cons. split.
      * intros [->|[? Hn]]; [auto|]. split; [auto|]. intros ?. apply Hn. by right.
      * intros [[->|?] Hn]; [by left|].
        destruct (decide (x = y)) as [->|Hne]; [by left|].
        right. split; [done|]. intros [?|?]; done.
Qed.

Lemma NoDup_uniq (seen xs : list jsstring) : NoDup (Scheduler.uniq seen xs).
Proof.
  revert seen. induction xs as [|y xs IH]; intros seen; simpl; [constructor|].
  destruct (bool_decide (y ∈ seen)); [apply IH|].
  constructor; [|apply IH]. rewrite elem_of_uniq. intros [_ Hn]. apply Hn. by left.
Qed.

(** X16. The store codes that [getStoreCodesFromCache] makes of a list
    of keys: each code once, and a code is among them exactly when the key
    "vacancy:" followed by the code is in the list; keys without that
    prefix are ignored. *)
Theorem storeCodes_of_keys_spec (keys : list jsstring) :
  NoDup (storeCodes_of_keys keys)
  /\ (forall c,
        c ∈ storeCodes_of_keys keys <-> Scheduler.vacancy_prefix ++ c ∈ keys)
  /\ forall w,
       Scheduler.getStoreCodesFromCache w
       = storeCodes_of_keys (Cache.getStats_keys (now w) (cacheService w)).
Proof.
  unfold storeCodes_of_keys.
  split; [apply NoDup_uniq|]. split; [|reflexivity].
  intros c. rewrite elem_of_uniq, list_elem_of_In, in_map_iff.
  split.
  - intros [(key & Hrep & Hin) _]. apply filter_In in Hin as [Hin Hsw].
    apply list_elem_of_In in Hin.
    rewrite (replace_prefix _ _ _ Hsw) in Hrep. cbn [app] in Hrep. subst c.
    by rewrite <- (startsWith_inv _ _ Hsw).
  - intros Hin. split; [|apply not_elem_of_nil].
    exists (Scheduler.vacancy_prefix ++ c). split.
    + rewrite (replace_prefix _ _ _ (startsWith_app _ _)). cbn [app].
      by rewrite drop_app_length.
    + apply filter_In. split; [|apply startsWith_app].
      by apply list_elem_of_In.
Qed.

End Tracking.

Section Rounds.
Import JS Types Upstream Proc Spec Notions SchedNotions.

Variable env : Env.

Lemma scrapeWithRetry_first_event c maxRetries w :
  1 <= maxRetries ->
  exists rest,
    trace (Scraper.scrapeWithRetry env c maxRetries w).2
    = trace w ++ EvRendered c :: rest.
Proof.
  intros Hmax. unfold Scraper.scrapeWithRetry.
  destruct (Z.to_nat maxRetries) as [|r] eqn:Hr; [lia|].
  simpl. unfold try_catch. rewrite scrapeVacancy_run.
  destruct (attempt_outcome env c (rendered_calls w)) as [e|v].
  - unfold bind, sleep, ret.
    destruct (1 <? maxRetries);
      match goal with
      | |- context [Scraper.retry_loop _ _ _ _ ?a ?l ?w0] =>
          destruct (retry_loop_frame env c maxRetries r a l w0)
            as (_ & _ & tr & Htr & _)
      end; rewrite Htr; simpl; rewrite <- !app_assoc; simpl; eauto.
  - exists []. reflexivity.
Qed.

(** One store of a round: its page is loaded once or twice, the
    structured endpoint is not used, nothing is thrown. *)
Lemma refreshStore_effect c w :
  let out := Scheduler.refreshStore env c w in
  out.1 = inr tt
  /\ (exists rest, trace out.2 = trace w ++ EvRendered c :: rest)
  /\ (rendered_calls w + 1 <= rendered_calls out.2 <= rendered_calls w + 2)%nat.
Proof.
  cbv zeta. split; [apply refreshStore_ok|].
  rewrite refreshStore_run.
  destruct (scrapeWithRetry_first_event c 2 w) as [rest Hrest]; [lia|].
  destruct (retry_loop_bounds env c 2 2 1 None w) as (Hrc & Hrc' & _); [lia|lia|].
  change (Scraper.retry_loop env c 2 2 1 None w)
    with (Scraper.scrapeWithRetry env c 2 w) in Hrc, Hrc'.
  destruct (Scraper.scrapeWithRetry env c 2 w) as [[e|v] w1]; simpl in *.
  - split; [eauto|]. specialize (Hrc' ltac:(lia)). lia.
  - split; [|specialize (Hrc' ltac:(lia)); lia].
    exists (rest ++ [EvCacheSet (Scheduler.vacancy_prefix ++ c) v]).
    rewrite Hrest, <- app_assoc. reflexivity.
Qed.

Lemma refreshAll_effect cs :
  forall w,
    let out := Scheduler.refreshAll env cs w in
    out.1 = inr tt
    /\ (exists tr, trace out.2 = trace w ++ tr
                   /\ forall c, c ∈ cs -> EvRendered c ∈ tr)
    /\ (rendered_calls w + length cs <= rendered_calls out.2
        <= rendered_calls w + 2 * length cs)%nat.
Proof.
  induction cs as [|c cs IH]; intros w; cbv zeta.
  - simpl. split; [done|]. split; [|lia]. exists []. split; [by rewrite app_nil_r|].
    intros c Hc. by apply elem_of_nil in Hc.
  - simpl. unfold bind.
    destruct (refreshStore_effect c w) as (Hok & (rest & Hrest) & Hrc).
    destruct (Scheduler.refreshStore env c w) as [[e|u] w1]; [discriminate Hok|].
    simpl in Hrest, Hrc.
    destruct (IH w1) as (Hok' & (tr & Htr & Hin) & Hrc').
    split; [exact Hok'|]. split; [|lia].
    exists ((EvRendered c :: rest) ++ tr). split.
    + by rewrite Htr, Hrest, <- app_assoc.
    + intros c' Hc'. apply elem_of_app. apply elem_of_cons in Hc' as [->|Hc'].
      * left. by left.
      * right. by apply Hin.
Qed.

(** X17. The callbacks of a refresh round, for any list of store codes
    (taken one after the other): nothing is thrown, whatever the upstream
    does, and a store that fails does not keep the others from being
    tried; the page of every store is loaded at least once and at most
    twice, and the structured endpoint is not called. *)
Theorem refresh_round_isolated (cs : list jsstring) (w : World) :
  let out := Scheduler.refreshAll env cs w in
  out.1 = inr tt
  /\ (exists tr, trace out.2 = trace w ++ tr
                 /\ forall c, c ∈ cs -> EvRendered c ∈ tr)
  /\ (rendered_calls w + length cs <= rendered_calls out.2
      <= rendered_calls w + 2 * length cs)%nat
  /\ direct_calls out.2 = direct_calls w.
Proof.
  cbv zeta.
  destruct (refreshAll_effect cs w) as (Hok & Htr & Hrc).
  destruct (refreshAll_frame env cs w) as (Hd & _). auto.
Qed.

End Rounds.

Section RoundCache.
Import JS Types Upstream Proc Spec Notions SchedNotions.

Variable env : Env.
Variable c : jsstring.

(** X18. What a round does to the cache entry of a store: when both page
    loads fail the cache is left exactly as it was, so an entry stored
    earlier stays (until it expires); when one succeeds its record is
    stored under "vacancy:" followed by the code and is served from then
    on. *)
Theorem refreshStore_cache (w : World) :
  configured (cacheService w) -> 0 < Cache.ttl (cacheService w) ->
  let out := Scheduler.refreshStore env c w in
  let key := Scheduler.vacancy_prefix ++ c in
  (all_fail env c (rendered_calls w) 2 -> cacheService out.2 = cacheService w)
  /\ (forall k v,
        (k < 2)%nat -> all_fail env c (rendered_calls w) k ->
        attempt_outcome env c (rendered_calls w + k) = inr v ->
        0 <= now out.2 ->
        (Cache.get (now out.2) key (cacheService out.2)).1 = Some v).
Proof.
  intros Hcfg Hpos. cbv zeta. rewrite refreshStore_run.
  unfold Scraper.scrapeWithRetry. change (Z.to_nat 2) with 2%nat. split.
  - intros Hall. destruct (Hall 1%nat) as [e He]; [lia|].
    destruct (retry_loop_exhausted env c 2 1 1 None w e)
      as (w' & Hrun & _ & _ & _ & Hcs); [lia| |exact He|].
    { intros i Hi. apply Hall. lia. }
    by rewrite Hrun.
  - intros k v Hk Hfail Hv.
    destruct (retry_loop_success env c 2 k 2 1 None w v)
      as (w' & Hrun & _ & _ & _ & Hcs); [lia|lia|exact Hfail|exact Hv|].
    rewrite Hrun.
    destruct (cache_set_frame (Scheduler.vacancy_prefix ++ c) v w') as (_ & _ & Hl).
    assert (Hnow : now (cache_set (Scheduler.vacancy_prefix ++ c) v w').2 = now w').
    { unfold cache_set. by destruct (Cache.set _ _ _ _). }
    cbn [snd]. rewrite Hnow. intros Hnn.
    rewrite get_fst, Hl. rewrite Hcs.
    rewrite (set_stale (cacheService w) v (now w') (now w') Hcfg Hpos Hnn).
    replace (_ <? _) with false by (symmetry; apply Z.ltb_ge; lia).
    reflexivity.
Qed.

End RoundCache.

Section RoundCacheWitness.
Import JS Types Upstream Proc Spec Notions SchedNotions.

Lemma refreshStore_cache_witness :
  cacheService (Scheduler.refreshStore Samples2.down Samples.store
                  (Samples.world_at 0)).2
  = cacheService (Samples.world_at 0).
Proof.
  refine (proj1 (refreshStore_cache Samples2.down Samples.store
                   (Samples.world_at 0) eq_refl eq_refl) _).
  intros i Hi. destruct i as [|[|i]]; [eexists; reflexivity..|lia].
Defined.

End RoundCacheWitness.

Section TimerFacts.
Import JS Types Upstream Proc Spec Notions SchedNotions Scheduler.

Variable env : Env.

(** X19. [start()] registers one new timer, the one-shot delay to the
    first trigger, and records no handle for it.  On a host whose time
    zone has a constant offset from UTC, and with the two clock reads of
    [start()] taken at the same instant, the delay is positive and at
    most ten minutes, and it ends at an instant of the form
    XX:(10k+4):00 of local time. *)
Theorem start_schedules (p : Process) (k : Z) :
  constant_offset (zone (world p)) k ->
  let t0 := now (world p) in
  let delay := getNextScheduledTime (zone (world p)) t0 - t0 in
  timers (start env p)
    = <[next_handle p := Timeout FirstTrigger delay]> (timers p)
  /\ next_handle (start env p) = S (next_handle p)
  /\ intervals (start env p) = intervals p
  /\ 0 < delay <= 600000
  /\ is_trigger (zone (world p)) (t0 + delay).
Proof.
  intros Hz. cbv zeta.
  split; [reflexivity|]. split; [reflexivity|]. split; [reflexivity|].
  split.
  - rewrite (getNextScheduledTime_eq _ k Hz).
    destruct (_ <? _) eqn:E; [apply Z.ltb_lt in E | apply Z.ltb_ge in E];
      Z.div_mod_to_equations; lia.
  - replace (now (world p)
             + (getNextScheduledTime (zone (world p)) (now (world p))
                - now (world p)))
      with (getNextScheduledTime (zone (world p)) (now (world p))) by lia.
    apply (is_trigger_mod _ k Hz). rewrite (getNextScheduledTime_eq _ k Hz).
    destruct (_ <? _); Z.div_mod_to_equations; lia.
Qed.

(** X20. On a host whose time zone has a constant offset from UTC the
    triggers are ten minutes apart: from a trigger instant the next
    scheduled time is ten minutes later, so the periodic timer that is
    started at the first trigger meets every later trigger as long as it
    fires on time. *)
Theorem triggers_ten_minutes_apart (z : Dates.Zone) (k t n : Z) :
  constant_offset z k ->
  is_trigger z (getNextScheduledTime z t + n * 600000)
  /\ getNextScheduledTime z (getNextScheduledTime z t + n * 600000)
     = getNextScheduledTime z t + (n + 1) * 600000.
Proof.
  intros Hz.
  assert (Hm : (getNextScheduledTime z t + n * 600000 + k) mod 600000 = 240000).
  { rewrite (getNextScheduledTime_eq z k Hz).
    destruct (_ <? _); Z.div_mod_to_equations; lia. }
  split; [by apply (is_trigger_mod z k Hz)|].
  rewrite (getNextScheduledTime_eq z k Hz (getNextScheduledTime z t + n * 600000)), Hm.
  change (240000 <? 240000) with false. cbv iota. lia.
Qed.

Lemma tracked_ok_boot w : tracked_ok (boot w).
Proof.
  repeat split.
  - intros h Hh. by apply elem_of_nil in Hh.
  - intros h cb per H. simpl in H. by rewrite lookup_empty in H.
  - intros h [tm H]. simpl in H. by rewrite lookup_empty in H.
Qed.

Lemma tracked_ok_run_task m p : tracked_ok p -> tracked_ok (run_task m p).
Proof. intros H. exact H. Qed.

Lemma tracked_ok_start p : tracked_ok p -> tracked_ok (start env p).
Proof.
  intros (H1 & H2 & H3). unfold start, register. cbv zeta. simpl.
  repeat split; simpl.
  - intros h Hh. destruct (H1 h Hh) as [per Hper].
    exists per. rewrite lookup_insert_ne; [done|].
    intros <-. assert (next_handle p < next_handle p)%nat; [|lia].
    apply H3. by rewrite Hper.
  - intros h cb per H. destruct (decide (next_handle p = h)) as [<-|Hne].
    + rewrite lookup_insert_eq in H. discriminate H.
    + rewrite lookup_insert_ne in H by done. by apply (H2 h cb per).
  - intros h [tm H]. destruct (decide (next_handle p = h)) as [<-|Hne]; [lia|].
    rewrite lookup_insert_ne in H by done.
    assert (h < next_handle p)%nat; [|lia]. apply H3. by exists tm.
Qed.

Lemma tracked_ok_stop p : tracked_ok p -> tracked_ok (stop p).
Proof.
  intros (H1 & H2 & H3).
  destruct (fold_clear_fields (intervals p) p) as (_ & Hn & _ & Ht).
  repeat split; unfold stop; simpl.
  - intros h Hh. by apply elem_of_nil in Hh.
  - intros h cb per H. rewrite Ht in H.
    destruct (bool_decide (h ∈ intervals p)) eqn:E; [discriminate H|].
    apply bool_decide_eq_false in E. exfalso. apply E. by apply (H2 h cb per).
  - intros h [tm H]. rewrite Ht in H. rewrite Hn.
    destruct (bool_decide (h ∈ intervals p)); [discriminate H|].
    apply H3. by exists tm.
Qed.

Lemma tracked_ok_first_trigger p :
  tracked_ok p -> tracked_ok (run_callback env FirstTrigger p).
Proof.
  intros (H1 & H2 & H3). unfold run_callback, register, push_interval, run_task.
  simpl. repeat split; simpl.
  - intros h Hh. apply elem_of_app in Hh as [Hh|Hh].
    + destruct (H1 h Hh) as [per Hper]. exists per.
      rewrite lookup_insert_ne; [done|].
      intros <-. assert (next_handle p < next_handle p)%nat; [|lia].
      apply H3. by rewrite Hper.
    + apply list_elem_of_singleton in Hh. subst h.
      eexists. apply lookup_insert_eq.
  - intros h cb per H. apply elem_of_app.
    destruct (decide (next_handle p = h)) as [<-|Hne].
    + right. by apply list_elem_of_singleton.
    + rewrite lookup_insert_ne in H by done. left. by apply (H2 h cb per).
  - intros h [tm H]. destruct (decide (next_handle p = h)) as [<-|Hne]; [lia|].
    rewrite lookup_insert_ne in H by done.
    assert (h < next_handle p)%nat; [|lia]. apply H3. by exists tm.
Qed.

Lemma tracked_ok_clear_timeout p h cb d :
  tracked_ok p -> timers p !! h = Some (Timeout cb d) ->
  tracked_ok (clearInterval h p).
Proof.
  intros (H1 & H2 & H3) Hh. unfold clearInterval. repeat split; simpl.
  - intros h' Hh'. destruct (H1 h' Hh') as [per Hper]. exists per.
    rewrite lookup_delete_ne; [done|]. intros <-. congruence.
  - intros h' cb' per H. destruct (decide (h = h')) as [<-|Hne].
    + by rewrite lookup_delete_eq in H.
    + rewrite lookup_delete_ne in H by done. by apply (H2 h' cb' per).
  - intros h' [tm H]. destruct (decide (h = h')) as [<-|Hne].
    + by rewrite lookup_delete_eq in H.
    + rewrite lookup_delete_ne in H by done. apply H3. by exists tm.
Qed.

Lemma tracked_ok_step a p p' :
  tracked_ok p -> step env a p = Some p' -> tracked_ok p'.
Proof.
  intros Hok. destruct a as [| |h]; simpl.
  - intros [= <-]. by apply tracked_ok_start.
  - intros [= <-]. by apply tracked_ok_stop.
  - unfold fire. destruct (timers p !! h) as [[cb d|cb per]|] eqn:E; [| |discriminate].
    + intros [= <-].
      pose proof (tracked_ok_clear_timeout p h cb d Hok E) as Hok'.
      destruct cb; [by apply tracked_ok_first_trigger|exact Hok'].
    + intros [= <-]. destruct cb; [by apply tracked_ok_first_trigger|exact Hok].
Qed.

Lemma tracked_ok_steps acts :
  forall p p', tracked_ok p -> steps env acts p = Some p' -> tracked_ok p'.
Proof.
  induction acts as [|a acts IH]; intros p p' Hok; simpl.
  - by intros [= <-].
  - destruct (step env a p) as [p1|] eqn:E; [|discriminate].
    intros H. apply (IH p1 p'); [|exact H]. by apply (tracked_ok_step a p).
Qed.

(** X21. In every state the process reaches by starting, stopping and
    firing timers, [intervals] holds exactly the handles of the registered
    periodic timers.  So [stop()] always cancels every periodic timer and
    empties [intervals]; the only timers that outlive it are one-shot
    delays to a first trigger that have not fired yet. *)
Theorem stop_cancels_periodic (w : World) (acts : list Action) (p : Process) :
  steps env acts (boot w) = Some p ->
  tracked_ok p
  /\ intervals (stop p) = []
  /\ forall h tm, timers (stop p) !! h = Some tm ->
       exists cb d, tm = Timeout cb d /\ timers p !! h = Some tm.
Proof.
  intros Hsteps.
  pose proof (tracked_ok_steps acts _ _ (tracked_ok_boot w) Hsteps) as Hok.
  split; [exact Hok|]. split; [reflexivity|].
  intros h tm H.
  destruct (fold_clear_fields (intervals p) p) as (_ & _ & _ & Ht).
  unfold stop in H. simpl in H. rewrite Ht in H.
  destruct (bool_decide (h ∈ intervals p)) eqn:E; [discriminate H|].
  apply bool_decide_eq_false in E.
  destruct tm as [cb d|cb per]; [by exists cb, d|].
  exfalso. apply E. destruct Hok as (_ & H2 & _). by apply (H2 h cb per).
Qed.

End TimerFacts.

Section TimerWitness.
Import JS Types Upstream Proc Spec Notions SchedNotions Scheduler.

Lemma start_schedules_witness :
  0 < getNextScheduledTime Samples.jst 0 - 0 <= 600000.
Proof.
  exact (proj1 (proj2 (proj2 (proj2
           (start_schedules Samples.direct_full (boot (Samples.world_at 0))
              (9 * 3600000) jst_constant))))).
Defined.

Lemma triggers_ten_minutes_apart_witness :
  getNextScheduledTime Samples.jst (getNextScheduledTime Samples.jst 0 + 3 * 600000)
  = getNextScheduledTime Samples.jst 0 + (3 + 1) * 600000.
Proof.
  exact (proj2 (triggers_ten_minutes_apart Samples.jst (9 * 3600000) 0 3
                  jst_constant)).
Defined.

Lemma stop_cancels_periodic_witness :
  steps Samples.direct_full [DoStart; DoFire 0; DoFire 1] (boot (Samples.world_at 0))
  = Some (run_callback Samples.direct_full PeriodicTick
            (run_callback Samples.direct_full FirstTrigger
               (clearInterval 0 (start Samples.direct_full (boot (Samples.world_at 0))))))
  /\ intervals
       (stop (run_callback Samples.direct_full PeriodicTick
                (run_callback Samples.direct_full FirstTrigger
                   (clearInterval 0
                      (start Samples.direct_full (boot (Samples.world_at 0)))))))
     = [].
Proof.
  assert (H : steps Samples.direct_full [DoStart; DoFire 0; DoFire 1]
                (boot (Samples.world_at 0))
              = Some (run_callback Samples.direct_full PeriodicTick
                        (run_callback Samples.direct_full FirstTrigger
                           (clearInterval 0
                              (start Samples.direct_full
                                 (boot (Samples.world_at 0)))))))
    by (vm_compute; reflexivity).
  split; [exact H|].
  exact (proj1 (proj2 (stop_cancels_periodic Samples.direct_full
                         (Samples.world_at 0) _ _ H))).
Defined.

End TimerWitness.

Section ClearEndpoint.
Import JS Types Upstream Proc Spec Notions SchedNotions.

(** X22. After [clearCache] nothing is served from the cache: the next
    request for any valid store, cache-first or not, goes to the upstream
    (one direct request) and is never answered with [cached: true]. *)
Theorem clearCache_forgets env c q (w : World) :
  valid_storeCode c ->
  let w0 := (Admin.clearCache w).2 in
  let out := Controller.getVacancy env (Controller.mkRequest (Some c) q) w0 in
  (Admin.clearCache w).1 = Admin.CacheCleared
  /\ direct_calls out.2 = S (direct_calls w)
  /\ forall d a, out.1 <> Controller.Success d true a.
Proof.
  intros Hv. cbv zeta. split; [reflexivity|].
  rewrite (getVacancy_valid_key env c q _ _ Hv eq_refl).
  set (key := Scheduler.vacancy_prefix ++ c).
  set (w0 := (Admin.clearCache w).2).
  assert (Hfresh : forall w1, direct_calls w1 = direct_calls w ->
    direct_calls (respond_fresh env c key w1).2 = S (direct_calls w)
    /\ forall d a, (respond_fresh env c key w1).1 <> Controller.Success d true a).
  { intros w1 Hd.
    destruct (respond_fresh env c key w1) as [r w2] eqn:E.
    pose proof (acquire_frame env c w1) as (_ & Hdc & _).
    apply respond_fresh_inv in E as [(v & w' & Ha & -> & ->)|(e & Ha & ->)];
      rewrite Ha in Hdc; cbn [fst snd] in *.
    - destruct (cache_set_frame key v w') as (_ & Hd' & _).
      split; [by rewrite Hd', Hdc, Hd|]. intros d a [=].
    - split; [by rewrite Hdc, Hd|]. intros d a [=]. }
  destruct (Controller.noCache_of q); [by apply Hfresh|].
  cbv zeta.
  assert (Hget : (Cache.get (now w0) key (cacheService w0)).1 = None).
  { rewrite get_fst. unfold w0, Admin.clearCache, Cache.clear. simpl.
    by rewrite lookup_empty. }
  rewrite Hget. apply Hfresh.
  by destruct (cache_get_fields key w0) as (_ & -> & _).
Qed.

Lemma clearCache_forgets_witness :
  direct_calls
    (Controller.getVacancy Samples.direct_full
       (Controller.mkRequest (Some Samples.store) Controller.QAbsent)
       (Admin.clearCache
          (Controller.getVacancy Samples.direct_full
             (Controller.mkRequest (Some Samples.store) Controller.QAbsent)
             (Samples.world_at 0)).2).2).2
  = 2%nat.
Proof.
  exact (proj1 (proj2 (clearCache_forgets Samples.direct_full Samples.store
                         Controller.QAbsent
                         (Controller.getVacancy Samples.direct_full
                            (Controller.mkRequest (Some Samples.store)
                               Controller.QAbsent)
                            (Samples.world_at 0)).2
                         store_is_valid))).
Defined.

End ClearEndpoint.

Section TimeStamps.
Import JS Types Spec Dates Stamps TimeNotions.

Lemma stamp_local (z : Zone) (k now h m : Z) :
  constant_offset z k ->
  LocalTime z (stamp z now h m)
  = day_start (LocalTime z now) + h * 3600000 + m * 60000.
Proof.
  intros Hz. unfold stamp. cbv zeta.
  rewrite (setMilliseconds_const z k Hz), (setSeconds_const z k Hz),
    (setMinutes_const z k Hz), (setHours_const z k Hz).
  unfold getMilliseconds, getSeconds, getMinutes, getHours.
  rewrite !(LocalTime_const z k Hz).
  unfold day_start, HourFromTime, MinFromTime, SecFromTime, msFromTime,
    msPerHour, msPerMinute, msPerSecond.
  Z.div_mod_to_equations. lia.
Qed.

Ltac time_witness hh mm rest g1 g2 :=
  exists hh, mm, rest; split;
  [ split; [reflexivity|];
    split; [repeat constructor; assumption|];
    split; [simpl; lia|];
    split; [repeat constructor; assumption|reflexivity]
  | by destruct g1, g2 ].

(** What the two groups of a match at the start of [s] hold. *)
Lemma time_here_inv g1 g2 s cap :
  match_here (time_atoms g1 g2) false s [] = Some cap ->
  exists hh mm rest,
    time_at s [] hh mm rest
    /\ cap = (if g1 then hh else []) ++ (if g2 then mm else []).
Proof.
  unfold time_atoms, is_char.
  destruct s as [|c1 [|c2 [|c3 [|c4 [|c5 r]]]]];
    cbn [match_here qt cls grp];
    repeat (match goal with
            | |- context [is_digit ?x] => destruct (is_digit x) eqn:?
            | |- context [(?x =? 58)%N] => destruct (x =? 58)%N eqn:?
            end; cbn [match_here qt cls grp]);
    try discriminate;
    intros [= <-];
    repeat match goal with
           | H : (_ =? 58)%N = true |- _ => apply N.eqb_eq in H; subst
           end;
    try (match goal with
         | H : is_digit 58 = true |- _ => vm_compute in H; discriminate H
         end);
    first [ time_witness [c1; c2] [c4; c5] r g1 g2
          | time_witness [c1] [c3; c4] (c5 :: r) g1 g2
          | time_witness [c1] [c3; c4] (@nil N) g1 g2 ].
Qed.

Lemma time_here_intro g1 g2 s hh mm rest :
  time_at s [] hh mm rest ->
  match_here (time_atoms g1 g2) false s []
  = Some ((if g1 then hh else []) ++ (if g2 then mm else [])).
Proof.
  intros (Hs & Hh & Hlh & Hm & Hlm). cbn [app] in Hs. subst s.
  destruct mm as [|m1 [|m2 [|]]]; try discriminate Hlm.
  inversion Hm as [|? ? Hm1 Hm']; subst.
  inversion Hm' as [|? ? Hm2 _]; subst.
  unfold time_atoms, is_char.
  destruct hh as [|c1 [|c2 [|]]]; simpl in Hlh; try lia.
  - inversion Hh as [|? ? H1 _]; subst.
    cbn [app match_here qt cls grp]. rewrite H1.
    change (is_digit 58) with false. cbn [match_here qt cls grp].
    change (58 =? 58)%N with true. cbn [match_here qt cls grp].
    rewrite Hm1, Hm2. by destruct g1, g2.
  - inversion Hh as [|? ? H1 Hh']; subst.
    inversion Hh' as [|? ? H2 _]; subst.
    cbn [app match_here qt cls grp]. rewrite H1, H2.
    cbn [match_here qt cls grp].
    change (58 =? 58)%N with true. cbn [match_here qt cls grp].
    rewrite Hm1, Hm2. by destruct g1, g2.
Qed.

Lemma time_at_shift s pre pre0 hh mm rest :
  time_at s pre hh mm rest -> time_at (pre0 ++ s) (pre0 ++ pre) hh mm rest.
Proof.
  intros (-> & H). split; [|exact H]. by rewrite <- app_assoc.
Qed.

(** The pattern finds the first time of the text. *)
Lemma time_search_first g1 g2 s pre hh mm rest :
  first_time_at s pre hh mm rest ->
  search (time_atoms g1 g2) false s
  = Some ((if g1 then hh else []) ++ (if g2 then mm else [])).
Proof.
  intros [Hat Hmin]. apply search_some.
  exists pre, (hh ++ 58%N :: mm ++ rest). split; [apply Hat|]. split.
  - apply (time_here_intro g1 g2 _ hh mm rest).
    destruct Hat as (_ & H). by split.
  - intros pre' suf' Hs Hlen.
    destruct (match_here (time_atoms g1 g2) false suf' []) as [cap|] eqn:E;
      [|reflexivity].
    destruct (time_here_inv _ _ _ _ E) as (hh' & mm' & rest' & Hat' & _).
    apply (time_at_shift _ _ pre') in Hat'. rewrite <- Hs, app_nil_r in Hat'.
    specialize (Hmin _ _ _ _ Hat'). lia.
Qed.

(** It finds nothing in a text that holds no time. *)
Lemma time_search_none g1 g2 s :
  ~ has_time s -> search (time_atoms g1 g2) false s = None.
Proof.
  intros Hno. apply search_none. intros pre suf Hs.
  destruct (match_here (time_atoms g1 g2) false suf []) as [cap|] eqn:E;
    [|reflexivity].
  destruct (time_here_inv _ _ _ _ E) as (hh & mm & rest & Hat & _).
  exfalso. apply Hno. exists pre, hh, mm, rest.
  apply (time_at_shift _ _ pre) in Hat. by rewrite <- Hs, app_nil_r in Hat.
Qed.

(** What it finds is a time of the text. *)
Lemma time_search_inv g1 g2 s cap :
  search (time_atoms g1 g2) false s = Some cap ->
  exists pre hh mm rest,
    time_at s pre hh mm rest
    /\ forall g1' g2',
         search (time_atoms g1' g2') false s
         = Some ((if g1' then hh else []) ++ (if g2' then mm else [])).
Proof.
  intros Hs. apply search_some in Hs as (pre & suf & -> & Hm & Hmin).
  destruct (time_here_inv _ _ _ _ Hm) as (hh & mm & rest & Hat & _).
  exists pre, hh, mm, rest.
  assert (Hat' : time_at (pre ++ suf) pre hh mm rest).
  { apply (time_at_shift _ _ pre) in Hat. by rewrite app_nil_r in Hat. }
  split; [exact Hat'|].
  intros g1' g2'. apply search_some. exists pre, suf.
  split; [reflexivity|].
  split; [by apply (time_here_intro g1' g2' _ hh mm rest)|].
  intros pre' suf' Heq Hlen.
  destruct (match_here (time_atoms g1' g2') false suf' []) as [cap'|] eqn:E;
    [|reflexivity].
  destruct (time_here_inv _ _ _ _ E) as (hh' & mm' & rest' & Hat'' & _).
  specialize (Hmin pre' suf' Heq Hlen).
  rewrite (time_here_intro g1 g2 _ _ _ _ Hat'') in Hmin. discriminate Hmin.
Qed.

Lemma two_digits_value ds :
  all_digits ds -> (1 <= length ds <= 2)%nat ->
  Scraper.parseInt_capture ds = digits_value ds /\ 0 <= digits_value ds <= 99.
Proof.
  intros Hd Hl. unfold Scraper.parseInt_capture.
  rewrite parseInt_digits; [|by destruct ds; [simpl in Hl; lia|]|exact Hd].
  split; [reflexivity|].
  destruct ds as [|c1 [|c2 [|c3 r]]]; simpl in Hl; try lia;
    repeat match goal with
           | H : all_digits (_ :: _) |- _ => inversion H; subst; clear H
           | H : Forall _ (_ :: _) |- _ => inversion H; subst; clear H
           end;
    repeat match goal with
           | H : is_digit _ = true |- _ =>
               unfold is_digit in H; apply andb_true_iff in H as [?%N.leb_le ?%N.leb_le]
           end;
    unfold digits_value, digit_value; simpl; lia.
Qed.

Lemma time_at_nonempty s pre hh mm rest : time_at s pre hh mm rest -> s <> [].
Proof.
  intros (-> & _) H. apply app_eq_nil in H as [_ H].
  apply app_eq_nil in H as [_ H]. discriminate H.
Qed.

Section Scan.

Variable z : Zone.
Variable select : TimeSelector -> option jsstring.
Variable now : Z.

Lemma scan_times_some sels r :
  scan_times z select sels now = Some r ->
  exists hh mm,
    all_digits hh /\ (1 <= length hh <= 2)%nat
    /\ all_digits mm /\ length mm = 2%nat
    /\ r = stamp z now (digits_value hh) (digits_value mm).
Proof.
  induction sels as [|sel rest IH]; simpl; [discriminate|].
  destruct (select sel) as [raw|]; [|exact IH].
  destruct (bool_decide (trim raw = [])); [exact IH|].
  unfold exec, re_time_1, re_time_2. cbn [bol atoms eol].
  destruct (search (time_atoms true false) false (trim raw)) as [h|] eqn:Eh;
    [|exact IH].
  destruct (time_search_inv _ _ _ _ Eh)
    as (pre & hh & mm & rest' & (_ & H1 & H2 & H3 & H4) & Hall).
  rewrite (Hall false true). rewrite (Hall true false) in Eh.
  injection Eh as <-. cbn [app]. rewrite app_nil_r.
  intros [= <-].
  destruct (two_digits_value hh H1 H2) as [-> _].
  destruct (two_digits_value mm H3) as [-> _]; [lia|].
  exists hh, mm. auto.
Qed.

Lemma scan_times_skip before sels :
  (forall sel raw, sel ∈ before -> select sel = Some raw ->
     ~ has_time (trim raw)) ->
  scan_times z select (before ++ sels) now = scan_times z select sels now.
Proof.
  induction before as [|sel before IH]; intros Hno; [reflexivity|].
  cbn [app scan_times].
  assert (IH' : scan_times z select (before ++ sels) now
                = scan_times z select sels now).
  { apply IH. intros sel' raw Hin. apply Hno. by right. }
  destruct (select sel) as [raw|] eqn:E; [|exact IH'].
  destruct (bool_decide (trim raw = [])); [exact IH'|].
  unfold exec, re_time_1. cbn [bol atoms eol].
  rewrite time_search_none; [exact IH'|].
  apply (Hno sel raw); [by left|exact E].
Qed.

Lemma scan_times_first sel sels raw pre hh mm rest :
  select sel = Some raw ->
  first_time_at (trim raw) pre hh mm rest ->
  scan_times z select (sel :: sels) now
  = Some (stamp z now (digits_value hh) (digits_value mm)).
Proof.
  intros Hsel Hfirst. cbn [scan_times]. rewrite Hsel.
  pose proof Hfirst as [Hat _].
  rewrite bool_decide_eq_false_2 by (by apply (time_at_nonempty _ _ _ _ _ Hat)).
  unfold exec, re_time_1, re_time_2. cbn [bol atoms eol].
  rewrite (time_search_first true false _ _ _ _ _ Hfirst).
  rewrite (time_search_first false true _ _ _ _ _ Hfirst).
  cbn [app]. rewrite app_nil_r.
  destruct Hat as (_ & H1 & H2 & H3 & H4).
  destruct (two_digits_value hh H1 H2) as [-> _].
  destruct (two_digits_value mm H3) as [-> _]; [lia|].
  reflexivity.
Qed.

End Scan.

(** X23. The time stamp that [extractLastUpdated] reads from a rendered
    document, on a host whose time zone has a constant offset from UTC.
    It is the current time when no text selected by [.last-updated],
    [.update-time], [[data-last-updated]] or [.vacancy-time] holds a
    time (one or two digits, a colon, two digits).  Otherwise it is
    taken from the first of these selectors, in this order, whose text
    holds a time, and from the first time of that text: the local day of
    the current time at that hour and minute, with zero seconds.  The
    hour and the minute are not checked: any digits are taken, up to 99,
    so the stamp can lie in the future and on a later day. *)
Theorem extractLastUpdated_spec (z : Zone) (k : Z)
    (select : TimeSelector -> option jsstring) (now : Z) :
  constant_offset z k ->
  let r := extractLastUpdated z select now in
  (r = now
   \/ exists h m, 0 <= h <= 99 /\ 0 <= m <= 99
        /\ LocalTime z r = day_start (LocalTime z now) + h * 3600000 + m * 60000)
  /\ ((forall sel raw, select sel = Some raw -> ~ has_time (trim raw)) ->
      r = now)
  /\ (forall before sel after raw pre hh mm rest,
        [sel_last_updated; sel_update_time; sel_data_last_updated;
         sel_vacancy_time] = before ++ sel :: after ->
        (forall sel' raw', sel' ∈ before -> select sel' = Some raw' ->
           ~ has_time (trim raw')) ->
        select sel = Some raw ->
        first_time_at (trim raw) pre hh mm rest ->
        LocalTime z r
        = day_start (LocalTime z now)
          + digits_value hh * 3600000 + digits_value mm * 60000).
Proof.
  intros Hz. cbv zeta. unfold extractLastUpdated. split; [|split].
  - destruct (scan_times z select time_selectors now) as [r|] eqn:E; [|by left].
    right.
    destruct (scan_times_some _ _ _ _ _ E) as (hh & mm & H1 & H2 & H3 & H4 & ->).
    exists (digits_value hh), (digits_value mm).
    split; [by apply two_digits_value|].
    split; [apply two_digits_value; [done|lia]|].
    by apply (stamp_local z k).
  - intros Hno.
    rewrite <- (app_nil_r time_selectors), scan_times_skip; [reflexivity|].
    intros sel raw _. apply Hno.
  - intros before sel after raw pre hh mm rest Hsels Hbefore Hsel Hfirst.
    unfold time_selectors. rewrite Hsels.
    rewrite (scan_times_skip _ _ _ _ _ Hbefore).
    rewrite (scan_times_first _ _ _ _ _ _ _ _ _ _ Hsel Hfirst).
    by apply (stamp_local z k).
Qed.

Lemma extractLastUpdated_spec_witness :
  LocalTime Samples.jst
    (extractLastUpdated Samples.jst
       (fun sel => match sel with
                   | sel_update_time => Some (js " 9:05 JST ")
                   | _ => None
                   end) 300000)
  = day_start (LocalTime Samples.jst 300000) + 9 * 3600000 + 5 * 60000.
Proof.
  refine (proj2 (proj2 (extractLastUpdated_spec Samples.jst (9 * 3600000) _ 300000
                          jst_constant))
            [sel_last_updated] sel_update_time
            [sel_data_last_updated; sel_vacancy_time]
            (js " 9:05 JST ") [] [57%N] [48%N; 53%N] (js " JST")
            eq_refl _ eq_refl _).
  - intros sel' raw' Hin Hsel.
    apply list_elem_of_singleton in Hin. subst sel'. discriminate Hsel.
  - split.
    + split; [reflexivity|]. split; [by repeat constructor|].
      split; [simpl; lia|]. split; [by repeat constructor|reflexivity].
    + intros pre' hh' mm' rest' _. simpl. lia.
Defined.

End TimeStamps.

(* ===================================================================== *)
(** ** The channels of an acquisition and the [noCache] parameter *)
(* ===================================================================== *)

Section Acquisition.
Import JS Types Upstream Proc Spec Notions.

Lemma rendered_only_no_read tr : rendered_only tr -> no_cache_read tr.
Proof.
  intros H key Hin. unfold rendered_only in H.
  rewrite Forall_forall in H. by apply (H _ Hin).
Qed.

Lemma no_cache_read_app tr1 tr2 :
  no_cache_read tr1 -> no_cache_read tr2 -> no_cache_read (tr1 ++ tr2).
Proof.
  intros H1 H2 key Hin. apply elem_of_app in Hin as [Hin|Hin];
    [by apply (H1 key)|by apply (H2 key)].
Qed.

(** The retry loop does nothing but load pages and back off. *)
Lemma retry_loop_rendered_only env c maxRetries remaining :
  forall attempt last w,
    exists tr,
      trace (Scraper.retry_loop env c maxRetries remaining attempt last w).2
      = trace w ++ tr
      /\ rendered_only tr.
Proof.
  induction remaining as [|r IH]; intros attempt last w; simpl.
  - exists []. split; [by rewrite app_nil_r|constructor].
  - unfold try_catch. rewrite scrapeVacancy_run.
    destruct (attempt_outcome env c (rendered_calls w)) as [e|v].
    + unfold bind, sleep, ret.
      destruct (attempt <? maxRetries);
        match goal with
        | |- context [Scraper.retry_loop _ _ _ _ ?a ?l ?w0] =>
            destruct (IH a l w0) as (tr & Htr & Hro)
        end;
        rewrite Htr; simpl; eexists; rewrite <- !app_assoc;
        (split; [reflexivity|]); simpl; repeat constructor; exact Hro.
    + simpl. exists [EvRendered c]. split; [done|]. by repeat constructor.
Qed.

(** An acquisition for a client: one direct request, then page loads and
    back-off only. *)
Lemma acquire_trace env c w :
  exists tr,
    trace (Controller.acquire env c w).2 = trace w ++ EvDirect c :: tr
    /\ rendered_only tr.
Proof.
  rewrite acquire_run.
  destruct (fetchVacancyFromAPI_frame env c w) as (Htr & _ & _).
  destruct (Scraper.fetchVacancyFromAPI env c w) as [[e|v] w1]; simpl in *.
  - destruct (retry_loop_rendered_only env c 3 (Z.to_nat 3) 1 None w1)
      as (tr & Htr' & Hro).
    fold (Scraper.scrapeWithRetry env c 3 w1) in Htr'.
    exists tr. by rewrite Htr', Htr, <- app_assoc.
  - exists []. split; [exact Htr|constructor].
Qed.

(** What [getVacancy] makes of a fresh acquisition that starts in [w0]:
    one direct request first and no cache lookup; the record is answered
    with [cached: false] and stored, an error is answered as it is and
    nothing is stored. *)
Lemma respond_fresh_spec env c key w0 :
  let out := respond_fresh env c key w0 in
  (exists tr, trace out.2 = trace w0 ++ EvDirect c :: tr /\ no_cache_read tr)
  /\ direct_calls out.2 = S (direct_calls w0)
  /\ (forall d a, out.1 <> Controller.Success d true a)
  /\ (forall v w1,
        Controller.acquire env c w0 = (inr v, w1) ->
        out.1 = Controller.Success v false None
        /\ trace out.2 = trace w1 ++ [EvCacheSet key v]
        /\ Cache.v <$> Cache.data (Cache.cache (cacheService out.2)) !! key
           = Some v)
  /\ (forall e w1,
        Controller.acquire env c w0 = (inl e, w1) ->
        out = (Controller.ScrapingError e, w1)
        /\ cacheService w1 = cacheService w0).
Proof.
  cbv zeta. unfold respond_fresh.
  destruct (acquire_trace env c w0) as (tr & Htr & Hro).
  destruct (acquire_frame env c w0) as (Hcs & Hdc & _).
  destruct (Controller.acquire env c w0) as [[e|v] w1]; cbn [fst snd] in *.
  - split; [exists tr; split; [exact Htr|by apply rendered_only_no_read]|].
    split; [exact Hdc|]. split; [discriminate|].
    split; [discriminate|]. intros e' w1' [= <- <-]. auto.
  - destruct (cache_set_frame key v w1) as (Hset & Hd' & Hl).
    split.
    { exists (tr ++ [EvCacheSet key v]). split.
      - by rewrite Hset, Htr, <- app_assoc.
      - apply no_cache_read_app; [by apply rendered_only_no_read|].
        intros k Hin. apply list_elem_of_singleton in Hin. discriminate Hin. }
    split; [by rewrite Hd'|]. split; [discriminate|].
    split; [|discriminate].
    intros v' w1' [= <- <-]. split; [reflexivity|]. split; [exact Hset|].
    by rewrite Hl.
Qed.

(** C9. On a valid store code, [noCache] equal to the string "true" makes
    [getVacancy] skip the cache lookup, whatever the cache holds: it makes
    one direct request first, never reads the cache and never answers
    [cached: true]; a record it acquires is answered with [cached: false]
    and stored under the key of the store, an error is answered as an
    error and the cache is left as it was.  With any other [noCache] the
    cache is read first: a live entry is answered with [cached: true] and
    its age without any upstream call; without a live entry the request
    goes on as the fresh acquisition does. *)
Theorem getVacancy_noCache env c q w :
  valid_storeCode c ->
  let req := Controller.mkRequest (Some c) q in
  let key : jsstring := Scheduler.vacancy_prefix ++ c in
  let out := Controller.getVacancy env req w in
  (q = Controller.QString (js "true") ->
     (exists tr, trace out.2 = trace w ++ EvDirect c :: tr /\ no_cache_read tr)
     /\ direct_calls out.2 = S (direct_calls w)
     /\ (forall d a, out.1 <> Controller.Success d true a)
     /\ (forall v w1,
           Controller.acquire env c w = (inr v, w1) ->
           out.1 = Controller.Success v false None
           /\ trace out.2 = trace w1 ++ [EvCacheSet key v]
           /\ Cache.v <$> Cache.data (Cache.cache (cacheService out.2)) !! key
              = Some v)
     /\ (forall e w1,
           Controller.acquire env c w = (inl e, w1) ->
           out = (Controller.ScrapingError e, w1)
           /\ cacheService w1 = cacheService w))
  /\ (q <> Controller.QString (js "true") ->
      (forall e,
         Cache.data (Cache.cache (cacheService w)) !! key = Some e ->
         Cache.stale (now w) e = false ->
         out.1 = Controller.Success (Cache.v e) true
                   (if Cache.t e =? 0 then None
                    else Some (Cache.ttl (cacheService w)
                               - (Cache.t e - now w) / 1000))
         /\ trace out.2 = trace w ++ [EvCacheGet key]
         /\ direct_calls out.2 = direct_calls w
         /\ rendered_calls out.2 = rendered_calls w)
      /\ ((forall e,
             Cache.data (Cache.cache (cacheService w)) !! key = Some e ->
             Cache.stale (now w) e = true) ->
          let w0 := (cache_get key w).2 in
          (exists tr,
             trace out.2 = trace w ++ EvCacheGet key :: EvDirect c :: tr
             /\ no_cache_read tr)
          /\ direct_calls out.2 = S (direct_calls w)
          /\ (forall d a, out.1 <> Controller.Success d true a)
          /\ (forall v w1,
                Controller.acquire env c w0 = (inr v, w1) ->
                out.1 = Controller.Success v false None
                /\ trace out.2 = trace w1 ++ [EvCacheSet key v]
                /\ Cache.v <$> Cache.data (Cache.cache (cacheService out.2)) !! key
                   = Some v)
          /\ (forall e w1,
                Controller.acquire env c w0 = (inl e, w1) ->
                out = (Controller.ScrapingError e, w1)))).
Proof.
  intros Hv req key out. unfold out, req.
  rewrite (getVacancy_valid_key env c q w key Hv eq_refl).
  split.
  - intros Hq. rewrite (proj2 (noCache_of_true q) Hq).
    apply respond_fresh_spec.
  - intros Hq.
    assert (Hno : Controller.noCache_of q = false).
    { destruct (Controller.noCache_of q) eqn:E; [|done].
      by apply noCache_of_true in E. }
    rewrite Hno. cbv zeta.
    assert (Hk : key <> []) by (intros Hk; discriminate Hk).
    destruct (cache_get_fields key w) as (Hn0 & Hd0 & Hr0 & Hc0).
    assert (Htr0 : trace (cache_get key w).2 = trace w ++ [EvCacheGet key]).
    { unfold cache_get. by destruct (Cache.get _ _ _). }
    split.
    + intros e He Hlive.
      assert (Hget : (Cache.get (now w) key (cacheService w)).1 = Some (Cache.v e)).
      { pose proof (get_fst (cacheService w) key (now w)) as Hg.
        rewrite He, Hlive in Hg. exact Hg. }
      destruct (get_keeps_live (cacheService w) key (now w) e He Hlive)
        as (Hdata & Httl).
      assert (Hage : (Cache.getCacheAge (now (cache_get key w).2) key
                        (cacheService (cache_get key w).2)).1
                     = if Cache.t e =? 0 then None
                       else Some (Cache.ttl (cacheService w)
                                  - (Cache.t e - now w) / 1000)).
      { rewrite getCacheAge_fst, Hc0, Hdata, Httl, Hn0, He, Hlive.
        by rewrite bool_decide_eq_false_2 by exact Hk. }
      destruct (cache_getCacheAge_fields key (cache_get key w).2)
        as (_ & Hd1 & Hr1).
      rewrite Hget. cbn [fst snd]. rewrite Hage.
      split; [reflexivity|]. split.
      { unfold cache_getCacheAge. destruct (Cache.getCacheAge _ _ _). exact Htr0. }
      split; [by rewrite Hd1|by rewrite Hr1].
    + intros Hdead.
      assert (Hmiss : (Cache.get (now w) key (cacheService w)).1 = None).
      { pose proof (get_fst (cacheService w) key (now w)) as Hg.
        destruct (Cache.data (Cache.cache (cacheService w)) !! key) as [e|] eqn:El;
          [|exact Hg].
        by rewrite (Hdead e eq_refl) in Hg. }
      rewrite Hmiss.
      destruct (respond_fresh_spec env c key (cache_get key w).2)
        as ((tr & Htr & Hnr) & Hdc & Hnc & Hok & Hfail).
      split.
      { exists tr. split; [|exact Hnr].
        by rewrite Htr, Htr0, <- app_assoc. }
      split; [by rewrite Hdc, Hd0|]. split; [exact Hnc|].
      split; [exact Hok|]. intros e w1 Ha. by apply Hfail.
Qed.

(** A [noCache] request on an upstream on which nothing works, in a state
    where the cache holds a live record of the store: the answer is the
    error of the last page load, not the cached record. *)
Lemma getVacancy_noCache_witness :
  (Cache.get (now Samples2.warm_world)
     (Scheduler.vacancy_prefix ++ Samples.store)
     (cacheService Samples2.warm_world)).1
  = Some (mkVacancy Samples.store (mkDart 0 0 full))
  /\ (Controller.getVacancy Samples2.down
        (Controller.mkRequest (Some Samples.store)
           (Controller.QString (js "true"))) Samples2.warm_world).1
     = Controller.ScrapingError (UpstreamError "net::ERR").
Proof.
  split; [vm_compute; reflexivity|].
  assert (Ha : Controller.acquire Samples2.down Samples.store Samples2.warm_world
               = (inl (UpstreamError "net::ERR"),
                  (Controller.acquire Samples2.down Samples.store
                     Samples2.warm_world).2))
    by (vm_compute; reflexivity).
  exact (f_equal fst
           (proj1 (proj2 (proj2 (proj2 (proj2
              (proj1 (getVacancy_noCache Samples2.down Samples.store
                        (Controller.QString (js "true")) Samples2.warm_world
                        store_is_valid)
                 eq_refl)))) _ _ Ha))).
Defined.

(** C2, as the code has it.  An acquisition for a client request begins
    with an attempt on the direct channel; when that attempt succeeds the
    rendered channel is not used, when it fails the rendered channel is
    retried up to three times; the record obtained is written to the
    cache.  The callback that a scheduled round runs for a store never
    uses the direct channel: it retries the rendered channel up to two
    times and writes the record to the cache on success; over any list
    of store codes the callbacks load the page of every store and make
    no direct request; a round runs the callbacks over the store codes
    that [getStoreCodesFromCache] gives it, or over the default store
    when it gives none. *)
Theorem channel_order env c w :
  ((exists rest,
      trace (Controller.acquire env c w).2 = trace w ++ EvDirect c :: rest)
   /\ (forall v w1,
         Scraper.fetchVacancyFromAPI env c w = (inr v, w1) ->
         Controller.acquire env c w = (inr v, w1)
         /\ trace w1 = trace w ++ [EvDirect c]
         /\ rendered_calls w1 = rendered_calls w)
   /\ (forall e w1,
         Scraper.fetchVacancyFromAPI env c w = (inl e, w1) ->
         Controller.acquire env c w = Scraper.scrapeWithRetry env c 3 w1))
  /\ (forall q v w0 w1,
        valid_storeCode c ->
        (Controller.noCache_of q = true /\ w0 = w
         \/ Controller.noCache_of q = false
            /\ (Cache.get (now w) (Scheduler.vacancy_prefix ++ c) (cacheService w)).1 = None
            /\ w0 = (cache_get (Scheduler.vacancy_prefix ++ c) w).2) ->
        Controller.acquire env c w0 = (inr v, w1) ->
        Controller.getVacancy env (Controller.mkRequest (Some c) q) w
          = (Controller.Success v false None,
             (cache_set (Scheduler.vacancy_prefix ++ c) v w1).2)
        /\ trace (cache_set (Scheduler.vacancy_prefix ++ c) v w1).2
           = trace w1 ++ [EvCacheSet (Scheduler.vacancy_prefix ++ c) v]
        /\ Cache.v <$> Cache.data (Cache.cache (cacheService
                         (cache_set (Scheduler.vacancy_prefix ++ c) v w1).2))
                       !! (Scheduler.vacancy_prefix ++ c : jsstring)
           = Some v)
  /\ (Scheduler.refreshStore env c w =
        match Scraper.scrapeWithRetry env c 2 w with
        | (inr v, w1) =>
            (inr tt, (cache_set (Scheduler.vacancy_prefix ++ c) v w1).2)
        | (inl e, w1) => (inr tt, w1)
        end)
  /\ (forall v w1,
        Scraper.scrapeWithRetry env c 2 w = (inr v, w1) ->
        trace (Scheduler.refreshStore env c w).2
          = trace w1 ++ [EvCacheSet (Scheduler.vacancy_prefix ++ c) v]
        /\ Cache.v <$> Cache.data (Cache.cache (cacheService
                         (Scheduler.refreshStore env c w).2))
                       !! (Scheduler.vacancy_prefix ++ c : jsstring)
           = Some v)
  /\ (forall cs,
        direct_calls (Scheduler.refreshAll env cs w).2 = direct_calls w
        /\ exists tr,
             trace (Scheduler.refreshAll env cs w).2 = trace w ++ tr
             /\ no_direct tr
             /\ forall c', c' ∈ cs -> EvRendered c' ∈ tr)
  /\ (Scheduler.executeScraping env w
      = Scheduler.refreshAll env
          match Scheduler.getStoreCodesFromCache w with
          | [] => Scheduler.DEFAULT_STORE_CODES
          | c' :: cs => c' :: cs
          end w).
Proof.
  split; [|split; [|split; [|split; [|split]]]];
    [| | | | |unfold Scheduler.executeScraping;
              by destruct (Scheduler.getStoreCodesFromCache w)].
  - split; [apply acquire_direct_first|]. split.
    + intros v w1 Hf. rewrite acquire_run, Hf.
      destruct (fetchVacancyFromAPI_frame env c w) as (Htr & Hrc & _).
      rewrite Hf in Htr, Hrc. by repeat split.
    + intros e w1 Hf. by rewrite acquire_run, Hf.
  - intros q v w0 w1 Hv Hcase Hacq.
    rewrite (getVacancy_valid env c q w Hv). cbv zeta.
    destruct (cache_set_frame (Scheduler.vacancy_prefix ++ c) v w1)
      as (Hset & _ & Hl).
    split; [|split; [exact Hset|by rewrite Hl]].
    destruct Hcase as [[Hq ->] | (Hq & Hmiss & ->)]; rewrite Hq.
    + unfold respond_fresh. by rewrite Hacq.
    + rewrite Hmiss. unfold respond_fresh. by rewrite Hacq.
  - apply refreshStore_run.
  - intros v w1 Hs. rewrite refreshStore_run, Hs. cbn [snd].
    destruct (cache_set_frame (Scheduler.vacancy_prefix ++ c) v w1)
      as (Hset & _ & Hl).
    split; [exact Hset|by rewrite Hl].
  - intros cs.
    destruct (refreshAll_frame env cs w) as (Hd & tr & Htr & Hnd).
    destruct (refreshAll_effect env cs w) as (_ & (tr' & Htr' & Hin) & _).
    split; [exact Hd|]. exists tr. split; [exact Htr|]. split; [exact Hnd|].
    rewrite Htr in Htr'. apply app_inv_head in Htr'. by subst tr'.
Qed.

Lemma channel_order_witness :
  valid_storeCode Samples.store
  /\ Controller.getVacancy Samples.flaky
       (Controller.mkRequest (Some Samples.store) (Controller.QString (js "true")))
       (Samples.world_at 0)
     = (Controller.Success Samples.data_3 false None,
        (cache_set (Scheduler.vacancy_prefix ++ Samples.store) Samples.data_3
           (Controller.acquire Samples.flaky Samples.store (Samples.world_at 0)).2).2)
  /\ direct_first
       (trace (Controller.acquire Samples.flaky Samples.store (Samples.world_at 0)).2).
Proof.
  assert (Hacq : Controller.acquire Samples.flaky Samples.store (Samples.world_at 0)
                 = (inr Samples.data_3,
                    (Controller.acquire Samples.flaky Samples.store
                       (Samples.world_at 0)).2))
    by (vm_compute; reflexivity).
  split; [exact store_is_valid|]. split.
  - exact (proj1 (proj1 (proj2 (channel_order Samples.flaky Samples.store
                                  (Samples.world_at 0)))
                    (Controller.QString (js "true")) _ _ _ store_is_valid
                    (or_introl (conj eq_refl eq_refl)) Hacq)).
  - exists Samples.store,
      [EvRendered Samples.store; EvSleep 2000; EvRendered Samples.store;
       EvSleep 4000; EvRendered Samples.store].
    vm_compute. reflexivity.
Defined.

(** The callback of a scheduled round on an upstream whose structured
    endpoint answers: it loads the page in the browser and writes the
    record to the cache without any attempt on the direct channel. *)
Lemma round_callback_skips_direct :
  (exists v w1,
     Scraper.fetchVacancyFromAPI Samples.direct_full Samples.store
       (Samples.world_at 0) = (inr v, w1))
  /\ trace (Scheduler.refreshStore Samples.direct_full Samples.store
              (Samples.world_at 0)).2
     = [EvRendered Samples.store;
        EvCacheSet (js "vacancy:20333") Samples.data_3]
  /\ direct_calls
       (Scheduler.refreshStore Samples.direct_full Samples.store
          (Samples.world_at 0)).2
     = 0%nat
  /\ ~ direct_first
        (trace (Scheduler.refreshStore Samples.direct_full Samples.store
                  (Samples.world_at 0)).2).
Proof.
  assert (H : trace (Scheduler.refreshStore Samples.direct_full Samples.store
                       (Samples.world_at 0)).2
              = [EvRendered Samples.store;
                 EvCacheSet (js "vacancy:20333") Samples.data_3])
    by (vm_compute; reflexivity).
  split; [eexists _, _; reflexivity|].
  split; [exact H|]. split; [vm_compute; reflexivity|].
  rewrite H. intros (c & rest & Heq). discriminate Heq.
Qed.

End Acquisition.
